(** * Partitioned, paginated log search of the logs composable

    A shallow embedding of the search composable of the web client
    ([useLogs]): the histogram interval ladder of [buildSearch], the
    partition bookkeeping of [getQueryPartitions], the pagination plan of
    [refreshPartitionPagination] and the slice executor [getPaginatedData]
    with its histogram companion [getHistogramQueryData].

    JavaScript numbers are modelled as [Z] (time stamps in microseconds,
    record counts and page sizes are integers far below 2^53), arrays as
    lists, arrays that may have holes as lists of options, objects with
    optional properties as records with option fields, and a thrown
    [TypeError] as the [Throw] outcome of a small exception monad. *)

From Stdlib Require Import ZArith List String Ascii Bool Lia.
From Stdlib Require Import Sorted Permutation.
Import ListNotations.
Local Open Scope string_scope.
Local Open Scope list_scope.
Local Open Scope Z_scope.

(* ===================================================================== *)
(** * Part I: definitions *)
(* ===================================================================== *)

(** ** JavaScript primitives used by the composable *)

Module Js.

(** Outcome of a piece of code that may throw. *)
Inductive completion (A : Type) : Type :=
| Normal (a : A)
| Throw (message : string).
Arguments Normal {A} a.
Arguments Throw {A} message.

Definition bind {A B} (c : completion A) (k : A -> completion B)
  : completion B :=
  match c with
  | Normal a => k a
  | Throw m => Throw m
  end.

(** The message of the [TypeError] raised by a property access or a method
    call on [undefined]; its exact wording is the engine's. *)
Definition undefined_access : string := "TypeError: undefined".

(** [Math.ceil(a / b)] on integers, [b <> 0]. [Z.div] rounds down for
    both signs of the divisor, so the ceiling of the real quotient is
    [- ((- a) / b)]. Only its sign matters when [a] is not a count. *)
Definition ceil_div (a b : Z) : Z := - ((- a) / b).

(** An array that may have holes: a hole, like an index past the end,
    reads [undefined]. *)
Definition array (A : Type) : Type := list (option A).

(** [a[i]]: [None] is [undefined]. *)
Definition get {A} (a : array A) (i : nat) : option A :=
  match nth_error a i with
  | Some (Some x) => Some x
  | _ => None
  end.

(** [a[i] = x]: overwrites inside the array, extends it otherwise, leaving
    holes between the old end and [i]. *)
Definition set {A} (a : array A) (i : nat) (x : A) : array A :=
  if (i <? List.length a)%nat
  then firstn i a ++ Some x :: skipn (S i) a
  else a ++ repeat None (i - List.length a) ++ [Some x].

(** [a[a.length - 1]]; index [-1] of an empty array reads [undefined]. *)
Definition get_last {A} (a : array A) : option A :=
  match List.length a with
  | O => None
  | S l => get a l
  end.

(** [s.replaceAll(pat, rep)] for a non-empty [pat] and a replacement
    without [$] patterns: occurrences are replaced from left to right and
    do not overlap. [skip] counts the characters of a matched occurrence
    still to be dropped. *)
Fixpoint replaceAll_from (pat rep : string) (skip : nat) (s : string)
  : string :=
  match s with
  | EmptyString => EmptyString
  | String c s' =>
      match skip with
      | S k => replaceAll_from pat rep k s'
      | O =>
          if String.prefix pat s
          then String.append rep
                 (replaceAll_from pat rep (String.length pat - 1) s')
          else String c (replaceAll_from pat rep O s')
      end
  end.

Definition replaceAll (s pat rep : string) : string :=
  replaceAll_from pat rep O s.

(** The character [c] does not occur in [s]. *)
Fixpoint free_of (c : ascii) (s : string) : bool :=
  match s with
  | EmptyString => true
  | String a s' => negb (Ascii.eqb a c) && free_of c s'
  end.

(** [Array.prototype.sort] with the comparator [(a, b) => a[0] - b[0]]:
    a stable sort by the first component, here by insertion. *)
Fixpoint insert_by_start (x : Z * Z) (l : list (Z * Z)) : list (Z * Z) :=
  match l with
  | [] => [x]
  | y :: l' =>
      if fst x <=? fst y then x :: l else y :: insert_by_start x l'
  end.

Fixpoint sort_by_start (l : list (Z * Z)) : list (Z * Z) :=
  match l with
  | [] => []
  | x :: l' => insert_by_start x (sort_by_start l')
  end.

End Js.

Notation "x <- c ;; k" := (Js.bind c (fun x => k))
  (at level 61, c at next level, right associativity).

(** ** Histogram interval ladder of [buildSearch] *)

Module Histogram.

(** [searchObj.meta.resultGrid], restricted to the two chart fields. *)
Record resultGrid : Type := mkGrid {
  chartInterval : string;
  chartKeyFormat : string
}.

Definition assign (cond : bool) (interval key : string) (g : resultGrid)
  : resultGrid :=
  if cond then mkGrid interval key else g.

(** The chain of [if] statements on
    [req.query.end_time - req.query.start_time], each assigning both
    fields when its threshold is met. *)
Definition select_chart (d : Z) : resultGrid :=
  let g := mkGrid "10 second" "HH:mm:ss" in
  let g := assign (d >=? 1000000 * 60 * 30) "15 second" "HH:mm:ss" g in
  let g := assign (d >=? 1000000 * 60 * 60) "30 second" "HH:mm:ss" g in
  let g := assign (d >=? 1000000 * 3600 * 2) "1 minute" "MM-DD HH:mm" g in
  let g := assign (d >=? 1000000 * 3600 * 6) "5 minute" "MM-DD HH:mm" g in
  let g := assign (d >=? 1000000 * 3600 * 24) "30 minute" "MM-DD HH:mm" g in
  let g := assign (d >=? 1000000 * 86400 * 7) "1 hour" "MM-DD HH:mm" g in
  let g := assign (d >=? 1000000 * 86400 * 30) "1 day" "YYYY-MM-DD" g in
  g.

(** [req.aggs.histogram] as first built, for the configured time stamp
    column. *)
Definition histogram_template (timestamp_column : string) : string :=
  String.append "select histogram("
    (String.append timestamp_column
       ", '[INTERVAL]') AS zo_sql_key, count(*) AS zo_sql_num from query GROUP BY zo_sql_key ORDER BY zo_sql_key").

(** What the time-range block of [buildSearch] leaves behind. *)
Record timing : Type := mkTiming {
  start_time : Z;
  end_time : Z;
  grid : resultGrid;
  histogram : string
}.

(** The time-range block of [buildSearch] for valid dates: [None] is the
    [return false] taken when the start time is after the end time. *)
Definition buildSearch_timing (timestamp_column : string)
  (startTime endTime : Z) : option timing :=
  if startTime >? endTime then None
  else
    let g := select_chart (endTime - startTime) in
    Some (mkTiming startTime endTime g
            (Js.replaceAll (histogram_template timestamp_column)
               "[INTERVAL]" (chartInterval g))).

(** The ladder as the specification tabulates it: threshold in
    microseconds, interval, key format, in ascending order. *)
Definition ladder : list (Z * resultGrid) :=
  [ (1800000000, mkGrid "15 second" "HH:mm:ss");
    (3600000000, mkGrid "30 second" "HH:mm:ss");
    (7200000000, mkGrid "1 minute" "MM-DD HH:mm");
    (21600000000, mkGrid "5 minute" "MM-DD HH:mm");
    (86400000000, mkGrid "30 minute" "MM-DD HH:mm");
    (604800000000, mkGrid "1 hour" "MM-DD HH:mm");
    (2592000000000, mkGrid "1 day" "YYYY-MM-DD") ].

(** The row of the largest threshold that [d] reaches, the default row
    when it reaches none. *)
Definition largest_satisfied (d : Z) : resultGrid :=
  match find (fun row => fst row <=? d) (rev ladder) with
  | Some row => snd row
  | None => mkGrid "10 second" "HH:mm:ss"
  end.

(** The rungs of the ladder written out as ranges of the duration. *)
Definition rung (d : Z) : resultGrid :=
  if d <? 1800000000 then mkGrid "10 second" "HH:mm:ss"
  else if d <? 3600000000 then mkGrid "15 second" "HH:mm:ss"
  else if d <? 7200000000 then mkGrid "30 second" "HH:mm:ss"
  else if d <? 21600000000 then mkGrid "1 minute" "MM-DD HH:mm"
  else if d <? 86400000000 then mkGrid "5 minute" "MM-DD HH:mm"
  else if d <? 604800000000 then mkGrid "30 minute" "MM-DD HH:mm"
  else if d <? 2592000000000 then mkGrid "1 hour" "MM-DD HH:mm"
  else mkGrid "1 day" "YYYY-MM-DD".

End Histogram.

(** ** The pagination plan: [refreshPartitionPagination] *)

Module Planner.

(** An entry of a logical page: [{startTime, endTime, from, size}]. *)
Record PageSlice : Type := mkSlice {
  startTime : Z;
  endTime : Z;
  from : Z;
  size : Z
}.

Definition Page : Type := list PageSlice.

(** A backend partition [[start, end]]; [item[0]] is [fst], [item[1]] is
    [snd]. *)
Definition Partition : Type := (Z * Z)%type.

(** [searchObj.data.queryResults.partitionDetail]. *)
Record PartitionDetail : Type := mkDetail {
  partitions : list Partition;
  partitionTotal : list Z;
  paginations : Js.array Page
}.

(** The closure variables that survive from one partition to the next:
    the plan under construction and [pageNumber]. *)
Record walk : Type := mkWalk {
  pages : Js.array Page;
  pageNumber : nat
}.

(** [page.forEach((item) => { lastPartitionSize += item.size })] from
    [lastPartitionSize = 0]. *)
Definition page_size_sum (p : Page) : Z :=
  fold_left (fun acc item => acc + size item) p 0.

(** The sizes of [paginations[paginations.length - 1]] added up; the
    [forEach] throws when that entry is [undefined]. *)
Definition last_page_size (pgs : Js.array Page) : Js.completion Z :=
  match Js.get_last pgs with
  | Some p => Js.Normal (page_size_sum p)
  | None => Js.Throw Js.undefined_access
  end.

(** [if (!paginations[pageNumber]) paginations[pageNumber] = []]; an
    array, even an empty one, is truthy. *)
Definition ensure_page (pgs : Js.array Page) (n : nat) : Js.array Page :=
  match Js.get pgs n with
  | Some _ => pgs
  | None => Js.set pgs n []
  end.

(** [paginations[pageNumber].push(slice)]. *)
Definition push_slice (pgs : Js.array Page) (n : nat) (s : PageSlice)
  : Js.completion (Js.array Page) :=
  match Js.get pgs n with
  | Some p => Js.Normal (Js.set pgs n (p ++ [s]))
  | None => Js.Throw Js.undefined_access
  end.

(** One turn of [for (let i = 0; i < totalPages; i++)]. The result holds
    the walk, the new [partitionFrom] and whether the turn ended in
    [return true]. *)
Definition slice_iteration (rowsPerPage currentPage : Z) (item : Partition)
  (total totalPages i : Z) (w : walk) (partitionFrom : Z)
  : Js.completion (walk * Z * bool) :=
  let recordSize :=
    if i =? totalPages - 1
    then (if total - partitionFrom =? 0 then rowsPerPage
          else total - partitionFrom)
    else rowsPerPage in
  let from := partitionFrom in
  sizes <-
    (if (0 <? pageNumber w)%nat
     then
       lastPartitionSize <- last_page_size (pages w) ;;
       Js.Normal
         (lastPartitionSize,
          if negb (lastPartitionSize =? rowsPerPage)
          then rowsPerPage - lastPartitionSize
          else recordSize)
     else Js.Normal (0, recordSize)) ;;
  let lastPartitionSize := fst sizes in
  let recordSize := snd sizes in
  let pgs := ensure_page (pages w) (pageNumber w) in
  pgs <- push_slice pgs (pageNumber w)
           (mkSlice (fst item) (snd item) from
              (Z.min recordSize rowsPerPage)) ;;
  let partitionFrom := partitionFrom + recordSize in
  let pageNumber :=
    if (recordSize =? rowsPerPage)
       || (lastPartitionSize + recordSize =? rowsPerPage)
    then S (pageNumber w) else pageNumber w in
  Js.Normal
    (mkWalk pgs pageNumber, partitionFrom,
     Z.of_nat (List.length pgs) >? currentPage + 10).

(** The [for] loop with [n] turns left, the next one for index [i]; a
    [return true] inside it leaves the callback, hence the loop. *)
Fixpoint slice_loop (rowsPerPage currentPage : Z) (item : Partition)
  (total totalPages : Z) (n : nat) (i : Z) (w : walk) (partitionFrom : Z)
  : Js.completion walk :=
  match n with
  | O => Js.Normal w
  | S n' =>
      r <- slice_iteration rowsPerPage currentPage item total totalPages
             i w partitionFrom ;;
      let '(w', partitionFrom', stop) := r in
      if stop then Js.Normal w'
      else slice_loop rowsPerPage currentPage item total totalPages
             n' (i + 1) w' partitionFrom'
  end.

(** The [else] branch, taken when [totalPages > 0] is false: one slice
    from [0] that closes the page. *)
Definition provisional_slice (rowsPerPage : Z) (item : Partition)
  (w : walk) : Js.completion walk :=
  lastPartitionSize <- last_page_size (pages w) ;;
  let recordSize :=
    if negb (lastPartitionSize =? rowsPerPage)
    then rowsPerPage - lastPartitionSize
    else rowsPerPage in
  pgs <- push_slice (pages w) (pageNumber w)
           (mkSlice (fst item) (snd item) 0 recordSize) ;;
  Js.Normal (mkWalk pgs (S (pageNumber w))).

(** The callback of [partitions.forEach]. [total] is
    [partitionTotal[index]], [None] when that reads [undefined]:
    [Math.ceil(undefined / rowsPerPage)] is [NaN] and [NaN > 0] is false.
    The [return true] statements end the callback only, so nothing of them
    shows in its result. The page size is taken to be other than [0]: for
    [rowsPerPage = 0] the quotient [total / rowsPerPage] is infinite or
    [NaN], which [Js.ceil_div] does not render. *)
Definition partition_callback (rowsPerPage currentPage : Z)
  (item : Partition) (total : option Z) (w : walk) : Js.completion walk :=
  let w := mkWalk (ensure_page (pages w) (pageNumber w)) (pageNumber w) in
  match total with
  | Some t =>
      let totalPages := Js.ceil_div t rowsPerPage in
      if totalPages >? 0
      then slice_loop rowsPerPage currentPage item t totalPages
             (Z.to_nat totalPages) 0 w 0
      else provisional_slice rowsPerPage item w
  | None => provisional_slice rowsPerPage item w
  end.

(** [partitions.forEach((item, index) => ...)] from [index] on. *)
Fixpoint forEach_partition (rowsPerPage currentPage : Z)
  (totals : list Z) (index : nat) (items : list Partition) (w : walk)
  : Js.completion walk :=
  match items with
  | [] => Js.Normal w
  | item :: rest =>
      w' <- partition_callback rowsPerPage currentPage item
              (nth_error totals index) w ;;
      forEach_partition rowsPerPage currentPage totals (S index) rest w'
  end.

(** The rebuild proper: the plan is emptied and refilled. A throw would
    leave the plan half built; none occurs (lemma [rebuild_returns]). *)
Definition rebuild (rowsPerPage currentPage : Z)
  (parts : list Partition) (totals : list Z)
  : Js.completion (Js.array Page) :=
  w <- forEach_partition rowsPerPage currentPage totals O parts
         (mkWalk [] O) ;;
  Js.Normal (pages w).

(** [refreshPartitionPagination]: the plan is rebuilt only while it has at
    most [currentPage + 3] pages. *)
Definition refreshPartitionPagination (rowsPerPage currentPage : Z)
  (pd : PartitionDetail) : Js.completion PartitionDetail :=
  if Z.of_nat (List.length (paginations pd)) <=? currentPage + 3
  then
    pgs <- rebuild rowsPerPage currentPage (partitions pd)
             (partitionTotal pd) ;;
    Js.Normal (mkDetail (partitions pd) (partitionTotal pd) pgs)
  else Js.Normal pd.

(** The plan that [getQueryPartitions] stores: one page per partition
    with one slice from [0] of [rowsPerPage] records, and [-1] for every
    total. *)
Definition initial_detail (rowsPerPage : Z) (sorted : list Partition)
  : PartitionDetail :=
  mkDetail sorted
    (map (fun _ => -1) sorted)
    (map (fun item =>
            Some [mkSlice (fst item) (snd item) 0 rowsPerPage]) sorted).

(** *** The inputs on which the walk completes every page *)

(** Records counted by a list of totals. *)
Definition records_of (totals : list Z) : Z := fold_right Z.add 0 totals.

(** [fits rowsPerPage placed totals]: with [placed] records planned so
    far, every total of [totals] is positive and every partition but the
    very first one
    - either still shares the first page: with it that page stays
      incomplete, or is exactly completed by the last partition of all;
    - or starts after at least one complete page, holds at least the
      records still missing on the page open at its start (a whole page
      when none is open), and spreads over as many pages as
      [ceil(total / rowsPerPage)] counts. *)
Fixpoint fits (rowsPerPage placed : Z) (totals : list Z) : bool :=
  match totals with
  | [] => true
  | total :: rest =>
      (0 <? total)
      && ((placed =? 0)
          || (placed + total <? rowsPerPage)
          || ((placed + total =? rowsPerPage)
              && match rest with [] => true | _ :: _ => false end)
          || ((rowsPerPage <=? placed)
              && (rowsPerPage - placed mod rowsPerPage <=? total)
              && (Js.ceil_div (placed mod rowsPerPage + total) rowsPerPage
                  =? Js.ceil_div total rowsPerPage)))
      && fits rowsPerPage (placed + total) rest
  end.

(** The partitions do not overlap and come in ascending order. *)
Definition disjoint_ascending (parts : list Partition) : Prop :=
  Forall (fun item => fst item < snd item) parts
  /\ StronglySorted (fun a b => snd a <= fst b) parts.

(** A known total of [0] read as the sentinel. *)
Definition as_unknown (total : Z) : Z := if total =? 0 then -1 else total.

(** Ascending by start. *)
Definition by_start (a b : Partition) : Prop := fst a <= fst b.

(** No hole and no page number past the end. *)
Definition solid (w : walk) : Prop :=
  exists pl, pages w = map Some pl /\ (pageNumber w <= List.length pl)%nat.

(** The state of the walk once [placed] records are planned: [cl] are
    the closed pages, of [rowsPerPage] records each, [tail] is the open
    page if there is one, and [Q] holds of every slice. *)
Definition planned (rowsPerPage : Z) (Q : PageSlice -> Prop) (placed : Z)
  (w : walk) : Prop :=
  exists cl tail,
    pages w = map Some (cl ++ tail)
    /\ pageNumber w = List.length cl
    /\ Forall (fun p => page_size_sum p = rowsPerPage) cl
    /\ Forall (Forall Q) (cl ++ tail)
    /\ ((tail = [] /\ placed = Z.of_nat (List.length cl) * rowsPerPage)
        \/ (exists o,
               tail = [o]
               /\ 0 < page_size_sum o < rowsPerPage
               /\ placed
                  = Z.of_nat (List.length cl) * rowsPerPage
                    + page_size_sum o)).

(** The state at the end of the walk: as above, or the first page
    exactly completed by partitions that shared it, which the walk leaves
    open. *)
Definition planned_end (rowsPerPage : Z) (Q : PageSlice -> Prop)
  (placed : Z) (w : walk) : Prop :=
  planned rowsPerPage Q placed w
  \/ (exists o,
         pages w = map Some [o]
         /\ Forall Q o
         /\ page_size_sum o = rowsPerPage
         /\ placed = rowsPerPage).

End Planner.

(** ** The slice executor: [getQueryPartitions], [getPaginatedData],
       [getHistogramQueryData] *)

Module Executor.

(** A log record; only its time stamp is ever inspected. *)
Record Hit : Type := mkHit {
  _timestamp : Z;
  source : string
}.

(** Histogram buckets [(zo_sql_key, zo_sql_num)]. *)
Definition Aggs : Type := list (string * Z).

(** [res.data] of the search service:
    [{hits, total, from, size, scan_size, took, aggs?, function_error?}]. *)
Record SearchData : Type := mkData {
  d_hits : list Hit;
  d_total : Z;
  d_from : Z;
  d_size : Z;
  d_scan_size : Z;
  d_took : Z;
  d_aggs : option Aggs;
  d_function_error : option string
}.

(** [res.data] of the partition service. *)
Record PartitionData : Type := mkPartitionData {
  records : Z;
  res_partitions : list Planner.Partition
}.

(** The rejection value of a fetch: [err.response] is absent on a
    transport failure, and so is then the backend code. *)
Record ErrorData : Type := mkErrorData {
  error : string;
  code : option Z
}.

Record FetchError : Type := mkError {
  response : option ErrorData;
  message : string
}.

(** What the service answers to one request. *)
Inductive outcome : Type :=
| Resolved (res : SearchData)
| Rejected (err : FetchError).

(** [queryReq.query]; [track_total_hits] is an own property only when it
    is [Some]. *)
Record Query : Type := mkQuery {
  sql : string;
  start_time : Z;
  end_time : Z;
  from : Z;
  size : Z;
  track_total_hits : option bool
}.

(** [searchObj.data.queryResults]; an absent property is [None]. The
    partition detail is present from [getQueryPartitions] on. *)
Record QueryResults : Type := mkResults {
  hits : option (list Hit);
  total : option Z;
  r_from : option Z;
  r_size : option Z;
  scan_size : option Z;
  took : option Z;
  aggs : option Aggs;
  function_error : option string;
  partitionDetail : Planner.PartitionDetail;
  subpage : nat
}.

(** The fields of [searchObj] that the executor reads or writes;
    [onLogsRoute] is [router.currentRoute.value.name == "logs"]. *)
Record SearchObj : Type := mkSearch {
  loading : bool;
  loadingHistogram : bool;
  errorMsg : string;
  errorCode : option Z;
  functionError : string;
  rowsPerPage : Z;
  currentPage : Z;
  refreshInterval : Z;
  onLogsRoute : bool;
  showHistogram : bool;
  sqlMode : bool;
  queryResults : QueryResults
}.

Definition with_results (st : SearchObj) (r : QueryResults) : SearchObj :=
  mkSearch (loading st) (loadingHistogram st) (errorMsg st) (errorCode st)
    (functionError st) (rowsPerPage st) (currentPage st)
    (refreshInterval st) (onLogsRoute st) (showHistogram st) (sqlMode st) r.

Definition with_detail (r : QueryResults) (pd : Planner.PartitionDetail)
  : QueryResults :=
  mkResults (hits r) (total r) (r_from r) (r_size r) (scan_size r) (took r)
    (aggs r) (function_error r) pd (subpage r).

Definition with_subpage (r : QueryResults) (n : nat) : QueryResults :=
  mkResults (hits r) (total r) (r_from r) (r_size r) (scan_size r) (took r)
    (aggs r) (function_error r) (partitionDetail r) n.

Definition with_track (q : Query) (flag : option bool) : Query :=
  mkQuery (sql q) (start_time q) (end_time q) (from q) (size q) flag.

(** [l[i]] for an index computed in numbers: negative ones read
    [undefined]. *)
Definition index {A} (l : list A) (i : Z) : option A :=
  if i <? 0 then None else nth_error l (Z.to_nat i).

(** *** [getQueryPartitions] *)

(** The [then] handler of the partition request. *)
Definition getQueryPartitions_then (st : SearchObj) (res : PartitionData)
  : SearchObj :=
  let r := queryResults st in
  let partitions := Js.sort_by_start (res_partitions res) in
  with_results st
    (mkResults (hits r) (Some (records res)) (r_from r) (r_size r)
       (scan_size r) (took r) (aggs r) (function_error r)
       (Planner.initial_detail (rowsPerPage st) partitions) (subpage r)).

(** *** [getHistogramQueryData] *)




Section Environment.

(** [t] of the i18n plugin and [logsErrorMessage] of [utils/common]:
    the message key of a backend code, the empty string when the code has
    no entry. *)
Variable t : string -> string.
Variable logsErrorMessage : option Z -> string.

(** [err?.response?.data.code]. *)
Definition error_code (err : FetchError) : option Z :=
  match response err with
  | Some data => code data
  | None => None
  end.

(** The message that both [catch] handlers leave in [errorMsg]: the
    backend's [error] string, or [err.message] when there is no response,
    unless [logsErrorMessage] has a key for the code, which is then
    translated. *)
Definition error_message (err : FetchError) : string :=
  let raw :=
    match response err with
    | Some data => error data
    | None => message err
    end in
  let customMessage := logsErrorMessage (error_code err) in
  if String.eqb customMessage EmptyString then raw else t customMessage.

(** The [catch] handler of [getPaginatedData]. *)
Definition getPaginatedData_catch (st : SearchObj) (err : FetchError)
  : SearchObj :=
  mkSearch false (loadingHistogram st) (error_message err) (error_code err)
    (functionError st) (rowsPerPage st) (currentPage st)
    (refreshInterval st) (onLogsRoute st) (showHistogram st) (sqlMode st)
    (queryResults st).

(** The [catch] handler of [getHistogramQueryData]. *)
Definition getHistogramQueryData_catch (st : SearchObj) (err : FetchError)
  : SearchObj :=
  mkSearch (loading st) false (error_message err) (error_code err)
    (functionError st) (rowsPerPage st) (currentPage st)
    (refreshInterval st) (onLogsRoute st) (showHistogram st) (sqlMode st)
    (queryResults st).

(** *** [getPaginatedData] *)

(** The synchronous head of [getPaginatedData]: the flag is decided by
    [partitionTotal[currentPage - 1]]. When that entry is [undefined]
    neither comparison holds and the request is left as it came. *)
Definition prepare_query (st : SearchObj) (q : Query) : Query :=
  match index (Planner.partitionTotal (partitionDetail (queryResults st)))
          (currentPage st - 1) with
  | Some total =>
      if total =? -1 then with_track q (Some true)
      else
        match track_total_hits q with
        | Some _ => if total >? -1 then with_track q None else q
        | None => q
        end
  | None => q
  end.

(** The [forEach] at the head of the [then] handler: every partition
    whose total is still [-1] and whose start is the request's start
    takes [res.data.total], and the plan is refreshed each time. *)
Fixpoint update_totals (rowsPerPage currentPage start res_total : Z)
  (i : nat) (items : list Planner.Partition) (pd : Planner.PartitionDetail)
  : Js.completion Planner.PartitionDetail :=
  match items with
  | [] => Js.Normal pd
  | item :: rest =>
      match nth_error (Planner.partitionTotal pd) i with
      | Some total =>
          if (total =? -1) && (start =? fst item)
          then
            pd' <- Planner.refreshPartitionPagination rowsPerPage currentPage
                     (Planner.mkDetail (Planner.partitions pd)
                        (firstn i (Planner.partitionTotal pd)
                           ++ res_total
                           :: skipn (S i) (Planner.partitionTotal pd))
                        (Planner.paginations pd)) ;;
            update_totals rowsPerPage currentPage start res_total
              (S i) rest pd'
          else update_totals rowsPerPage currentPage start res_total
                 (S i) rest pd
      | None => update_totals rowsPerPage currentPage start res_total
                  (S i) rest pd
      end
  end.

(** Live refresh is on: [refreshInterval > 0], the logs route, and hits
    already shown. *)
Definition live_refresh (st : SearchObj) : bool :=
  (refreshInterval st >? 0) && onLogsRoute st
  && match hits (queryResults st) with
     | Some (_ :: _) => true
     | _ => false
     end.

(** The accumulation block: [if (res.data.from > 0) ... else ...]. The
    only statement that can throw is [hits.push] on absent hits, after
    the three assignments before it. *)
Definition accumulate (st : SearchObj) (q : Query) (appendResult : bool)
  (res : SearchData) : SearchObj * Js.completion unit :=
  let r := queryResults st in
  if d_from res >? 0 then
    let r1 :=
      mkResults (hits r) (total r) (Some (d_from res)) (r_size r)
        (Some (d_scan_size res)) (Some (d_took res)) (aggs r)
        (function_error r) (partitionDetail r) (subpage r) in
    if appendResult then
      match hits r with
      | Some old =>
          (with_results st
             (mkResults (Some (old ++ d_hits res)) (total r1) (r_from r1)
                (r_size r1) (scan_size r1) (took r1) (aggs r1)
                (function_error r1) (partitionDetail r1) (subpage r1)),
           Js.Normal tt)
      | None => (with_results st r1, Js.Throw Js.undefined_access)
      end
    else
      (with_results st
         (mkResults (Some (d_hits res)) (total r1) (r_from r1)
            (r_size r1) (scan_size r1) (took r1) (aggs r1)
            (function_error r1) (partitionDetail r1) (subpage r1)),
       Js.Normal tt)
  else if live_refresh st then
    (with_results st
       (mkResults (Some (d_hits res)) (total r) (Some (d_from res))
          (r_size r) (Some (d_scan_size res)) (Some (d_took res))
          (d_aggs res) (function_error r) (partitionDetail r) (subpage r)),
     Js.Normal tt)
  else
    (* [{...queryResults, ...res.data}], [total] deleted from [res.data]
       first when the request has no [track_total_hits] property *)
    (with_results st
       (mkResults (Some (d_hits res))
          (match track_total_hits q with
           | Some _ => Some (d_total res)
           | None => total r
           end)
          (Some (d_from res)) (Some (d_size res))
          (Some (d_scan_size res)) (Some (d_took res))
          (match d_aggs res with Some a => Some a | None => aggs r end)
          (match d_function_error res with
           | Some e => Some e
           | None => function_error r
           end)
          (partitionDetail r) (subpage r)),
     Js.Normal tt).

(** The next slice of the current page, if
    [paginations[currentPage - 1].length > subpage]: the request takes its
    four fields and [subpage] is incremented. Reading [length] of an
    [undefined] page throws. *)
Definition next_slice (st : SearchObj) (q : Query)
  : SearchObj * Js.completion (option Query) :=
  let r := queryResults st in
  let page :=
    if currentPage st - 1 <? 0 then None
    else Js.get (Planner.paginations (partitionDetail r))
           (Z.to_nat (currentPage st - 1)) in
  match page with
  | None => (st, Js.Throw Js.undefined_access)
  | Some page =>
      match nth_error page (subpage r) with
      | Some s =>
          (with_results st (with_subpage r (S (subpage r))),
           Js.Normal
             (Some (mkQuery (sql q) (Planner.startTime s)
                      (Planner.endTime s) (Planner.from s) (Planner.size s)
                      (track_total_hits q))))
      | None => (st, Js.Normal None)
      end
  end.

(** The error value of an exception thrown inside the [then] handler: it
    has no [response]. *)
Definition thrown (m : string) : FetchError := mkError None m.

(** The tail of the [then] handler, which runs once the nested call has
    issued its request. [getHistogramTitle] comes first and reads
    [queryResults.total.toLocaleString()]: while the total is absent it
    throws, the rest of the tail is skipped and the [catch] handler of
    the call takes over. Otherwise the function error is taken from the
    response, the histogram request is started when due (its synchronous
    part turns the histogram spinner on), and the spinner goes off. The
    field values, the extracted fields, the grid columns and the
    histogram title that the handler derives on the way are kept in parts
    of [searchObj] that are not modelled. *)
Definition finish (st : SearchObj) (res : SearchData) : SearchObj :=
  match total (queryResults st) with
  | None => getPaginatedData_catch st (thrown Js.undefined_access)
  | Some _ =>
      let fe :=
        match d_function_error res with
        | Some e => e
        | None => EmptyString
        end in
      let histogram_due :=
        (match aggs (queryResults st) with None => true | Some _ => false end
         || (currentPage st =? 1))
        && negb (loadingHistogram st) && showHistogram st
        && negb (sqlMode st) in
      mkSearch false (if histogram_due then true else loadingHistogram st)
        (errorMsg st) (errorCode st) fe (rowsPerPage st) (currentPage st)
        (refreshInterval st) (onLogsRoute st) (showHistogram st) (sqlMode st)
        (queryResults st)
  end.

(** The [then] handler up to the nested call. The rebuild inside
    [update_totals] returns on every input (lemma [rebuild_returns]), so
    the first [Throw] branch is there for the types only. *)
Definition getPaginatedData_then (st : SearchObj) (q : Query)
  (appendResult : bool) (res : SearchData)
  : SearchObj * Js.completion (option Query) :=
  let r := queryResults st in
  match update_totals (rowsPerPage st) (currentPage st) (start_time q)
          (d_total res) O (Planner.partitions (partitionDetail r))
          (partitionDetail r) with
  | Js.Throw m => (st, Js.Throw m)
  | Js.Normal pd =>
      let st1 := with_results st (with_detail r pd) in
      match accumulate st1 q appendResult res with
      | (st2, Js.Throw m) => (st2, Js.Throw m)
      | (st2, Js.Normal _) => next_slice st2 q
      end
  end.

(** [getPaginatedData] against the answers the service will give, one
    per request and in order. The result is the final [searchObj] and the
    requests issued, each as it was sent. An empty list of answers leaves
    the last request pending. [queryReq] is one object, mutated and passed
    on: the nested call starts from the request as the handler left it.
    The nested call is not awaited beyond its synchronous head, so the
    tail of the handler ([finish]) runs before the nested answer arrives;
    the head reads the totals and the current page only, which [finish]
    leaves alone. The histogram request runs on its own and is modelled
    by [getHistogramQueryData_then]. *)
Fixpoint getPaginatedData (answers : list outcome) (st : SearchObj)
  (q : Query) (appendResult : bool) : SearchObj * list Query :=
  let q := prepare_query st q in
  match answers with
  | [] => (st, [q])
  | Rejected err :: _ => (getPaginatedData_catch st err, [q])
  | Resolved res :: rest =>
      match getPaginatedData_then st q appendResult res with
      | (st', Js.Throw m) => (getPaginatedData_catch st' (thrown m), [q])
      | (st', Js.Normal None) => (finish st' res, [q])
      | (st', Js.Normal (Some q')) =>
          let (st'', sent) := getPaginatedData rest (finish st' res) q' true in
          (st'', q :: sent)
      end
  end.

(** The tail of [getQueryData]: the error code is reset, the request
    takes the fields of the first slice of the current page, [subpage]
    becomes [1] and the executor starts. A missing page or first slice
    throws inside the [try] block, whose [catch] clears the spinner and
    shows a notification. *)
Definition getQueryData_page (answers : list outcome) (st : SearchObj)
  (q : Query) : SearchObj * list Query :=
  let r := queryResults st in
  let page :=
    if currentPage st - 1 <? 0 then None
    else Js.get (Planner.paginations (partitionDetail r))
           (Z.to_nat (currentPage st - 1)) in
  match page with
  | Some (s :: _) =>
      getPaginatedData answers
        (mkSearch (loading st) (loadingHistogram st) (errorMsg st) (Some 0)
           (functionError st) (rowsPerPage st) (currentPage st)
           (refreshInterval st) (onLogsRoute st) (showHistogram st)
           (sqlMode st) (with_subpage r 1%nat))
        (mkQuery (sql q) (Planner.startTime s) (Planner.endTime s)
           (Planner.from s) (Planner.size s) (track_total_hits q))
        false
  | _ =>
      (mkSearch false (loadingHistogram st) (errorMsg st) (Some 0)
         (functionError st) (rowsPerPage st) (currentPage st)
         (refreshInterval st) (onLogsRoute st) (showHistogram st)
         (sqlMode st) r, [])
  end.

End Environment.

(** An environment to run the model in: a message table with a single
    entry, and a translation that returns the key it is given. *)
Definition sample_logsErrorMessage (code : option Z) : string :=
  match code with
  | Some 20002 => "message.searchStreamNotFound"
  | _ => EmptyString
  end.

Definition sample_t (key : string) : string := key.

(** A fresh [searchObj] on the logs page: 250 rows per page, page 1, no
    live refresh, histogram off, nothing fetched yet. *)
Definition fresh : SearchObj :=
  mkSearch true false EmptyString (Some 0) EmptyString 250 1 0 true false
    false
    (mkResults None None None None None None None None
       (Planner.mkDetail [] [] []) O).

End Executor.

(* ===================================================================== *)
(** * Part I, continued: further parts of the composable *)
(* ===================================================================== *)

(** ** Shapes used to state what the walk keeps *)

Module PlanShape.
Import Planner.

(** A plan without holes whose [pageNumber] is its last page or the one
    to open next. *)
Definition tight (w : walk) (pl : list Page) : Prop :=
  pages w = map Some pl
  /\ (pageNumber w <= List.length pl <= S (pageNumber w))%nat.

(** The slices that one partition contributes: at least one, all over
    the partition's span, the first one from [0]. *)
Definition group_of (item : Partition) (g : list PageSlice) : Prop :=
  Forall (fun s => startTime s = fst item /\ endTime s = snd item) g
  /\ exists s g', g = s :: g' /\ from s = 0.

(** Every slice of the plan spans one partition of the list. *)
Definition covers (parts : list Partition) (pgs : Js.array Page) : bool :=
  forallb
    (fun page =>
       match page with
       | Some page =>
           forallb
             (fun s =>
                existsb
                  (fun item =>
                     (fst item =? startTime s) && (snd item =? endTime s))
                  parts)
             page
       | None => true
       end)
    pgs.

End PlanShape.

(** ** The fill of the plan under construction *)

(** What decides how the walk treats the next partition: whether it is
    still on the first page, how many records the page it stands on
    holds, and how many pages there are. *)
Module Roomy.
Import Planner.

Record fill : Type := mkFill {
  first_page : bool;
  held : Z;
  page_count : Z
}.

(** Before the first partition. *)
Definition start : fill := mkFill true 0 0.

(** The page count once the callback has made sure that the page it
    stands on exists. *)
Definition entered (f : fill) : Z :=
  if (if first_page f then 1 <=? page_count f else 0 <? held f)
  then page_count f else page_count f + 1.

(** The fill after [turns] further turns of the loop that start on a new
    page each, the last of them due to take [last] records: the
    look-ahead may end the loop before, on a closed page; a last slice of
    less than a page leaves the page open, one of more is cut to a page
    that stays open. *)
Definition rest (R cp : Z) (pages_so_far turns last : Z) : fill :=
  let done := Z.min turns (cp + 11 - pages_so_far) in
  if done <? turns then mkFill false 0 (pages_so_far + done)
  else mkFill false
         (if last <? R then last else if last =? R then 0 else R)
         (pages_so_far + turns).

(** The fill after a partition of known total [total], or of unknown
    total when [total < 0]; [None] when one of its slices leaves the
    partition:
    - a total of [0] gets a slice all the same;
    - on the first page no slice is topped off, so a partition of less
      than a page is added to it, whatever it holds; one of a page or
      more closes it, and its second slice is topped off against the
      first page, which must then hold nothing else;
    - after the first page the first slice takes what the page lacks,
      and the partition must have as much;
    - a page that holds exactly [rowsPerPage] records and is still open
      is not topped off: a partition of less than a page is added to it,
      one of more closes it and its second slice is topped off against
      it;
    - a page that holds more than [rowsPerPage] is topped off by a
      negative number of records.
    The look-ahead ends the loop after the first slice once there are
    more than [currentPage + 10] pages, and the second slice is then
    never built. *)
Definition after (R cp : Z) (f : fill) (total : Z) : option fill :=
  let pages_now := entered f in
  let closed := mkFill false 0 pages_now in
  if total <? 0 then Some closed
  else if total =? 0 then None
  else
    let totalPages := Js.ceil_div total R in
    let one_slice := (cp + 10 <? pages_now) || (totalPages =? 1) in
    if first_page f then
      if total <? R then Some (mkFill true (held f + total) pages_now)
      else if one_slice then Some closed
      else if held f =? 0
           then Some (rest R cp pages_now (totalPages - 1)
                        (total - (totalPages - 1) * R))
           else None
    else if held f <? R then
      if total <? R - held f then None
      else if one_slice then Some closed
      else Some (rest R cp pages_now (totalPages - 1)
                   (total - (totalPages - 1) * R + held f))
    else if held f =? R then
      if total <? R then Some (mkFill false (R + total) pages_now)
      else if one_slice then Some closed
      else None
    else None.

(** Every partition of the list keeps its slices within itself. *)
Fixpoint roomy (R cp : Z) (f : fill) (totals : list Z) : bool :=
  match totals with
  | [] => true
  | total :: rest =>
      match after R cp f total with
      | Some f' => roomy R cp f' rest
      | None => false
      end
  end.

(** A slice within a partition of [T] records. *)
Definition inside (T : Z) (s : PageSlice) : Prop :=
  0 <= from s /\ 0 < size s /\ from s + size s <= T.

(** The walk [w] has the fill [f], and [Q] holds of every slice. *)
Definition filled (Q : PageSlice -> Prop) (f : fill) (w : walk) : Prop :=
  exists pl,
    pages w = map Some pl
    /\ Forall (Forall Q) pl
    /\ page_count f = Z.of_nat (List.length pl)
    /\ 0 <= held f
    /\ if first_page f
       then pageNumber w = O
            /\ ((pl = [] /\ held f = 0)
                \/ exists o, pl = [o] /\ page_size_sum o = held f)
       else (1 <= pageNumber w)%nat
            /\ ((held f = 0 /\ List.length pl = pageNumber w)
                \/ (0 < held f
                    /\ exists cl o,
                         pl = cl ++ [o]
                         /\ List.length cl = pageNumber w
                         /\ page_size_sum o = held f)).

End Roomy.

(** ** What the executor is expected to keep *)

Module ExecutorShape.
Import Executor.

(** The totals after the [forEach] at the head of the [then] handler, as
    a map over the partitions: an entry still at [-1] whose partition
    starts where the request starts takes the response's total, every
    other entry stays. *)
Fixpoint stored_totals (start res_total : Z)
  (items : list Planner.Partition) (totals : list Z) : list Z :=
  match items, totals with
  | item :: items', total :: totals' =>
      (if (total =? -1) && (start =? fst item) then res_total else total)
      :: stored_totals start res_total items' totals'
  | _, _ => totals
  end.

(** [st'] has the page, the page size, the partitions and the known
    totals of [st]. *)
Definition keeps (st st' : SearchObj) : Prop :=
  currentPage st' = currentPage st
  /\ rowsPerPage st' = rowsPerPage st
  /\ Planner.partitions (partitionDetail (queryResults st'))
     = Planner.partitions (partitionDetail (queryResults st))
  /\ List.length (Planner.partitionTotal (partitionDetail (queryResults st')))
     = List.length (Planner.partitionTotal (partitionDetail (queryResults st)))
  /\ forall i total,
      nth_error (Planner.partitionTotal (partitionDetail (queryResults st))) i
      = Some total ->
      total <> -1 ->
      nth_error (Planner.partitionTotal (partitionDetail (queryResults st'))) i
      = Some total.

End ExecutorShape.

(** ** Streams and fields *)

(** [Array.prototype.includes] and [Set.prototype.has] on strings. *)
Module JsArray.

Definition includes (l : list string) (k : string) : bool :=
  existsb (String.eqb k) l.

End JsArray.

(** *** [loadStreamLists] *)

Module Streams.

(** An entry of [streamResults.list]: its name, [stats.doc_time_max],
    its schema as [(name, type)] pairs, and
    [settings.full_text_search_keys]. *)
Record Stream : Type := mkStream {
  name : string;
  doc_time_max : Z;
  schema : list (string * string);
  full_text_search_keys : list string
}.

(** An entry of the stream selector. *)
Record StreamOption : Type := mkOption {
  label : string;
  value : string
}.

Definition no_option : StreamOption := mkOption EmptyString EmptyString.

Definition option_of (item : Stream) : StreamOption :=
  mkOption (name item) (name item).

(** [router.currentRoute.value?.query?.stream] is [None] when the URL
    has no such parameter. [!stream] holds of an absent and of an empty
    one; [stream == item.name] holds of no absent one. *)
Definition falsy (stream : option string) : bool :=
  match stream with
  | None => true
  | Some s => String.eqb s EmptyString
  end.

Definition loose_eq (stream : option string) (n : string) : bool :=
  match stream with
  | None => false
  | Some s => String.eqb s n
  end.

(** The locals of [loadStreamLists] and the list it fills. *)
Record Selection : Type := mkSelection {
  streamLists : list StreamOption;
  lastUpdatedStreamTime : Z;
  selectedStream : StreamOption
}.

(** One turn of the [forEach]. *)
Definition select_step (stream : option string) (acc : Selection)
  (item : Stream) : Selection :=
  let itemObj := option_of item in
  let selected :=
    if loose_eq stream (name item) then itemObj else selectedStream acc in
  if falsy stream && (doc_time_max item >=? lastUpdatedStreamTime acc)
  then mkSelection (streamLists acc ++ [itemObj]) (doc_time_max item) itemObj
  else mkSelection (streamLists acc ++ [itemObj])
         (lastUpdatedStreamTime acc) selected.

(** What [loadStreamLists] reads and writes of [searchObj]. *)
Record StreamState : Type := mkStreamState {
  s_streamLists : list StreamOption;
  s_selectedStream : StreamOption;
  s_errorMsg : string
}.

Definition loadStreamLists (stream : option string)
  (streams : list Stream) (st : StreamState) : StreamState :=
  match streams with
  | [] =>
      mkStreamState (s_streamLists st) (s_selectedStream st)
        "No stream found in selected organization!"
  | _ :: _ =>
      let r := fold_left (select_step stream) streams
                 (mkSelection [] 0 no_option) in
      mkStreamState (streamLists r) (selectedStream r) (s_errorMsg st)
  end.

End Streams.

(** *** [extractFields], [extractFTSFields] *)

Module Fields.
Import Streams.

(** An entry of [selectedStreamFields]. *)
Record Field : Type := mkField {
  f_name : string;
  ftsKey : bool;
  isSchemaField : bool;
  showValues : bool
}.

(** A hit is seen through [Object.keys] only: the list of its keys. *)
Definition Record_keys : Type := list string.

(** The [reduce] that finds [maxAttributesIndex]: [array] is the whole
    list, [maxIndex] the accumulator and [currentIndex] the position of
    the head of [hits]. *)
Fixpoint reduce_max (array hits : list Record_keys)
  (maxIndex currentIndex : nat) : nat :=
  match hits with
  | [] => maxIndex
  | obj :: rest =>
      let numAttributes := List.length obj in
      let maxNumAttributes := List.length (nth maxIndex array []) in
      reduce_max array rest
        (if (maxNumAttributes <? numAttributes)%nat
         then currentIndex else maxIndex)
        (S currentIndex)
  end.

Definition maxAttributesIndex (hits : list Record_keys) : nat :=
  reduce_max hits hits O O.

(** The locals filled by the scan of [streamResults.list]: the two sets
    stay [undefined] until a stream matches. *)
Record Scan : Type := mkScan {
  queryResult : list (string * string);
  sets : option (list string * list string)
}.

Definition scan_step (selected : string) (acc : Scan) (stream : Stream)
  : Scan :=
  if String.eqb selected (name stream)
  then mkScan (queryResult acc ++ schema stream)
         (Some (full_text_search_keys stream, map fst (schema stream)))
  else acc.

Section Environment.

(** [inherited k]: an empty object literal already answers [k], as it
    does for the properties of [Object.prototype]; [fields[k] ==
    undefined] is then false from the start. *)
Variable inherited : string -> bool.
Variable timestamp_column : string.

(** The last [forEach]: [fields] holds the names seen. The first row
    that is new makes [ftsKeys.has] throw when no stream has matched;
    the enclosing [try] swallows it and what was pushed stays. *)
Fixpoint collect (sets : option (list string * list string))
  (rows : list (string * string)) (fields : list string)
  (out : list Field) : list Field :=
  match rows with
  | [] => out
  | row :: rest =>
      if inherited (fst row) || JsArray.includes fields (fst row)
      then collect sets rest fields out
      else
        match sets with
        | None => out
        | Some (ftsKeys, schemaFields) =>
            collect sets rest (fst row :: fields)
              (out ++ [mkField (fst row)
                         (JsArray.includes ftsKeys (fst row))
                         (JsArray.includes schemaFields (fst row))
                         (negb (String.eqb (fst row) timestamp_column))])
        end
  end.

(** The rows added for the hit with the most keys. *)
Definition record_rows (tempFieldsName : list string)
  (hits : list Record_keys) : list (string * string) :=
  match hits with
  | [] => []
  | _ :: _ =>
      map (fun key => (key, "Utf8"))
        (filter (fun key => negb (JsArray.includes tempFieldsName key))
           (nth (maxAttributesIndex hits) hits []))
  end.

(** [extractFields]: the new value of [selectedStreamFields].
    [queryResults.hits] may be absent, and reading its [length] then
    throws inside the [try]. *)
Definition extractFields (streams : list Stream) (selected : string)
  (hits : option (list Record_keys)) : list Field :=
  match streams with
  | [] => []
  | _ :: _ =>
      let sc := fold_left (scan_step selected) streams (mkScan [] None) in
      let tempFieldsName := map fst (queryResult sc) in
      match hits with
      | None => []
      | Some hits =>
          collect (sets sc)
            (queryResult sc ++ record_rows tempFieldsName hits) [] []
      end
  end.

End Environment.

(** [extractFTSFields]: the new value of [ftsFields]. *)
Definition extractFTSFields (default_fts_keys : list string)
  (selectedStreamFields : list Field) (ftsFields : list string)
  : list string :=
  let ftsFields :=
    match selectedStreamFields with
    | [] => ftsFields
    | _ :: _ => map f_name (filter ftsKey selectedStreamFields)
    end in
  match ftsFields with
  | [] => default_fts_keys
  | _ :: _ => ftsFields
  end.

End Fields.

(** *** [updateGridColumns], [evaluateWrapContentFlag] *)

Module Grid.

Section Environment.

Variable toLowerCase : string -> string.

(** The [for ... of] with its [break]. *)
Fixpoint evaluateWrapContentFlag (ftsFields columns : list string) : bool :=
  match columns with
  | [] => false
  | item :: rest =>
      if JsArray.includes ftsFields (toLowerCase item) then true
      else evaluateWrapContentFlag ftsFields rest
  end.

(** What [updateGridColumns] reads and writes; a column is seen through
    its [name]. *)
Record GridState : Type := mkGrid {
  columns : list string;
  selectedFields : list string;
  selectedStreamFields : list Fields.Field;
  ftsFields : list string;
  flagWrapContent : bool;
  manualRemoveFields : bool
}.

(** [saved] is the entry of the local filter-field store for this
    organisation and stream, [None] when there is none. *)
Definition updateGridColumns (default_fts_keys : list string)
  (saved : option (list string)) (st : GridState) : GridState :=
  let chosen := match saved with Some l => l | None => [] end in
  match selectedFields st, chosen with
  | [], _ :: _ =>
      mkGrid [] chosen (selectedStreamFields st) (ftsFields st)
        (flagWrapContent st) (manualRemoveFields st)
  | _, _ =>
      let cols :=
        "@timestamp"
        :: match chosen with
           | [] => ["source"]
           | _ :: _ => chosen
           end in
      let fts :=
        Fields.extractFTSFields default_fts_keys (selectedStreamFields st)
          (ftsFields st) in
      mkGrid cols chosen (selectedStreamFields st) fts
        (evaluateWrapContentFlag fts cols)
        (match chosen with
         | [] => false
         | _ :: _ => manualRemoveFields st
         end)
  end.

End Environment.

End Grid.

(** *** The tail of [buildSearch] *)

Module Request.

(** The request as [buildSearch] returns it: [aggs] and
    [track_total_hits] are own properties only when [Some]. *)
Record Req : Type := mkReq {
  q_sql : string;
  q_track_total_hits : option bool;
  aggs_histogram : option string;
  encoding : option string
}.

Section Environment.

Variable b64EncodeUnicode : string -> string.

(** From the comment on [track_total_hits] to the [return]: [sql] and
    [histogram] are the texts built so far, and [aggs] is already gone in
    SQL mode. Reading [req.aggs.histogram] after [delete req.aggs]
    throws; [buildSearch] then reports a syntax error and returns
    [undefined]. *)
Definition buildSearch_tail (sql_base64_enabled sqlMode showHistogram : bool)
  (currentPage : Z) (sql histogram : string) : Js.completion Req :=
  let aggs := if sqlMode then None else Some histogram in
  let track :=
    if (currentPage =? 1) && (negb showHistogram || sqlMode)
    then Some true else None in
  let aggs :=
    if (currentPage >? 1) || negb showHistogram then None else aggs in
  if sql_base64_enabled then
    if negb sqlMode && (currentPage =? 1) then
      match aggs with
      | Some h =>
          Js.Normal
            (mkReq (b64EncodeUnicode sql) track (Some (b64EncodeUnicode h))
               (Some "base64"))
      | None => Js.Throw Js.undefined_access
      end
    else Js.Normal (mkReq (b64EncodeUnicode sql) track aggs (Some "base64"))
  else Js.Normal (mkReq sql track aggs None).

End Environment.

End Request.

(** *** [updateFieldValues] *)

Module FieldValues.

(** A value of a hit, compared as [Set] compares primitives. *)
Definition Value : Type := string.

(** A hit as [Object.keys] and the indexing by key show it. *)
Definition Hit : Type := list (string * Value).

(** The own properties of [fieldValues.value]: a set of values, in
    insertion order, for each key it has. *)
Definition Store : Type := string -> option (list Value).

Definition assign (m : Store) (key : string) (s : list Value) : Store :=
  fun k => if String.eqb k key then Some s else m k.

(** [if (!set.has(v)) set.add(v)]. *)
Definition add (s : list Value) (v : Value) : list Value :=
  if JsArray.includes s v then s else s ++ [v].

Section Environment.

(** [inherited k]: as for [extractFields], [fieldValues.value[k]] is not
    [undefined] although [k] is no own property; what is found there has
    no [has] method. *)
Variable inherited : string -> bool.
Variable timestamp_column : string.

Definition excludedFields : list string := [timestamp_column; "log"; "msg"].

(** The callback of the inner [forEach] for one key. *)
Definition key_step (m : Store) (entry : string * Value)
  : Js.completion Store :=
  if JsArray.includes excludedFields (fst entry) then Js.Normal m
  else
    match m (fst entry) with
    | Some s => Js.Normal (assign m (fst entry) (add s (snd entry)))
    | None =>
        if inherited (fst entry) then Js.Throw Js.undefined_access
        else Js.Normal (assign m (fst entry) (add [] (snd entry)))
    end.

(** The two loops. The store is one object, so what was recorded before
    a throw stays: the result is the store and whether the loops ran to
    their end. *)
Fixpoint item_loop (m : Store) (item : Hit) : Store * bool :=
  match item with
  | [] => (m, true)
  | entry :: rest =>
      match key_step m entry with
      | Js.Normal m' => item_loop m' rest
      | Js.Throw _ => (m, false)
      end
  end.

Fixpoint hits_loop (m : Store) (hits : list Hit) : Store * bool :=
  match hits with
  | [] => (m, true)
  | item :: rest =>
      match item_loop m item with
      | (m', true) => hits_loop m' rest
      | (m', false) => (m', false)
      end
  end.

(** [updateFieldValues]: [fieldValues.value] is [undefined] until some
    caller assigns it an object, and indexing it then throws inside the
    [try]. *)
Definition updateFieldValues (fieldValues : option Store) (hits : list Hit)
  : option Store :=
  match fieldValues with
  | None => None
  | Some m => Some (fst (hits_loop m hits))
  end.

End Environment.

(** [v] is recorded under [k]. *)
Definition recorded (m : Store) (k : string) (v : Value) : Prop :=
  exists s, m k = Some s /\ In v s.

End FieldValues.

(** *** The [catch] handler of [searchAroundData] *)

Module SearchAround.
Import Executor.

Section Environment.

Variable logsErrorMessage : option Z -> string.

(** The handler reads [err.response.data.code] without guarding
    [err.response]: without a response it throws after the message is
    stored. The [finally] clears the spinner in both cases. *)
Definition searchAroundData_catch (st : SearchObj) (err : FetchError)
  : SearchObj :=
  match response err with
  | Some data =>
      let customMessage := logsErrorMessage (code data) in
      mkSearch false (loadingHistogram st)
        (if String.eqb customMessage EmptyString
         then error data else customMessage)
        (code data) (functionError st) (rowsPerPage st) (currentPage st)
        (refreshInterval st) (onLogsRoute st) (showHistogram st) (sqlMode st)
        (queryResults st)
  | None =>
      mkSearch false (loadingHistogram st) (message err) (errorCode st)
        (functionError st) (rowsPerPage st) (currentPage st)
        (refreshInterval st) (onLogsRoute st) (showHistogram st) (sqlMode st)
        (queryResults st)
  end.

End Environment.

End SearchAround.

(** *** The quoting of field names in the [where] clause *)

Module WhereClause.

(** The double quote. *)
Definition dquote : ascii := Ascii.ascii_of_nat 34.

(** [node.replaceAll] of the double quote by the empty string. *)
Definition strip (node : string) : string :=
  Js.replaceAll node (String dquote EmptyString) EmptyString.

(** The word, stripped, between double quotes. *)
Definition quoted (node : string) : string :=
  String dquote (String.append (strip node) (String dquote EmptyString)).

(** The inner [forEach]: the words equal to the field's name are
    replaced where they stand. *)
Definition quote_field (name : string) (parsedSQL : list string)
  : list string :=
  map (fun node => if String.eqb node name then quoted node else node)
    parsedSQL.

(** The outer [forEach] over [selectedStreamFields]. *)
Definition quote_fields (selectedStreamFields : list Fields.Field)
  (parsedSQL : list string) : list string :=
  fold_left (fun words field => quote_field (Fields.f_name field) words)
    selectedStreamFields parsedSQL.

End WhereClause.

(* ===================================================================== *)
(** * Part II: properties *)
(* ===================================================================== *)

(** ** The histogram ladder *)

Section HistogramFacts.
Import Histogram.

Lemma select_chart_largest_satisfied (d : Z) :
  select_chart d = largest_satisfied d.
Proof.
  unfold select_chart, largest_satisfied, assign, ladder.
  change (1000000 * 60 * 30) with 1800000000.
  change (1000000 * 60 * 60) with 3600000000.
  change (1000000 * 3600 * 2) with 7200000000.
  change (1000000 * 3600 * 6) with 21600000000.
  change (1000000 * 3600 * 24) with 86400000000.
  change (1000000 * 86400 * 7) with 604800000000.
  change (1000000 * 86400 * 30) with 2592000000000.
  cbn [rev app find fst snd].
  rewrite !Z.geb_leb.
  destruct (Z.leb_spec 2592000000000 d); [reflexivity|].
  destruct (Z.leb_spec 604800000000 d); [reflexivity|].
  destruct (Z.leb_spec 86400000000 d); [reflexivity|].
  destruct (Z.leb_spec 21600000000 d); [reflexivity|].
  destruct (Z.leb_spec 7200000000 d); [reflexivity|].
  destruct (Z.leb_spec 3600000000 d); [reflexivity|].
  destruct (Z.leb_spec 1800000000 d); reflexivity.
Qed.

Lemma largest_satisfied_rung (d : Z) : largest_satisfied d = rung d.
Proof.
  unfold largest_satisfied, rung, ladder.
  cbn [rev app find fst snd].
  destruct (Z.leb_spec 2592000000000 d), (Z.ltb_spec d 2592000000000);
    try lia;
  destruct (Z.leb_spec 604800000000 d), (Z.ltb_spec d 604800000000);
    try lia;
  destruct (Z.leb_spec 86400000000 d), (Z.ltb_spec d 86400000000);
    try lia;
  destruct (Z.leb_spec 21600000000 d), (Z.ltb_spec d 21600000000);
    try lia;
  destruct (Z.leb_spec 7200000000 d), (Z.ltb_spec d 7200000000);
    try lia;
  destruct (Z.leb_spec 3600000000 d), (Z.ltb_spec d 3600000000);
    try lia;
  destruct (Z.leb_spec 1800000000 d), (Z.ltb_spec d 1800000000);
    try lia; reflexivity.
Qed.

Lemma replaceAll_from_free (c : ascii) (pat rep s1 s2 : string) :
  Js.free_of c s1 = true ->
  Js.replaceAll_from (String c pat) rep O (String.append s1 s2)
  = String.append s1 (Js.replaceAll_from (String c pat) rep O s2).
Proof.
  induction s1 as [|a s1 IH]; intros Hfree; [reflexivity|].
  cbn [Js.free_of] in Hfree.
  apply andb_true_iff in Hfree as [Ha Hs1].
  apply negb_true_iff, Ascii.eqb_neq in Ha.
  cbn [String.append Js.replaceAll_from String.prefix].
  destruct (ascii_dec c a) as [->|_]; [contradiction|].
  now rewrite IH.
Qed.

Lemma histogram_substituted (col rep : string) :
  Js.free_of "[" col = true ->
  Js.replaceAll (histogram_template col) "[INTERVAL]" rep
  = String.append "select histogram("
      (String.append col
         (String.append ", '"
            (String.append rep
               "') AS zo_sql_key, count(*) AS zo_sql_num from query GROUP BY zo_sql_key ORDER BY zo_sql_key"))).
Proof.
  intros Hcol.
  unfold Js.replaceAll, histogram_template.
  rewrite (replaceAll_from_free "[" "INTERVAL]" rep "select histogram(")
    by reflexivity.
  rewrite (replaceAll_from_free "[" "INTERVAL]" rep col) by exact Hcol.
  reflexivity.
Qed.

End HistogramFacts.

(** C5. For a time range of duration [d = endTime - startTime], with
    [startTime <= endTime], [buildSearch] selects the interval and key
    format of the largest ladder threshold that [d] reaches ('15 second'
    from 30 minutes, '30 second' from 1 hour, '1 minute' from 2 hours,
    '5 minute' from 6 hours, '30 minute' from 1 day, '1 hour' from 7 days,
    '1 day' from 30 days) and '10 second' with 'HH:mm:ss' below all of
    them; the ascending chain of overwriting assignments yields that row,
    and the selected interval stands verbatim in the histogram expression
    (for a time stamp column without an opening bracket). *)
Theorem C5_histogram_ladder :
  forall (col : string) (startTime endTime : Z),
    startTime <= endTime ->
    Js.free_of "[" col = true ->
    exists tm,
      Histogram.buildSearch_timing col startTime endTime = Some tm
      /\ Histogram.grid tm
         = Histogram.largest_satisfied (endTime - startTime)
      /\ Histogram.grid tm = Histogram.rung (endTime - startTime)
      /\ Histogram.histogram tm
         = String.append "select histogram("
             (String.append col
                (String.append ", '"
                   (String.append
                      (Histogram.chartInterval (Histogram.grid tm))
                      "') AS zo_sql_key, count(*) AS zo_sql_num from query GROUP BY zo_sql_key ORDER BY zo_sql_key"))).
Proof.
  intros col startTime endTime Hle Hcol.
  unfold Histogram.buildSearch_timing.
  destruct (Z.gtb_spec startTime endTime) as [Hgt|_]; [lia|].
  eexists; split; [reflexivity|].
  cbn [Histogram.grid Histogram.histogram].
  repeat split.
  - apply select_chart_largest_satisfied.
  - rewrite select_chart_largest_satisfied. apply largest_satisfied_rung.
  - now apply histogram_substituted.
Qed.

Lemma C5_histogram_ladder_witness :
  exists tm,
    Histogram.buildSearch_timing "_timestamp" 0 7200000001 = Some tm
    /\ Histogram.grid tm = Histogram.largest_satisfied (7200000001 - 0)
    /\ Histogram.grid tm = Histogram.rung (7200000001 - 0)
    /\ Histogram.histogram tm
       = String.append "select histogram("
           (String.append "_timestamp"
              (String.append ", '"
                 (String.append
                    (Histogram.chartInterval (Histogram.grid tm))
                    "') AS zo_sql_key, count(*) AS zo_sql_num from query GROUP BY zo_sql_key ORDER BY zo_sql_key"))).
Proof.
  apply (C5_histogram_ladder "_timestamp" 0 7200000001); [lia|reflexivity].
Defined.

(** The replacement strings handed to [replaceAll] carry no [$], so no
    replacement pattern is ever interpreted. *)
Lemma chartInterval_free_of_dollar (d : Z) :
  Js.free_of "$" (Histogram.chartInterval (Histogram.select_chart d)) = true.
Proof.
  rewrite select_chart_largest_satisfied, largest_satisfied_rung.
  unfold Histogram.rung.
  repeat match goal with
         | |- context [if ?b then _ else _] => destruct b
         end; reflexivity.
Qed.

(** C6, as amended. The selection depends on the duration alone, and at
    the three durations named it gives: [1,800,000,000 - 1] microseconds
    '10 second', [1,800,000,000] microseconds '15 second',
    [7,200,000,001] microseconds '1 minute'. *)
Theorem C6_selection_examples :
  (forall col startTime endTime,
      startTime <= endTime ->
      option_map Histogram.grid
        (Histogram.buildSearch_timing col startTime endTime)
      = Some (Histogram.select_chart (endTime - startTime)))
  /\ Histogram.chartInterval (Histogram.select_chart (1800000000 - 1))
     = "10 second"
  /\ Histogram.chartInterval (Histogram.select_chart 1800000000)
     = "15 second"
  /\ Histogram.chartInterval (Histogram.select_chart 7200000001)
     = "1 minute".
Proof.
  split; [|repeat split].
  intros col startTime endTime Hle.
  unfold Histogram.buildSearch_timing.
  destruct (Z.gtb_spec startTime endTime); [lia|reflexivity].
Qed.

Lemma C6_selection_examples_witness :
  option_map Histogram.grid
    (Histogram.buildSearch_timing "_timestamp" 5 1800000005)
  = Some (Histogram.select_chart (1800000005 - 5)).
Proof.
  apply (proj1 C6_selection_examples "_timestamp" 5 1800000005). lia.
Defined.

(** C6 as stated fails at each of its three durations: the ladder gives
    '10 second', '15 second' and '1 minute' where the claim expects
    '15 second', '30 second' and '5 minute'. *)
Lemma C6_counterexample :
  Histogram.chartInterval (Histogram.select_chart (1800000000 - 1))
  <> "15 second"
  /\ Histogram.chartInterval (Histogram.select_chart 1800000000)
     <> "30 second"
  /\ Histogram.chartInterval (Histogram.select_chart 7200000001)
     <> "5 minute".
Proof.
  repeat split; discriminate.
Qed.

(** ** [getQueryPartitions] *)

Section SortFacts.

Lemma insert_by_start_perm (x : Z * Z) (l : list (Z * Z)) :
  Permutation (x :: l) (Js.insert_by_start x l).
Proof.
  induction l as [|y l IH]; cbn [Js.insert_by_start]; [apply Permutation_refl|].
  destruct (fst x <=? fst y); [apply Permutation_refl|].
  eapply perm_trans; [apply perm_swap|].
  now apply perm_skip.
Qed.

Lemma sort_by_start_perm (l : list (Z * Z)) :
  Permutation l (Js.sort_by_start l).
Proof.
  induction l as [|x l IH]; cbn [Js.sort_by_start]; [constructor|].
  eapply perm_trans; [apply perm_skip, IH|apply insert_by_start_perm].
Qed.

Lemma insert_by_start_sorted (x : Z * Z) (l : list (Z * Z)) :
  StronglySorted Planner.by_start l -> StronglySorted Planner.by_start (Js.insert_by_start x l).
Proof.
  induction 1 as [|y l Hl IH Hy]; cbn [Js.insert_by_start].
  - repeat constructor.
  - destruct (Z.leb_spec (fst x) (fst y)) as [Hxy|Hxy].
    + constructor; [now constructor|].
      constructor; [exact Hxy|].
      eapply Forall_impl; [|exact Hy].
      unfold Planner.by_start; intros; lia.
    + constructor; [exact IH|].
      eapply Permutation_Forall; [apply insert_by_start_perm|].
      constructor; [unfold Planner.by_start; lia|exact Hy].
Qed.

Lemma sort_by_start_sorted (l : list (Z * Z)) :
  StronglySorted Planner.by_start (Js.sort_by_start l).
Proof.
  induction l as [|x l IH]; cbn [Js.sort_by_start]; [constructor|].
  now apply insert_by_start_sorted.
Qed.

(** Stability: elements with the same start keep their order, that is,
    the elements of any one start come out as they went in. *)
Lemma insert_by_start_filter (k : Z) (x : Z * Z) (l : list (Z * Z)) :
  StronglySorted Planner.by_start l ->
  filter (fun p => fst p =? k) (Js.insert_by_start x l)
  = filter (fun p => fst p =? k) (x :: l).
Proof.
  induction 1 as [|y l Hl IH Hy]; cbn [Js.insert_by_start]; [reflexivity|].
  destruct (Z.leb_spec (fst x) (fst y)) as [Hxy|Hxy]; [reflexivity|].
  cbn [filter] in *. rewrite IH.
  destruct (Z.eqb_spec (fst x) k), (Z.eqb_spec (fst y) k);
    try reflexivity; lia.
Qed.

Lemma sort_by_start_stable (k : Z) (l : list (Z * Z)) :
  filter (fun p => fst p =? k) (Js.sort_by_start l)
  = filter (fun p => fst p =? k) l.
Proof.
  induction l as [|x l IH]; [reflexivity|].
  cbn [Js.sort_by_start].
  rewrite insert_by_start_filter by apply sort_by_start_sorted.
  cbn [filter]. now rewrite IH.
Qed.

End SortFacts.

(** C9. After [getQueryPartitions] succeeds the stored partition list is
    the service's list sorted ascending by start time, whatever order it
    came in; the initial plan has exactly one page per partition, holding
    the single slice [{from: 0, size: rowsPerPage}] over that partition's
    span; every partition total is [-1]; and [queryResults.total] is the
    [records] count of the partition service. *)
Theorem C9_getQueryPartitions :
  forall (st : Executor.SearchObj) (res : Executor.PartitionData),
    let st' := Executor.getQueryPartitions_then st res in
    let pd := Executor.partitionDetail (Executor.queryResults st') in
    StronglySorted Planner.by_start (Planner.partitions pd)
    /\ Permutation (Executor.res_partitions res) (Planner.partitions pd)
    /\ List.length (Planner.paginations pd)
       = List.length (Planner.partitions pd)
    /\ (forall i item,
           nth_error (Planner.partitions pd) i = Some item ->
           nth_error (Planner.paginations pd) i
           = Some (Some [Planner.mkSlice (fst item) (snd item) 0
                           (Executor.rowsPerPage st)]))
    /\ Planner.partitionTotal pd
       = repeat (-1) (List.length (Planner.partitions pd))
    /\ Executor.total (Executor.queryResults st')
       = Some (Executor.records res).
Proof.
  intros st res st' pd. subst st' pd.
  unfold Executor.getQueryPartitions_then, Executor.with_results,
    Planner.initial_detail.
  cbn [Executor.queryResults Executor.partitionDetail Executor.total
       Planner.partitions Planner.paginations Planner.partitionTotal].
  repeat split.
  - apply sort_by_start_sorted.
  - apply sort_by_start_perm.
  - apply length_map.
  - intros i item Hi. rewrite nth_error_map.
    cbn [Planner.partitions] in Hi. unfold Planner.Partition in *.
    now rewrite Hi.
  - induction (Js.sort_by_start (Executor.res_partitions res)) as [|x l IH];
      cbn [map repeat List.length]; [reflexivity|now rewrite IH].
Qed.

(** ** [getHistogramQueryData] *)



(** ** [getPaginatedData] *)

Section ExecutorFacts.
Import Executor.

Variable t : string -> string.
Variable logsErrorMessage : option Z -> string.

(** Answers that follow a rejected one are never asked for. *)
Lemma getPaginatedData_stops_at_rejection
  (pre : list outcome) (err : FetchError) (rest : list outcome) :
  forall st q appendResult,
    getPaginatedData t logsErrorMessage (pre ++ Rejected err :: rest)
      st q appendResult
    = getPaginatedData t logsErrorMessage (pre ++ [Rejected err])
        st q appendResult.
Proof.
  induction pre as [|a pre IH]; intros st q appendResult; [reflexivity|].
  cbn [app getPaginatedData].
  destruct a as [res|e]; [|reflexivity].
  destruct (getPaginatedData_then st (prepare_query st q) appendResult res)
    as [st' [[q'|]|m]]; try reflexivity.
  now rewrite IH.
Qed.

(** The flag of a request follows the total stored at index
    [currentPage - 1], whichever partition the slice belongs to. *)
Lemma prepare_query_flag (st : SearchObj) (q : Query) :
  track_total_hits (prepare_query st q)
  = match index (Planner.partitionTotal
                   (partitionDetail (queryResults st)))
            (currentPage st - 1) with
    | Some total =>
        if total =? -1 then Some true
        else if total >? -1 then None
        else track_total_hits q
    | None => track_total_hits q
    end.
Proof.
  unfold prepare_query.
  destruct (index _ _) as [total|]; [|reflexivity].
  destruct (total =? -1); [reflexivity|].
  destruct (track_total_hits q) eqn:Hq, (total >? -1); cbn; congruence.
Qed.

End ExecutorFacts.

(** C8, as amended. When a fetch of [getPaginatedData] is rejected, no
    further slice of the page is requested, whatever answers would have
    followed; the accumulated results, hits included, stay as the
    completed slices left them; the loading flag is cleared; and the
    error message becomes the translated friendly message when the
    backend code has an entry in the table, otherwise the raw backend
    error string, or the transport message when there is no response. The
    message is as empty or non-empty as that source string is. *)
Theorem C8_fetch_failure :
  forall (t : string -> string) (logsErrorMessage : option Z -> string)
         (st : Executor.SearchObj) (q : Executor.Query)
         (appendResult : bool) (err : Executor.FetchError)
         (rest : list Executor.outcome),
    let run :=
      Executor.getPaginatedData t logsErrorMessage
        (Executor.Rejected err :: rest) st q appendResult in
    let backend_code :=
      match Executor.response err with
      | Some data => Executor.code data
      | None => None
      end in
    snd run = [Executor.prepare_query st q]
    /\ Executor.queryResults (fst run) = Executor.queryResults st
    /\ Executor.hits (Executor.queryResults (fst run))
       = Executor.hits (Executor.queryResults st)
    /\ Executor.loading (fst run) = false
    /\ Executor.errorCode (fst run) = backend_code
    /\ Executor.errorMsg (fst run)
       = (if String.eqb (logsErrorMessage backend_code) EmptyString
          then match Executor.response err with
               | Some data => Executor.error data
               | None => Executor.message err
               end
          else t (logsErrorMessage backend_code))
    /\ (forall pre,
          Executor.getPaginatedData t logsErrorMessage
            (pre ++ Executor.Rejected err :: rest) st q appendResult
          = Executor.getPaginatedData t logsErrorMessage
              (pre ++ [Executor.Rejected err]) st q appendResult).
Proof.
  intros t lem st q appendResult err rest run backend_code.
  subst run backend_code.
  cbn [Executor.getPaginatedData fst snd].
  unfold Executor.getPaginatedData_catch, Executor.error_message,
    Executor.error_code.
  cbn [Executor.queryResults Executor.loading Executor.errorCode
       Executor.errorMsg].
  repeat split.
  intros pre. apply getPaginatedData_stops_at_rejection.
Qed.

(** C8 as stated fails where it promises a non-empty message: a backend
    answer with an empty [error] string and a code without an entry
    leaves the error message empty. *)
Lemma C8_counterexample :
  let err :=
    Executor.mkError (Some (Executor.mkErrorData EmptyString (Some 500)))
      "Request failed with status code 500" in
  let q := Executor.mkQuery "select * from logs" 0 1000 0 250 None in
  Executor.errorMsg
    (fst (Executor.getPaginatedData Executor.sample_t
            Executor.sample_logsErrorMessage
            [Executor.Rejected err] Executor.fresh q false))
  = EmptyString.
Proof. reflexivity. Qed.

(** C4, as amended. A response with [from > 0] replaces [from],
    [scan_size] and [took] by its own values, and its hits are appended to
    the accumulated ones only on a continuation slice of the page
    ([appendResult]); on the first slice of a page they replace them. A
    response with [from <= 0] outside live refresh replaces hits,
    [scan_size] and [took] by the response's. *)
Theorem C4_accumulation :
  forall (st : Executor.SearchObj) (q : Executor.Query)
         (appendResult : bool) (res : Executor.SearchData),
    let r := Executor.queryResults st in
    let r' :=
      Executor.queryResults
        (fst (Executor.accumulate st q appendResult res)) in
    (0 < Executor.d_from res ->
       Executor.scan_size r' = Some (Executor.d_scan_size res)
       /\ Executor.took r' = Some (Executor.d_took res)
       /\ Executor.r_from r' = Some (Executor.d_from res)
       /\ Executor.hits r'
          = (if appendResult
             then option_map (fun old => old ++ Executor.d_hits res)
                    (Executor.hits r)
             else Some (Executor.d_hits res)))
    /\ (Executor.d_from res <= 0 ->
        Executor.live_refresh st = false ->
        Executor.hits r' = Some (Executor.d_hits res)
        /\ Executor.scan_size r' = Some (Executor.d_scan_size res)
        /\ Executor.took r' = Some (Executor.d_took res)).
Proof.
  intros st q appendResult res r r'. subst r r'.
  unfold Executor.accumulate. split.
  - intros Hfrom.
    destruct (Z.gtb_spec (Executor.d_from res) 0) as [_|Hle]; [|lia].
    destruct appendResult; [|cbn; repeat split].
    destruct (Executor.hits (Executor.queryResults st)); cbn; repeat split.
  - intros Hfrom Hlive.
    destruct (Z.gtb_spec (Executor.d_from res) 0) as [Hgt|_]; [lia|].
    rewrite Hlive. cbn. repeat split.
Qed.

(** ** The pagination plan *)

Section ArrayFacts.
Context {A : Type}.

Lemma get_full_at_length (l : list A) :
  Js.get (map Some l) (List.length l) = None.
Proof.
  unfold Js.get.
  replace (nth_error (map Some l) (List.length l)) with (@None (option A));
    [reflexivity|].
  symmetry. apply nth_error_None. rewrite length_map. lia.
Qed.

Lemma get_last_index (l : list A) (x : A) :
  Js.get (map Some (l ++ [x])) (List.length l) = Some x.
Proof.
  unfold Js.get. rewrite map_app, nth_error_app2; rewrite length_map; [|lia].
  now rewrite Nat.sub_diag.
Qed.

Lemma set_at_length (l : list A) (x : A) :
  Js.set (map Some l) (List.length l) x = map Some (l ++ [x]).
Proof.
  unfold Js.set. rewrite length_map, Nat.ltb_irrefl, Nat.sub_diag.
  now rewrite map_app.
Qed.

Lemma set_last_index (l : list A) (y x : A) :
  Js.set (map Some (l ++ [y])) (List.length l) x = map Some (l ++ [x]).
Proof.
  unfold Js.set. rewrite length_map, length_app. cbn [List.length].
  destruct (Nat.ltb_spec (List.length l) (List.length l + 1)) as [_|H];
    [|lia].
  rewrite !map_app.
  rewrite firstn_app, skipn_app, length_map.
  rewrite firstn_all2 by (rewrite length_map; lia).
  rewrite skipn_all2 by (rewrite length_map; lia).
  replace (S (List.length l) - List.length l)%nat with 1%nat by lia.
  rewrite Nat.sub_diag. cbn [map firstn skipn app].
  now rewrite app_nil_r.
Qed.

Lemma get_last_snoc (l : list A) (x : A) :
  Js.get_last (map Some (l ++ [x])) = Some x.
Proof.
  unfold Js.get_last. rewrite length_map, length_app. cbn [List.length].
  replace (List.length l + 1)%nat with (S (List.length l)) by lia.
  apply get_last_index.
Qed.

End ArrayFacts.

Section PlannerFacts.
Import Planner.

Lemma page_size_sum_snoc (p : Page) (s : PageSlice) :
  page_size_sum (p ++ [s]) = page_size_sum p + size s.
Proof. unfold page_size_sum. now rewrite fold_left_app. Qed.

Lemma ensure_page_closed (pl : list Page) :
  ensure_page (map Some pl) (List.length pl) = map Some (pl ++ [[]]).
Proof.
  unfold ensure_page. rewrite get_full_at_length. apply set_at_length.
Qed.

Lemma ensure_page_open (pl : list Page) (o : Page) :
  ensure_page (map Some (pl ++ [o])) (List.length pl) = map Some (pl ++ [o]).
Proof. unfold ensure_page. now rewrite get_last_index. Qed.

Lemma push_slice_open (pl : list Page) (o : Page) (s : PageSlice) :
  push_slice (map Some (pl ++ [o])) (List.length pl) s
  = Js.Normal (map Some (pl ++ [o ++ [s]])).
Proof.
  unfold push_slice. rewrite get_last_index. now rewrite set_last_index.
Qed.

Lemma last_page_size_snoc (pl : list Page) (o : Page) :
  last_page_size (map Some (pl ++ [o])) = Js.Normal (page_size_sum o).
Proof. unfold last_page_size. now rewrite get_last_snoc. Qed.

(** One turn of the loop when every page so far is closed and the last
    one holds [rowsPerPage] records: the slice opens a new page. *)
Lemma iteration_closed (R cp : Z) (item : Partition) (T n i f : Z)
  (cl : list Page) (lp : Page) :
  page_size_sum lp = R ->
  let rs := if i =? n - 1 then (if T - f =? 0 then R else T - f) else R in
  slice_iteration R cp item T n i
    (mkWalk (map Some (cl ++ [lp])) (List.length (cl ++ [lp]))) f
  = Js.Normal
      (mkWalk
         (map Some ((cl ++ [lp])
                    ++ [[mkSlice (fst item) (snd item) f (Z.min rs R)]]))
         (if (rs =? R) || (R + rs =? R)
          then S (List.length (cl ++ [lp])) else List.length (cl ++ [lp])),
       f + rs,
       Z.of_nat (List.length (cl ++ [lp]) + 1) >? cp + 10).
Proof.
  intros Hlp rs. unfold slice_iteration.
  cbn [pages pageNumber].
  replace (0 <? List.length (cl ++ [lp]))%nat with true
    by (symmetry; apply Nat.ltb_lt; rewrite length_app; cbn; lia).
  rewrite last_page_size_snoc, Hlp. cbn [Js.bind fst snd].
  rewrite Z.eqb_refl. cbn [negb].
  rewrite ensure_page_closed, push_slice_open. cbn [Js.bind app].
  fold rs. rewrite length_map, !length_app. cbn [List.length].
  reflexivity.
Qed.

(** One turn of the loop on an open page that is not the first page: the
    slice takes what the page still lacks. *)
Lemma iteration_open (R cp : Z) (item : Partition) (T n i f : Z)
  (cl : list Page) (o : Page) :
  cl <> [] ->
  page_size_sum o <> R ->
  let rs := R - page_size_sum o in
  slice_iteration R cp item T n i
    (mkWalk (map Some (cl ++ [o])) (List.length cl)) f
  = Js.Normal
      (mkWalk
         (map Some (cl ++ [o ++ [mkSlice (fst item) (snd item) f
                                   (Z.min rs R)]]))
         (S (List.length cl)),
       f + rs,
       Z.of_nat (List.length cl + 1) >? cp + 10).
Proof.
  intros Hcl Ho rs. unfold slice_iteration.
  cbn [pages pageNumber].
  replace (0 <? List.length cl)%nat with true
    by (symmetry; apply Nat.ltb_lt; destruct cl; [contradiction|cbn; lia]).
  rewrite last_page_size_snoc. cbn [Js.bind fst snd].
  replace (page_size_sum o =? R) with false
    by (symmetry; now apply Z.eqb_neq).
  cbn [negb].
  rewrite ensure_page_open, push_slice_open. cbn [Js.bind].
  fold rs. rewrite length_map, !length_app. cbn [List.length].
  replace (page_size_sum o + rs =? R) with true
    by (symmetry; apply Z.eqb_eq; subst rs; lia).
  now rewrite orb_true_r.
Qed.

(** One turn of the loop on the first page. *)
Lemma iteration_first (R cp : Z) (item : Partition) (T n i f : Z)
  (o : Page) :
  let rs := if i =? n - 1 then (if T - f =? 0 then R else T - f) else R in
  slice_iteration R cp item T n i (mkWalk (map Some [o]) O) f
  = Js.Normal
      (mkWalk
         (map Some [o ++ [mkSlice (fst item) (snd item) f (Z.min rs R)]])
         (if (rs =? R) || (0 + rs =? R) then 1%nat else O),
       f + rs,
       1 >? cp + 10).
Proof.
  intros rs. unfold slice_iteration.
  cbn [pages pageNumber Nat.ltb Nat.leb Js.bind fst snd].
  pose proof (ensure_page_open [] o) as He.
  cbn [app List.length] in He. rewrite He.
  pose proof
    (push_slice_open [] o (mkSlice (fst item) (snd item) f (Z.min rs R)))
    as Hp.
  cbn [app List.length] in Hp. fold rs. rewrite Hp.
  reflexivity.
Qed.

End PlannerFacts.

Section CeilFacts.

Lemma ceil_div_bounds (x R : Z) :
  0 < R -> (Js.ceil_div x R - 1) * R < x <= Js.ceil_div x R * R.
Proof.
  intros HR. unfold Js.ceil_div.
  pose proof (Z.div_mod (- x) R ltac:(lia)) as Hdm.
  pose proof (Z.mod_pos_bound (- x) R HR) as Hm.
  nia.
Qed.

Lemma ceil_div_unique (x R q : Z) :
  0 < R -> (q - 1) * R < x <= q * R -> Js.ceil_div x R = q.
Proof.
  intros HR Hq. pose proof (ceil_div_bounds x R HR) as Hb. nia.
Qed.

Lemma ceil_div_mono (x y R : Z) :
  0 < R -> x <= y -> Js.ceil_div x R <= Js.ceil_div y R.
Proof.
  intros HR Hxy.
  pose proof (ceil_div_bounds x R HR). pose proof (ceil_div_bounds y R HR).
  nia.
Qed.

Lemma ceil_div_add_pages (x R q : Z) :
  0 < R -> Js.ceil_div (q * R + x) R = q + Js.ceil_div x R.
Proof.
  intros HR. apply ceil_div_unique; [exact HR|].
  pose proof (ceil_div_bounds x R HR). nia.
Qed.

End CeilFacts.

Section WalkFacts.
Import Planner.

Variables (R cp : Z) (Q : PageSlice -> Prop).
Hypothesis HR : 0 < R.

(** The turns of the loop that start on closed pages: each of them but
    the last fills a page of its own, the last one takes the rest. *)
Lemma loop_closed (item : Partition) (T n : Z) :
  (forall f z, 0 <= f -> 0 < z -> f + z <= T ->
               Q (mkSlice (fst item) (snd item) f z)) ->
  forall (k : nat) (i f : Z) (cl : list Page),
    cl <> [] ->
    Forall (fun p => page_size_sum p = R) cl ->
    Forall (Forall Q) cl ->
    0 <= f ->
    (1 <= k)%nat ->
    (Z.of_nat k - 1) * R < T - f <= Z.of_nat k * R ->
    i + Z.of_nat k = n ->
    Z.of_nat (List.length cl) + Z.of_nat k <= cp + 11 ->
    exists w',
      slice_loop R cp item T n k i (mkWalk (map Some cl) (List.length cl)) f
      = Js.Normal w'
      /\ planned R Q (Z.of_nat (List.length cl) * R + (T - f)) w'.
Proof.
  intros HQ.
  induction k as [|k IH]; intros i f cl Hcl Hfull HQs Hf Hk Hm Hi Hla; [lia|].
  destruct (exists_last Hcl) as (cl0 & lp & ->).
  assert (Hlp : page_size_sum lp = R).
  { apply Forall_app in Hfull as [_ H]. now inversion H. }
  cbn [slice_loop].
  pose proof (iteration_closed R cp item T n i f cl0 lp Hlp) as Hit.
  cbv zeta in Hit. rewrite Hit. clear Hit.
  cbn [Js.bind].
  destruct (Nat.eq_dec k 0) as [->|Hk0].
  - (* the last turn *)
    replace (i =? n - 1) with true by (symmetry; apply Z.eqb_eq; lia).
    replace (T - f =? 0) with false by (symmetry; apply Z.eqb_neq; lia).
    rewrite Z.min_l by lia.
    eexists. split.
    { destruct (_ >? _); reflexivity. }
    destruct (Z.eqb_spec (T - f) R) as [Heq|Hne].
    + cbn [orb]. exists ((cl0 ++ [lp])
                         ++ [[mkSlice (fst item) (snd item) f (T - f)]]), [].
      cbn [pages pageNumber]. rewrite app_nil_r.
      repeat split.
      * rewrite !length_app. cbn [List.length]. lia.
      * apply Forall_app. split; [exact Hfull|].
        repeat constructor; unfold page_size_sum; cbn; lia.
      * apply Forall_app. split; [exact HQs|].
        repeat constructor; apply HQ; lia.
      * left. split; [reflexivity|].
        rewrite !length_app. cbn [List.length]. lia.
    + replace (R + (T - f) =? R) with false
        by (symmetry; apply Z.eqb_neq; lia).
      cbn [orb].
      exists (cl0 ++ [lp]), [[mkSlice (fst item) (snd item) f (T - f)]].
      cbn [pages pageNumber].
      repeat split.
      * exact Hfull.
      * apply Forall_app. split; [exact HQs|].
        repeat constructor; apply HQ; lia.
      * right. eexists. split; [reflexivity|].
        unfold page_size_sum. cbn. lia.
  - (* a turn that fills a page *)
    replace (i =? n - 1) with false by (symmetry; apply Z.eqb_neq; lia).
    rewrite Z.eqb_refl, Z.min_id. cbn [orb].
    replace (Z.of_nat (List.length (cl0 ++ [lp]) + 1) >? cp + 10) with false
      by (symmetry; rewrite Z.gtb_ltb; apply Z.ltb_ge; lia).
    assert (Hkr : R <= Z.of_nat k * R) by nia.
    rewrite Nat2Z.inj_succ in Hm, Hi, Hla. unfold Z.succ in Hm, Hi, Hla.
    set (cl' := (cl0 ++ [lp]) ++ [[mkSlice (fst item) (snd item) f R]]).
    assert (Hlen : List.length cl' = S (List.length (cl0 ++ [lp]))).
    { subst cl'. rewrite (length_app (cl0 ++ [lp])). cbn [List.length]. lia. }
    rewrite <- Hlen.
    destruct (IH (i + 1) (f + R) cl') as (w' & Hrun & Hpl).
    + subst cl'. intros H. now apply app_eq_nil in H as [_ H].
    + subst cl'. apply Forall_app. split; [exact Hfull|].
      repeat constructor; unfold page_size_sum; cbn; lia.
    + subst cl'. apply Forall_app. split; [exact HQs|].
      repeat constructor; apply HQ; lia.
    + lia.
    + lia.
    + lia.
    + lia.
    + lia.
    + exists w'. split; [exact Hrun|].
      replace (Z.of_nat (List.length (cl0 ++ [lp])) * R + (T - f))
        with (Z.of_nat (List.length cl') * R + (T - (f + R))) by lia.
      exact Hpl.
Qed.

(** The callback on a partition of known positive total that fits. *)
Lemma callback_fits (item : Partition) (T placed : Z) (w : walk) :
  (forall f z, 0 <= f -> 0 < z -> f + z <= T ->
               Q (mkSlice (fst item) (snd item) f z)) ->
  planned R Q placed w ->
  0 < T ->
  placed = 0
  \/ (R <= placed
      /\ R - placed mod R <= T
      /\ Js.ceil_div (placed mod R + T) R = Js.ceil_div T R) ->
  Js.ceil_div (placed + T) R <= cp + 11 ->
  exists w',
    partition_callback R cp item (Some T) w = Js.Normal w'
    /\ planned R Q (placed + T) w'.
Proof.
  intros HQ Hpl HT Hfit Hla.
  destruct w as [pgs pn].
  destruct Hpl as (cl & tail & Hpages & Hpn & Hfull & HQs & Hshape).
  cbn [pages pageNumber] in Hpages, Hpn. subst pgs pn.
  pose proof (ceil_div_bounds T R HR) as Hn.
  set (n := Js.ceil_div T R) in *.
  assert (Hn1 : 1 <= n) by nia.
  unfold partition_callback. cbn [pages pageNumber]. fold n.
  replace (n >? 0) with true by (symmetry; rewrite Z.gtb_ltb; apply Z.ltb_lt; lia).
  destruct (Z.to_nat n) as [|k] eqn:Hk; [lia|].
  assert (Hnk : n = Z.of_nat k + 1) by lia.
  assert (Hlen0 : 0 <= Z.of_nat (List.length cl) * R) by nia.
  destruct Hfit as [Hzero|(Hpast & Hroom & Hspread)].
  - (* the first partition *)
    subst placed. rewrite Z.add_0_l in Hla. fold n in Hla.
    rewrite Z.add_0_l.
    assert (Hcl : cl = []).
    { destruct cl; [reflexivity|].
      cbn [List.length] in Hshape, Hlen0.
      destruct Hshape as [[_ H]|(o & _ & Ho & H)]; nia. }
    subst cl.
    assert (Htail : tail = []).
    { destruct Hshape as [[H _]|(o & _ & Ho & H)]; [exact H|].
      cbn [List.length] in H. lia. }
    subst tail. cbn [app map List.length].
    pose proof (ensure_page_closed []) as He.
    cbn [app map List.length] in He. rewrite He. clear He.
    cbn [slice_loop].
    pose proof (iteration_first R cp item T n 0 0 []) as Hit.
    cbv zeta in Hit. cbn [map] in Hit. rewrite Hit. clear Hit.
    cbn [Js.bind app].
    destruct (Nat.eq_dec k 0) as [->|Hk0].
    + replace (0 =? n - 1) with true by (symmetry; apply Z.eqb_eq; lia).
      replace (T - 0 =? 0) with false by (symmetry; apply Z.eqb_neq; lia).
      rewrite Z.min_l by lia.
      eexists. split.
      { destruct (_ >? _); reflexivity. }
      rewrite Z.sub_0_r.
      replace (0 + T =? R) with (T =? R) by (f_equal; lia).
      rewrite orb_diag.
      destruct (Z.eqb_spec T R) as [Heq|Hne].
      * exists [[mkSlice (fst item) (snd item) 0 T]], [].
        cbn [pages pageNumber app List.length].
        repeat split.
        -- repeat constructor. unfold page_size_sum. cbn. lia.
        -- repeat constructor; apply HQ; lia.
        -- left. split; [reflexivity|]. cbn [List.length]. lia.
      * exists [], [[mkSlice (fst item) (snd item) 0 T]].
        cbn [pages pageNumber app List.length].
        repeat split.
        -- constructor.
        -- repeat constructor; apply HQ; lia.
        -- right. eexists. split; [reflexivity|].
           unfold page_size_sum. cbn. lia.
    + replace (0 =? n - 1) with false by (symmetry; apply Z.eqb_neq; lia).
      rewrite Z.eqb_refl, Z.min_id. cbn [orb].
      assert (Hkr : R <= Z.of_nat k * R) by nia.
      replace (1 >? cp + 10) with false
        by (symmetry; rewrite Z.gtb_ltb; apply Z.ltb_ge; lia).
      destruct (loop_closed item T n HQ k (0 + 1) (0 + R)
                  [[mkSlice (fst item) (snd item) 0 R]])
        as (w' & Hrun & Hpl);
        try (cbn [List.length]; lia).
      * discriminate.
      * repeat constructor.
      * repeat constructor; apply HQ; lia.
      * exists w'. split; [exact Hrun|].
        cbn [List.length] in Hpl.
        replace (Z.of_nat 1 * R + (T - (0 + R))) with T in Hpl by lia.
        exact Hpl.
  - (* a later partition: it starts by completing the open page *)
    assert (Hcl : cl <> []).
    { intros ->. cbn [List.length] in Hshape.
      destruct Hshape as [[_ H]|(o & _ & Ho & H)]; lia. }
    assert (Hopen : exists o,
               ensure_page (map Some (cl ++ tail)) (List.length cl)
               = map Some (cl ++ [o])
               /\ Forall Q o
               /\ 0 <= page_size_sum o < R
               /\ placed = Z.of_nat (List.length cl) * R + page_size_sum o).
    { destruct Hshape as [[-> Hplaced]|(o & -> & Ho & Hplaced)].
      - exists []. rewrite app_nil_r, ensure_page_closed.
        repeat split; try constructor.
        + unfold page_size_sum; cbn; lia.
        + unfold page_size_sum; cbn; lia.
        + unfold page_size_sum; cbn; lia.
      - exists o. rewrite ensure_page_open.
        repeat split; try lia.
        apply Forall_app in HQs as [_ H]. now inversion H. }
    destruct Hopen as (o & -> & HQo & Ho & Hplaced).
    assert (HQcl : Forall (Forall Q) cl).
    { now apply Forall_app in HQs as [H _]. }
    assert (Hmod : placed mod R = page_size_sum o).
    { rewrite Hplaced, Z.add_comm, Z_mod_plus_full. apply Z.mod_small. lia. }
    rewrite Hmod in Hroom, Hspread. fold n in Hspread.
    pose proof (ceil_div_bounds (page_size_sum o + T) R HR) as Hsp.
    rewrite Hspread in Hsp.
    assert (Hpages : Js.ceil_div (placed + T) R
                     = Z.of_nat (List.length cl) + n).
    { rewrite Hplaced, <- Z.add_assoc, ceil_div_add_pages by exact HR.
      now rewrite Hspread. }
    rewrite Hpages in Hla.
    cbn [slice_loop].
    pose proof (iteration_open R cp item T n 0 0 cl o Hcl ltac:(lia)) as Hit.
    cbv zeta in Hit. rewrite Hit. clear Hit.
    cbn [Js.bind].
    rewrite Z.min_l by lia.
    set (s := mkSlice (fst item) (snd item) 0 (R - page_size_sum o)).
    assert (HQs' : Forall (Forall Q) (cl ++ [o ++ [s]])).
    { apply Forall_app. split; [exact HQcl|].
      constructor; [|constructor].
      apply Forall_app. split; [exact HQo|].
      constructor; [|constructor]. apply HQ; lia. }
    assert (Hfull' : Forall (fun p => page_size_sum p = R) (cl ++ [o ++ [s]])).
    { apply Forall_app. split; [exact Hfull|].
      constructor; [|constructor].
      rewrite page_size_sum_snoc. cbn [size s]. lia. }
    assert (Hlen' : List.length (cl ++ [o ++ [s]]) = S (List.length cl)).
    { rewrite length_app. cbn [List.length]. lia. }
    destruct (Nat.eq_dec k 0) as [->|Hk0].
    + eexists. split.
      { destruct (_ >? _); reflexivity. }
      exists (cl ++ [o ++ [s]]), [].
      cbn [pages pageNumber]. rewrite app_nil_r.
      repeat split; try assumption.
      * now rewrite Hlen'.
      * left. split; [reflexivity|]. rewrite Hlen'. nia.
    + assert (Hkr : R <= Z.of_nat k * R) by nia.
      replace (Z.of_nat (List.length cl + 1) >? cp + 10) with false
        by (symmetry; rewrite Z.gtb_ltb; apply Z.ltb_ge; lia).
      rewrite <- Hlen'.
      destruct (loop_closed item T n HQ k (0 + 1)
                  (0 + (R - page_size_sum o)) (cl ++ [o ++ [s]]))
        as (w' & Hrun & Hpl); try assumption; try lia.
      * intros H. now apply app_eq_nil in H as [_ H].
      * exists w'. split; [exact Hrun|].
        replace (placed + T)
          with (Z.of_nat (List.length (cl ++ [o ++ [s]])) * R
                + (T - (0 + (R - page_size_sum o)))) by (rewrite Hlen'; lia).
        exact Hpl.
Qed.

(** The callback on a partition that shares the first page with the
    partitions before it. *)
Lemma callback_first_page (item : Partition) (T placed : Z) (w : walk) :
  (forall f z, 0 <= f -> 0 < z -> f + z <= T ->
               Q (mkSlice (fst item) (snd item) f z)) ->
  planned R Q placed w ->
  0 < T ->
  0 < placed ->
  placed + T <= R ->
  exists o,
    partition_callback R cp item (Some T) w = Js.Normal (mkWalk (map Some [o]) O)
    /\ Forall Q o
    /\ page_size_sum o = placed + T.
Proof.
  intros HQ Hpl HT Hplaced Hroom.
  destruct w as [pgs pn].
  destruct Hpl as (cl & tail & Hpages & Hpn & Hfull & HQs & Hshape).
  cbn [pages pageNumber] in Hpages, Hpn. subst pgs pn.
  assert (Hcl : cl = []).
  { destruct cl; [reflexivity|]. cbn [List.length] in Hshape.
    destruct Hshape as [[_ H]|(o & _ & Ho & H)]; nia. }
  subst cl. cbn [List.length app] in *.
  destruct Hshape as [[_ H]|(o & -> & Ho & Hsum)]; [lia|].
  assert (Hn : Js.ceil_div T R = 1) by (apply ceil_div_unique; lia).
  unfold partition_callback. cbn [pages pageNumber]. rewrite Hn.
  change (1 >? 0) with true. change (Z.to_nat 1) with 1%nat. cbv iota.
  pose proof (ensure_page_open [] o) as He.
  cbn [app List.length] in He. rewrite He. clear He.
  cbn [slice_loop].
  pose proof (iteration_first R cp item T 1 0 0 o) as Hit.
  cbv zeta in Hit. rewrite Hit. clear Hit.
  cbn [Js.bind Z.sub Z.opp Z.add Z.pos_sub Z.eqb].
  replace (T - 0 =? 0) with false by (symmetry; apply Z.eqb_neq; lia).
  replace (T - 0) with T by lia.
  rewrite Z.min_l by lia.
  replace (T =? R) with false by (symmetry; apply Z.eqb_neq; lia).
  cbn [orb].
  exists (o ++ [mkSlice (fst item) (snd item) 0 T]).
  split; [destruct (_ >? _); reflexivity|].
  split.
  - apply Forall_app. split.
    + inversion HQs; assumption.
    + constructor; [|constructor]. apply HQ; lia.
  - rewrite page_size_sum_snoc. cbn [size]. lia.
Qed.

End WalkFacts.

Section RebuildFacts.
Import Planner.

Variables (R cp : Z) (Q : PageSlice -> Prop).
Hypothesis HR : 0 < R.

Lemma fits_records_nonneg (ts : list Z) :
  forall placed, fits R placed ts = true -> 0 <= records_of ts.
Proof.
  induction ts as [|T ts IH]; intros placed Hfits; cbn [records_of fold_right];
    [lia|].
  cbn [fits] in Hfits.
  apply andb_true_iff in Hfits as [Hhead Hrest].
  apply andb_true_iff in Hhead as [HT _].
  apply Z.ltb_lt in HT. specialize (IH _ Hrest).
  unfold records_of in IH. lia.
Qed.

Lemma nth_error_skipn_head {A} (l : list A) (i : nat) (x : A) (rest : list A) :
  skipn i l = x :: rest ->
  nth_error l i = Some x /\ skipn (S i) l = rest.
Proof.
  revert l. induction i as [|i IH]; intros [|y l] H; cbn in H;
    try discriminate.
  - inversion H. subst. split; reflexivity.
  - apply IH in H as [H1 H2]. split; assumption.
Qed.

(** The walk over partitions of known totals that fit. *)
Lemma forEach_fits (totals : list Z) :
  forall (items : list Partition) (ts : list Z) (index : nat)
         (placed : Z) (w : walk),
    skipn index totals = ts ->
    List.length items = List.length ts ->
    (forall j item T,
        nth_error items j = Some item -> nth_error ts j = Some T ->
        forall f z, 0 <= f -> 0 < z -> f + z <= T ->
                    Q (mkSlice (fst item) (snd item) f z)) ->
    fits R placed ts = true ->
    Js.ceil_div (placed + records_of ts) R <= cp + 11 ->
    planned R Q placed w ->
    exists w',
      forEach_partition R cp totals index items w = Js.Normal w'
      /\ planned_end R Q (placed + records_of ts) w'.
Proof.
  induction items as [|item items IH];
    intros ts index placed w Hskip Hlen HQ Hfits Hla Hpl.
  - destruct ts; [|discriminate].
    exists w. split; [reflexivity|]. left.
    cbn [records_of fold_right]. now rewrite Z.add_0_r.
  - destruct ts as [|T ts]; [discriminate|].
    apply nth_error_skipn_head in Hskip as [Hnth Hskip].
    cbn [fits] in Hfits.
    apply andb_true_iff in Hfits as [Hhead Hrest].
    apply andb_true_iff in Hhead as [HT Hfit].
    apply Z.ltb_lt in HT.
    pose proof (fits_records_nonneg _ _ Hrest) as Hnn.
    cbn [records_of fold_right] in Hla |- *. fold (records_of ts) in Hla |- *.
    assert (HQ0 : forall f z, 0 <= f -> 0 < z -> f + z <= T ->
                              Q (mkSlice (fst item) (snd item) f z)).
    { intros f z. apply (HQ O item T); reflexivity. }
    assert (Hnext : forall w1,
               planned R Q (placed + T) w1 ->
               exists w',
                 forEach_partition R cp totals (S index) items w1
                 = Js.Normal w'
                 /\ planned_end R Q (placed + (T + records_of ts)) w').
    { intros w1 Hpl1.
      destruct (IH ts (S index) (placed + T) w1) as (w' & Hrun & Hpl');
        try assumption.
      - cbn [List.length] in Hlen. lia.
      - intros j it T' Hj HT'. apply (HQ (S j) it T'); assumption.
      - now rewrite <- Z.add_assoc.
      - exists w'. split; [exact Hrun|]. now rewrite Z.add_assoc. }
    cbn [forEach_partition]. rewrite Hnth.
    assert (Hcases :
              (placed = 0
               \/ (R <= placed
                   /\ R - placed mod R <= T
                   /\ Js.ceil_div (placed mod R + T) R = Js.ceil_div T R))
              \/ (0 < placed /\ placed + T < R)
              \/ (0 < placed /\ placed + T = R /\ ts = [])).
    { apply orb_true_iff in Hfit as [Hfit|Hfit].
      - apply orb_true_iff in Hfit as [Hfit|Hfit].
        + apply orb_true_iff in Hfit as [Hfit|Hfit].
          * left. left. now apply Z.eqb_eq.
          * apply Z.ltb_lt in Hfit.
            destruct (Z.eq_dec placed 0) as [->|Hne]; [left; now left|].
            destruct (Z_lt_le_dec placed 0) as [Hneg|Hpos].
            -- (* no records can be missing: [placed] is a count *)
               destruct Hpl as (cl & tail & _ & _ & _ & _ & Hshape).
               destruct Hshape as [[_ H]|(o & _ & Ho & H)]; nia.
            -- right. left. lia.
        + apply andb_true_iff in Hfit as [Heq Hlast].
          apply Z.eqb_eq in Heq.
          destruct (Z.eq_dec placed 0) as [->|Hne]; [left; now left|].
          destruct Hpl as (cl & tail & Hp1 & Hp2 & Hp3 & Hp4 & Hshape).
          assert (0 <= placed)
            by (destruct Hshape as [[_ H]|(o & _ & Ho & H)]; nia).
          right. right. repeat split; try lia.
          now destruct ts.
      - left. right. apply andb_true_iff in Hfit as [H H3].
        apply andb_true_iff in H as [H1 H2].
        apply Z.leb_le in H1, H2. apply Z.eqb_eq in H3. auto. }
    destruct Hcases as [Hfit'|[[Hpos Hpart]|(Hpos & Hfull & ->)]].
    + destruct (callback_fits R cp Q HR item T placed w) as (w1 & Hcb & Hpl1);
        try assumption.
      { eapply Z.le_trans; [|exact Hla].
        apply ceil_div_mono; [exact HR|lia]. }
      rewrite Hcb. cbn [Js.bind]. now apply Hnext.
    + destruct (callback_first_page R cp Q HR item T placed w)
        as (o & Hcb & HQo & Hsum); try assumption; try lia.
      rewrite Hcb. cbn [Js.bind]. apply Hnext.
      exists [], [o]. cbn [pages pageNumber app List.length].
      split; [reflexivity|]. split; [reflexivity|].
      split; [constructor|]. split; [now repeat constructor|].
      right. exists o. repeat split; lia.
    + destruct (callback_first_page R cp Q HR item T placed w)
        as (o & Hcb & HQo & Hsum); try assumption; try lia.
      rewrite Hcb. cbn [Js.bind].
      destruct items; [|discriminate].
      cbn [forEach_partition]. eexists. split; [reflexivity|].
      right. exists o. cbn [pages records_of fold_right].
      repeat split; try assumption; lia.
Qed.

End RebuildFacts.

Section PlanFacts.
Import Planner.

(** The rebuild on a partition list that fits, within the look-ahead. *)
Lemma rebuild_fits (R cp : Z) (Q : PageSlice -> Prop)
  (parts : list Partition) (totals : list Z) :
  0 < R ->
  List.length parts = List.length totals ->
  (forall j item T,
      nth_error parts j = Some item -> nth_error totals j = Some T ->
      forall f z, 0 <= f -> 0 < z -> f + z <= T ->
                  Q (mkSlice (fst item) (snd item) f z)) ->
  fits R 0 totals = true ->
  Js.ceil_div (records_of totals) R <= cp + 11 ->
  exists w,
    rebuild R cp parts totals = Js.Normal (pages w)
    /\ planned_end R Q (records_of totals) w.
Proof.
  intros HR Hlen HQ Hfits Hla.
  destruct (forEach_fits R cp Q HR totals parts totals O 0 (mkWalk [] O))
    as (w & Hrun & Hpl); try assumption; try reflexivity.
  - exists [], []. cbn [app map pages pageNumber List.length].
    split; [reflexivity|]. split; [reflexivity|].
    split; [constructor|]. split; [constructor|].
    left. split; reflexivity.
  - exists w. unfold rebuild. rewrite Hrun. split; [reflexivity|exact Hpl].
Qed.

Lemma refresh_rebuilds (R cp : Z) (pd : PartitionDetail) :
  Z.of_nat (List.length (paginations pd)) <= cp + 3 ->
  refreshPartitionPagination R cp pd
  = Js.bind (rebuild R cp (partitions pd) (partitionTotal pd))
      (fun pgs =>
         Js.Normal (mkDetail (partitions pd) (partitionTotal pd) pgs)).
Proof.
  intros Hdue. unfold refreshPartitionPagination.
  now replace (_ <=? _) with true by (symmetry; now apply Z.leb_le).
Qed.

Lemma disjoint_ascending_starts (parts : list Partition) :
  disjoint_ascending parts ->
  forall i j a b,
    nth_error parts i = Some a -> nth_error parts j = Some b ->
    fst a = fst b -> i = j.
Proof.
  intros [Hspan Hsorted].
  assert (Hlt : forall i j a b,
             (i < j)%nat -> nth_error parts i = Some a ->
             nth_error parts j = Some b -> fst a < fst b).
  { clear -Hspan Hsorted.
    induction Hsorted as [|x l Hl IH Hx]; intros i j a b Hij Hi Hj.
    - destruct i; discriminate.
    - inversion Hspan as [|? ? Hxs Hls]; subst.
      destruct j as [|j]; [lia|]. cbn in Hj.
      destruct i as [|i]; cbn in Hi.
      + inversion Hi; subst.
        apply nth_error_In in Hj.
        rewrite Forall_forall in Hx. specialize (Hx _ Hj). lia.
      + apply (IH Hls i j); [lia|assumption|assumption]. }
  intros i j a b Hi Hj Hab.
  destruct (Nat.lt_trichotomy i j) as [H|[H|H]]; [|exact H|].
  - specialize (Hlt _ _ _ _ H Hi Hj). lia.
  - specialize (Hlt _ _ _ _ H Hj Hi). lia.
Qed.

End PlanFacts.

(** C1, as amended. Take a partition list whose totals are all known and
    positive, such that every partition after the first either shares the
    first page with the partitions before it (together they leave it
    incomplete, or the last partition of all completes it exactly), or
    starts after at least one complete page, holds at least the records
    that the page open at its start still lacks, and spreads over
    [ceil(T / R)] pages ([Planner.fits]); let [N] be the sum of the totals
    and [R > 0], and let the plan lie within the look-ahead,
    [ceil(N / R) <= currentPage + 11]. Then a due rebuild yields exactly
    [ceil(N / R)] pages, each page but the last with slice sizes summing
    to [R], the last one to [N mod R], or to [R] when that is [0]. *)
Theorem C1_page_count :
  forall (R cp : Z) (pd : Planner.PartitionDetail),
    let N := Planner.records_of (Planner.partitionTotal pd) in
    0 < R ->
    Z.of_nat (List.length (Planner.paginations pd)) <= cp + 3 ->
    List.length (Planner.partitions pd)
    = List.length (Planner.partitionTotal pd) ->
    Planner.fits R 0 (Planner.partitionTotal pd) = true ->
    Js.ceil_div N R <= cp + 11 ->
    exists plan : list Planner.Page,
      Planner.refreshPartitionPagination R cp pd
      = Js.Normal
          (Planner.mkDetail (Planner.partitions pd)
             (Planner.partitionTotal pd) (map Some plan))
      /\ Z.of_nat (List.length plan) = Js.ceil_div N R
      /\ (forall i page,
             nth_error plan i = Some page ->
             (S i < List.length plan)%nat ->
             Planner.page_size_sum page = R)
      /\ (forall page,
             nth_error plan (List.length plan - 1) = Some page ->
             Planner.page_size_sum page
             = if N mod R =? 0 then R else N mod R).
Proof.
  intros R cp pd N HR Hdue Hlen Hfits Hla.
  destruct (rebuild_fits R cp (fun _ => True) (Planner.partitions pd)
              (Planner.partitionTotal pd) HR Hlen)
    as ([pgs pn] & Hrun & Hpl); try assumption; [trivial|].
  rewrite refresh_rebuilds, Hrun by exact Hdue.
  cbn [Planner.pages Js.bind].
  destruct Hpl as [(cl & tail & Hpages & _ & Hfull & _ & Hshape)
                  |(o & Hpages & _ & Hsum & HN)];
    cbn [Planner.pages] in Hpages; subst pgs.
  2:{ (* the first page, exactly completed *)
    exists [o]. fold N in HN. split; [reflexivity|].
    cbn [List.length]. repeat split.
    - symmetry. apply ceil_div_unique; lia.
    - intros i page _ Hi. lia.
    - intros page Hi. cbn in Hi. inversion Hi; subst page.
      rewrite HN, Z_mod_same_full. exact Hsum. }
  exists (cl ++ tail).
  split; [reflexivity|].
  fold N in Hshape.
  rewrite Forall_forall in Hfull.
  destruct Hshape as [[-> HN]|(o & -> & Ho & HN)].
  - rewrite app_nil_r. repeat split.
    + symmetry. apply ceil_div_unique; [exact HR|lia].
    + intros i page Hi _. apply Hfull. eapply nth_error_In, Hi.
    + intros page Hi.
      rewrite HN, Z_mod_mult. cbn [Z.eqb].
      apply Hfull. eapply nth_error_In, Hi.
  - rewrite length_app. cbn [List.length]. repeat split.
    + symmetry. apply ceil_div_unique; [exact HR|lia].
    + intros i page Hi Hlast.
      rewrite nth_error_app1 in Hi by lia.
      apply Hfull. eapply nth_error_In, Hi.
    + intros page Hi.
      replace (List.length cl + 1 - 1)%nat with (List.length cl) in Hi by lia.
      rewrite nth_error_app2, Nat.sub_diag in Hi by lia.
      cbn in Hi. inversion Hi; subst page.
      assert (Hmod : N mod R = Planner.page_size_sum o).
      { rewrite HN, Z.add_comm, Z_mod_plus_full. apply Z.mod_small. lia. }
      rewrite Hmod.
      now replace (Planner.page_size_sum o =? 0) with false
        by (symmetry; apply Z.eqb_neq; lia).
Qed.

Lemma C1_page_count_witness :
  let pd := Planner.mkDetail [(0, 1000); (1000, 2000)] [300; 300] [] in
  exists plan : list Planner.Page,
    Planner.refreshPartitionPagination 250 1 pd
    = Js.Normal
        (Planner.mkDetail [(0, 1000); (1000, 2000)] [300; 300]
           (map Some plan))
    /\ Z.of_nat (List.length plan) = Js.ceil_div 600 250
    /\ (forall i page,
           nth_error plan i = Some page ->
           (S i < List.length plan)%nat ->
           Planner.page_size_sum page = 250)
    /\ (forall page,
           nth_error plan (List.length plan - 1) = Some page ->
           Planner.page_size_sum page
           = if 600 mod 250 =? 0 then 250 else 600 mod 250).
Proof.
  apply (C1_page_count 250 1
           (Planner.mkDetail [(0, 1000); (1000, 2000)] [300; 300] []));
    [lia | cbn; lia | reflexivity | reflexivity | now vm_compute].
Defined.

(** C1 as stated fails by the bounded look-ahead: one partition of 3250
    records at 250 rows per page, viewed from page 1, is planned as 12
    pages, not 13. *)
Lemma C1_counterexample :
  let plan :=
    map (fun f => [Planner.mkSlice 0 1000 f 250])
      [0; 250; 500; 750; 1000; 1250; 1500; 1750; 2000; 2250; 2500; 2750] in
  Planner.refreshPartitionPagination 250 1
    (Planner.mkDetail [(0, 1000)] [3250] [])
  = Js.Normal (Planner.mkDetail [(0, 1000)] [3250] (map Some plan))
  /\ List.length plan = 12%nat
  /\ Js.ceil_div (Planner.records_of [3250]) 250 = 13.
Proof.
  repeat split.
Qed.

(** C2 as stated fails on a partition whose known total is [0]: the plan
    gives it a slice of [rowsPerPage] records. *)
Lemma C2_counterexample :
  let s := Planner.mkSlice 0 1000 0 250 in
  Planner.refreshPartitionPagination 250 1
    (Planner.mkDetail [(0, 1000)] [0] [])
  = Js.Normal (Planner.mkDetail [(0, 1000)] [0] [Some [s]])
  /\ nth_error [(0, 1000)] 0 = Some (Planner.startTime s, Planner.endTime s)
  /\ nth_error [0] 0 = Some 0
  /\ ~ (Planner.from s + Planner.size s <= 0).
Proof.
  cbn. repeat split. lia.
Qed.

(** The walk also leaves the partition where the page to complete asks
    for more than the partition holds: totals 250 and 100 give the second
    partition a slice of 250 records. On the first page nothing is
    completed at all: totals 100 and 200 share one page of 300. *)
Example top_off_overruns_partition :
  Planner.rebuild 250 1 [(0, 1000); (1000, 2000)] [250; 100]
  = Js.Normal
      [Some [Planner.mkSlice 0 1000 0 250];
       Some [Planner.mkSlice 1000 2000 0 250]].
Proof. reflexivity. Qed.

Example first_page_overfull :
  Planner.rebuild 250 1 [(0, 1000); (1000, 2000)] [100; 200]
  = Js.Normal
      [Some [Planner.mkSlice 0 1000 0 100; Planner.mkSlice 1000 2000 0 200]].
Proof. reflexivity. Qed.

(** The scenario of two partitions of 300 records each. *)
Example two_partitions_of_300 :
  Planner.rebuild 250 1 [(0, 1000); (1000, 2000)] [300; 300]
  = Js.Normal
      [Some [Planner.mkSlice 0 1000 0 250];
       Some [Planner.mkSlice 0 1000 250 50;
             Planner.mkSlice 1000 2000 0 200];
       Some [Planner.mkSlice 1000 2000 200 100]].
Proof. reflexivity. Qed.

Section ZeroTotalFacts.
Import Planner.

Lemma callback_zero_total (R cp : Z) (item : Partition) (w : walk) :
  0 < R ->
  partition_callback R cp item (Some 0) w
  = provisional_slice R item
      (mkWalk (ensure_page (pages w) (pageNumber w)) (pageNumber w)).
Proof.
  intros HR. unfold partition_callback, Js.ceil_div.
  cbn [Z.opp]. rewrite Z.div_0_l by lia. reflexivity.
Qed.

Lemma callback_unknown_total (R cp : Z) (item : Partition) (w : walk) :
  0 < R ->
  partition_callback R cp item (Some (-1)) w
  = provisional_slice R item
      (mkWalk (ensure_page (pages w) (pageNumber w)) (pageNumber w)).
Proof.
  intros HR. unfold partition_callback, Js.ceil_div.
  cbn [Z.opp Pos.succ].
  pose proof (Z.div_pos 1 R ltac:(lia) HR) as Hdiv.
  now replace (- (1 / R) >? 0) with false
    by (symmetry; rewrite Z.gtb_ltb; apply Z.ltb_ge; lia).
Qed.

Lemma forEach_zero_as_unknown (R cp : Z) (totals : list Z) :
  0 < R ->
  forall items index w,
    forEach_partition R cp totals index items w
    = forEach_partition R cp (map Planner.as_unknown totals) index items w.
Proof.
  intros HR. induction items as [|item items IH]; intros index w;
    [reflexivity|].
  cbn [forEach_partition]. rewrite nth_error_map.
  assert (Hcb : partition_callback R cp item (nth_error totals index) w
                = partition_callback R cp item
                    (option_map Planner.as_unknown (nth_error totals index)) w).
  { destruct (nth_error totals index) as [total|]; [|reflexivity].
    cbn [option_map]. unfold as_unknown.
    destruct (Z.eqb_spec total 0) as [->|_]; [|reflexivity].
    now rewrite callback_zero_total, callback_unknown_total. }
  rewrite <- Hcb.
  destruct (partition_callback R cp item (nth_error totals index) w);
    [cbn [Js.bind]; apply IH|reflexivity].
Qed.

End ZeroTotalFacts.

(** C7 as stated fails: with totals [0] and [300] the empty partition
    holds the first page of the plan, and the plan differs from the one
    built without it. *)
Lemma C7_counterexample :
  Planner.rebuild 250 1 [(0, 1000); (1000, 2000)] [0; 300]
  = Js.Normal
      [Some [Planner.mkSlice 0 1000 0 250];
       Some [Planner.mkSlice 1000 2000 0 250];
       Some [Planner.mkSlice 1000 2000 250 50]]
  /\ Planner.rebuild 250 1 [(1000, 2000)] [300]
     = Js.Normal
         [Some [Planner.mkSlice 1000 2000 0 250];
          Some [Planner.mkSlice 1000 2000 250 50]]
  /\ Planner.rebuild 250 1 [(0, 1000); (1000, 2000)] [0; 300]
     <> Planner.rebuild 250 1 [(1000, 2000)] [300].
Proof.
  repeat split. discriminate.
Qed.

Lemma C4_accumulation_witness :
  let r0 :=
    Executor.mkResults (Some [Executor.mkHit 9 "a"]) (Some 300) (Some 0)
      (Some 250) (Some 3) (Some 4) None None
      (Planner.mkDetail [] [] []) 1%nat in
  let st := Executor.with_results Executor.fresh r0 in
  let q := Executor.mkQuery "select * from logs" 0 1000 250 50 None in
  let res :=
    Executor.mkData [Executor.mkHit 8 "b"] 300 250 50 5 7 None None in
  let r' :=
    Executor.queryResults (fst (Executor.accumulate st q true res)) in
  Executor.scan_size r' = Some 5
  /\ Executor.took r' = Some 7
  /\ Executor.r_from r' = Some 250
  /\ Executor.hits r'
     = option_map (fun old => old ++ [Executor.mkHit 8 "b"])
         (Some [Executor.mkHit 9 "a"]).
Proof.
  intros r0 st q res r'.
  apply (proj1 (C4_accumulation st q true res)). cbn. lia.
Defined.

(** C4 as stated fails on a continuation response: with 3 and 4 held as
    [scan_size] and [took], a response with [from = 250] carrying 5 and 7
    leaves 5 and 7, not 8 and 11; and on the first slice of a page such
    a response replaces the held hits instead of appending to them. *)
Lemma C4_counterexample :
  let r0 :=
    Executor.mkResults (Some [Executor.mkHit 9 "a"]) (Some 300) (Some 0)
      (Some 250) (Some 3) (Some 4) None None
      (Planner.mkDetail [] [] []) 1%nat in
  let st := Executor.with_results Executor.fresh r0 in
  let q := Executor.mkQuery "select * from logs" 0 1000 250 50 None in
  let res :=
    Executor.mkData [Executor.mkHit 8 "b"] 300 250 50 5 7 None None in
  let appended :=
    Executor.queryResults (fst (Executor.accumulate st q true res)) in
  let first :=
    Executor.queryResults (fst (Executor.accumulate st q false res)) in
  Executor.scan_size appended <> Some (3 + 5)
  /\ Executor.took appended <> Some (4 + 7)
  /\ Executor.hits first
     <> Some ([Executor.mkHit 9 "a"] ++ [Executor.mkHit 8 "b"]).
Proof.
  cbn. repeat split; discriminate.
Qed.

(** C3, the code at the failing input. Two partitions, 250 rows per
    page, page 1. The first answer reports 100 records for the first
    partition, so the rebuilt first page continues into the second
    partition. The request for that slice is decided by
    [partitionTotal[currentPage - 1]], the total of the first partition,
    now known: it goes out without [track_total_hits], although the total
    of its own partition is still [-1]. *)
Theorem C3_flag_follows_page_index :
  let st0 :=
    Executor.getQueryPartitions_then Executor.fresh
      (Executor.mkPartitionData 350 [(0, 1000); (1000, 2000)]) in
  let q0 := Executor.mkQuery "select * from logs" 0 2000 0 250 None in
  let res1 :=
    Executor.mkData [Executor.mkHit 900 "a"; Executor.mkHit 800 "b"]
      100 0 250 1 2 None None in
  let run :=
    Executor.getQueryData_page Executor.sample_t
      Executor.sample_logsErrorMessage [Executor.Resolved res1] st0 q0 in
  Planner.partitionTotal
    (Executor.partitionDetail (Executor.queryResults (fst run)))
  = [100; -1]
  /\ snd run
     = [Executor.mkQuery "select * from logs" 0 1000 0 250 (Some true);
        Executor.mkQuery "select * from logs" 1000 2000 0 150 None].
Proof.
  cbn. split; reflexivity.
Qed.

(** The flag is likewise sent where it is not needed: on page 2 of the
    plan for totals 300 and [-1], the first slice belongs to the first
    partition, whose total is known, and carries the flag because
    [partitionTotal[1]] is [-1]. *)
Example flag_on_known_partition :
  let pd :=
    Planner.mkDetail [(0, 1000); (1000, 2000)] [300; -1]
      [Some [Planner.mkSlice 0 1000 0 250];
       Some [Planner.mkSlice 0 1000 250 50;
             Planner.mkSlice 1000 2000 0 200]] in
  let st :=
    Executor.mkSearch true false EmptyString (Some 0) EmptyString 250 2 0
      true false false
      (Executor.mkResults (Some []) (Some 300) (Some 0) (Some 250) (Some 1)
         (Some 2) None None pd 1%nat) in
  let q0 := Executor.mkQuery "select * from logs" 0 2000 250 250 None in
  snd (Executor.getQueryData_page Executor.sample_t
         Executor.sample_logsErrorMessage [] st q0)
  = [Executor.mkQuery "select * from logs" 0 1000 250 50 (Some true)].
Proof. reflexivity. Qed.

(** A failure on the second slice of a page: the hits of the first slice
    stay, the spinner goes off, the transport message is shown, and the
    answer that would have followed is never asked for. *)
Example failure_on_second_slice :
  let st0 :=
    Executor.getQueryPartitions_then Executor.fresh
      (Executor.mkPartitionData 350 [(0, 1000); (1000, 2000)]) in
  let q0 := Executor.mkQuery "select * from logs" 0 2000 0 250 None in
  let res1 :=
    Executor.mkData [Executor.mkHit 900 "a"; Executor.mkHit 800 "b"]
      100 0 250 1 2 None None in
  let run :=
    Executor.getQueryData_page Executor.sample_t
      Executor.sample_logsErrorMessage
      [Executor.Resolved res1;
       Executor.Rejected (Executor.mkError None "Network Error");
       Executor.Resolved res1] st0 q0 in
  Executor.hits (Executor.queryResults (fst run))
  = Some [Executor.mkHit 900 "a"; Executor.mkHit 800 "b"]
  /\ Executor.loading (fst run) = false
  /\ Executor.errorMsg (fst run) = "Network Error"
  /\ List.length (snd run) = 2%nat.
Proof. cbn. repeat split. Qed.

(** ** The rebuild never throws *)

Section TotalityFacts.
Import Planner.

Lemma get_in_range {A} (l : list A) (i : nat) :
  Js.get (map Some l) i = nth_error l i.
Proof.
  unfold Js.get. rewrite nth_error_map. now destruct (nth_error l i).
Qed.

Lemma set_in_range {A} (l : list A) (i : nat) (x : A) :
  (i < List.length l)%nat ->
  Js.set (map Some l) i x = map Some (firstn i l ++ x :: skipn (S i) l).
Proof.
  intros Hi. unfold Js.set. rewrite length_map.
  destruct (Nat.ltb_spec i (List.length l)); [|lia].
  now rewrite map_app, firstn_map, skipn_map.
Qed.

Lemma ensure_page_solid (pl : list Page) (n : nat) :
  (n <= List.length pl)%nat ->
  exists pl', ensure_page (map Some pl) n = map Some pl'
              /\ (n < List.length pl')%nat.
Proof.
  intros Hn. unfold ensure_page. rewrite get_in_range.
  destruct (nth_error pl n) as [p|] eqn:Hp.
  - exists pl. split; [reflexivity|]. apply nth_error_Some. congruence.
  - apply nth_error_None in Hp.
    assert (n = List.length pl) as -> by lia.
    exists (pl ++ [[]]). rewrite set_at_length. split; [reflexivity|].
    rewrite length_app. cbn. lia.
Qed.

Lemma push_slice_solid (pl : list Page) (n : nat) (s : PageSlice) :
  (n < List.length pl)%nat ->
  exists pl', push_slice (map Some pl) n s = Js.Normal (map Some pl')
              /\ List.length pl' = List.length pl.
Proof.
  intros Hn. unfold push_slice. rewrite get_in_range.
  destruct (nth_error pl n) as [p|] eqn:Hp.
  - rewrite set_in_range by exact Hn.
    eexists. split; [reflexivity|].
    rewrite length_app. cbn [List.length].
    rewrite length_firstn, length_skipn. lia.
  - apply nth_error_None in Hp. lia.
Qed.

Lemma last_page_size_solid (pl : list Page) :
  pl <> [] -> exists z, last_page_size (map Some pl) = Js.Normal z.
Proof.
  intros Hpl. destruct (exists_last Hpl) as (l & p & ->).
  rewrite last_page_size_snoc. eauto.
Qed.

Lemma slice_iteration_solid (R cp : Z) (item : Partition) (T n i f : Z)
  (w : walk) :
  solid w ->
  exists w' f' stop,
    slice_iteration R cp item T n i w f = Js.Normal (w', f', stop)
    /\ solid w'.
Proof.
  intros (pl & Hpages & Hpn). destruct w as [pgs pn].
  cbn [pages pageNumber] in *. subst pgs.
  unfold slice_iteration. cbn [pages pageNumber].
  destruct (ensure_page_solid pl pn Hpn) as (pl1 & He & Hlt).
  destruct (Nat.ltb_spec 0 pn) as [Hpos|Hzero].
  - destruct (last_page_size_solid pl) as (z & ->).
    { intros ->. cbn in Hpn. lia. }
    cbn [Js.bind fst snd]. rewrite He.
    match goal with
    | |- context [push_slice _ _ ?s] =>
        destruct (push_slice_solid pl1 pn s Hlt) as (pl2 & -> & Hlen)
    end.
    cbn [Js.bind]. do 3 eexists. split; [reflexivity|].
    exists pl2. cbn [pages pageNumber]. split; [reflexivity|].
    destruct (_ || _); lia.
  - cbn [Js.bind fst snd]. rewrite He.
    match goal with
    | |- context [push_slice _ _ ?s] =>
        destruct (push_slice_solid pl1 pn s Hlt) as (pl2 & -> & Hlen)
    end.
    cbn [Js.bind]. do 3 eexists. split; [reflexivity|].
    exists pl2. cbn [pages pageNumber]. split; [reflexivity|].
    destruct (_ || _); lia.
Qed.

Lemma slice_loop_solid (R cp : Z) (item : Partition) (T n : Z) :
  forall (k : nat) (i f : Z) (w : walk),
    solid w ->
    exists w', slice_loop R cp item T n k i w f = Js.Normal w' /\ solid w'.
Proof.
  induction k as [|k IH]; intros i f w Hw; [now exists w|].
  cbn [slice_loop].
  destruct (slice_iteration_solid R cp item T n i f w Hw)
    as (w1 & f1 & stop & -> & Hw1).
  cbn [Js.bind]. destruct stop; [now exists w1|]. now apply IH.
Qed.

Lemma provisional_slice_solid (R : Z) (item : Partition) (pl : list Page)
  (n : nat) :
  (n < List.length pl)%nat ->
  exists w',
    provisional_slice R item (mkWalk (map Some pl) n) = Js.Normal w'
    /\ solid w'.
Proof.
  intros Hn. unfold provisional_slice. cbn [pages pageNumber].
  destruct (last_page_size_solid pl) as (z & ->).
  { intros ->. cbn in Hn. lia. }
  cbn [Js.bind].
  match goal with
  | |- context [push_slice _ _ ?s] =>
      destruct (push_slice_solid pl n s Hn) as (pl2 & -> & Hlen)
  end.
  cbn [Js.bind]. eexists. split; [reflexivity|].
  exists pl2. cbn [pages pageNumber]. split; [reflexivity|lia].
Qed.

Lemma partition_callback_solid (R cp : Z) (item : Partition)
  (total : option Z) (w : walk) :
  solid w ->
  exists w', partition_callback R cp item total w = Js.Normal w' /\ solid w'.
Proof.
  intros (pl & Hpages & Hpn). destruct w as [pgs pn].
  cbn [pages pageNumber] in *. subst pgs.
  unfold partition_callback. cbn [pages pageNumber].
  destruct (ensure_page_solid pl pn Hpn) as (pl1 & -> & Hlt).
  destruct total as [t|]; [|now apply provisional_slice_solid].
  destruct (_ >? _); [|now apply provisional_slice_solid].
  apply slice_loop_solid. exists pl1. cbn [pages pageNumber].
  split; [reflexivity|lia].
Qed.

Lemma forEach_partition_solid (R cp : Z) (totals : list Z) :
  forall (items : list Partition) (index : nat) (w : walk),
    solid w ->
    exists w',
      forEach_partition R cp totals index items w = Js.Normal w' /\ solid w'.
Proof.
  induction items as [|item items IH]; intros index w Hw; [now exists w|].
  cbn [forEach_partition].
  destruct (partition_callback_solid R cp item (nth_error totals index) w Hw)
    as (w1 & -> & Hw1).
  cbn [Js.bind]. now apply IH.
Qed.

(** Whatever the partitions, the totals, the page size and the current
    page, the rebuild returns, with a plan that has no hole. *)
Lemma rebuild_returns (R cp : Z) (parts : list Partition) (totals : list Z) :
  exists plan : list Page,
    rebuild R cp parts totals = Js.Normal (map Some plan).
Proof.
  unfold rebuild.
  destruct (forEach_partition_solid R cp totals parts O (mkWalk [] O))
    as (w & -> & pl & Hpl & _).
  - exists []. cbn. split; [reflexivity|lia].
  - cbn [Js.bind]. exists pl. now rewrite Hpl.
Qed.

End TotalityFacts.

(* ===================================================================== *)
(** * Part III: further properties *)
(* ===================================================================== *)

(** ** What every rebuild keeps *)

Section TightFacts.
Import Planner PlanShape.

Variables (R cp : Z).

Lemma concat_snoc (l : list Page) (x : Page) :
  List.concat (l ++ [x]) = List.concat l ++ x.
Proof.
  unfold Page in *. rewrite concat_app. cbn. now rewrite app_nil_r.
Qed.

(** After [ensure_page] the page to push to is the last one. *)
Lemma ensure_page_tight (w : walk) (pl : list Page) :
  tight w pl ->
  exists l0 o,
    ensure_page (pages w) (pageNumber w) = map Some (l0 ++ [o])
    /\ List.length l0 = pageNumber w
    /\ List.concat (l0 ++ [o]) = List.concat pl
    /\ List.length (l0 ++ [o])
       = (if (pageNumber w <? List.length pl)%nat
          then List.length pl else S (List.length pl)).
Proof.
  intros [Hpages Hlen]. rewrite Hpages.
  destruct (Nat.ltb_spec (pageNumber w) (List.length pl)) as [Hlt|Hge].
  - assert (Hne : pl <> []) by (intros ->; cbn in Hlt; lia).
    destruct (exists_last Hne) as (l0 & o & ->).
    rewrite length_app in Hlt, Hlen. cbn [List.length] in Hlt, Hlen.
    assert (Hpn : pageNumber w = List.length l0) by lia.
    exists l0, o. rewrite Hpn, ensure_page_open.
    repeat split.
  - assert (Hpn : pageNumber w = List.length pl) by lia.
    exists pl, []. rewrite Hpn, ensure_page_closed.
    split; [reflexivity|]. split; [reflexivity|]. split.
    + rewrite (concat_snoc pl []). apply app_nil_r.
    + rewrite length_app. cbn [List.length]. lia.
Qed.

Lemma last_page_size_tight (w : walk) (pl : list Page) :
  tight w pl -> (0 < pageNumber w)%nat ->
  exists z, last_page_size (pages w) = Js.Normal z.
Proof.
  intros [Hpages Hlen] Hpos. rewrite Hpages.
  apply last_page_size_solid. intros ->. cbn in Hlen. lia.
Qed.

(** One turn of the loop, whatever the input: it returns, and its slice
    goes to the end of the plan read page by page. *)
Lemma slice_iteration_tight (item : Partition) (T n i f : Z)
  (w : walk) (pl : list Page) :
  tight w pl ->
  exists w' pl' f' s,
    slice_iteration R cp item T n i w f
    = Js.Normal (w', f', Z.of_nat (List.length pl') >? cp + 10)
    /\ tight w' pl'
    /\ List.concat pl' = List.concat pl ++ [s]
    /\ startTime s = fst item /\ endTime s = snd item /\ from s = f
    /\ List.length pl'
       = (if (pageNumber w <? List.length pl)%nat
          then List.length pl else S (List.length pl)).
Proof.
  intros Htight.
  destruct (ensure_page_tight w pl Htight) as (l0 & o & He & Hl0 & Hcat & Hlen).
  unfold slice_iteration.
  assert (Hsizes : exists sizes,
             (if (0 <? pageNumber w)%nat
              then
                lastPartitionSize <- last_page_size (pages w) ;;
                Js.Normal
                  (lastPartitionSize,
                   if negb (lastPartitionSize =? R)
                   then R - lastPartitionSize
                   else
                     if i =? n - 1
                     then if T - f =? 0 then R else T - f
                     else R)
              else
                Js.Normal
                  (0,
                   if i =? n - 1
                   then if T - f =? 0 then R else T - f
                   else R))
             = Js.Normal sizes).
  { destruct (Nat.ltb_spec 0 (pageNumber w)) as [Hpos|_]; [|eauto].
    destruct (last_page_size_tight w pl Htight Hpos) as (z & ->).
    cbn [Js.bind]. eauto. }
  destruct Hsizes as (sizes & ->). cbn [Js.bind].
  rewrite He, <- Hl0, push_slice_open. cbn [Js.bind].
  rewrite length_map.
  match goal with
  | |- context [Js.Normal (mkWalk (map Some (l0 ++ [o ++ [?x]])) ?p, ?f1, _)] =>
      exists (mkWalk (map Some (l0 ++ [o ++ [x]])) p), (l0 ++ [o ++ [x]]), f1, x
  end.
  split; [reflexivity|].
  split; [|split; [|split; [|split; [|split]]]]; try reflexivity.
  - split; [reflexivity|]. cbn [pages pageNumber].
    rewrite length_app. cbn [List.length]. destruct (_ || _); lia.
  - rewrite concat_snoc, <- Hcat, concat_snoc. now rewrite app_assoc.
  - rewrite Hl0, <- Hlen, !length_app. reflexivity.
Qed.

(** The loop of one partition. *)
Lemma slice_loop_tight (item : Partition) (T n : Z) :
  forall (k : nat) (i f : Z) (w : walk) (pl : list Page),
    tight w pl ->
    exists w' pl' g,
      slice_loop R cp item T n k i w f = Js.Normal w'
      /\ tight w' pl'
      /\ List.concat pl' = List.concat pl ++ g
      /\ Forall (fun s => startTime s = fst item /\ endTime s = snd item) g
      /\ ((1 <= k)%nat -> exists s g', g = s :: g' /\ from s = f)
      /\ (((pageNumber w < List.length pl)%nat
           \/ Z.of_nat (List.length pl) <= cp + 10) ->
          Z.of_nat (List.length pl')
          <= Z.max (Z.of_nat (List.length pl)) (cp + 11)).
Proof.
  induction k as [|k IH]; intros i f w pl Htight.
  - exists w, pl, []. cbn [slice_loop]. rewrite app_nil_r.
    repeat split; try apply Htight; try constructor; lia.
  - cbn [slice_loop].
    destruct (slice_iteration_tight item T n i f w pl Htight)
      as (w1 & pl1 & f1 & s & -> & Htight1 & Hcat1 & Hs1 & Hs2 & Hs3 & Hlen1).
    cbn [Js.bind].
    assert (Hgrow : (pageNumber w < List.length pl)%nat
                    \/ Z.of_nat (List.length pl) <= cp + 10 ->
                    Z.of_nat (List.length pl1)
                    <= Z.max (Z.of_nat (List.length pl)) (cp + 11)).
    { intros Hhead. rewrite Hlen1.
      destruct (Nat.ltb_spec (pageNumber w) (List.length pl)); lia. }
    destruct (Z.gtb_spec (Z.of_nat (List.length pl1)) (cp + 10)) as [Hstop|Hgo].
    + exists w1, pl1, [s]. repeat split; try apply Htight1; try assumption.
      * repeat constructor; assumption.
      * intros _. now exists s, [].
    + destruct (IH (i + 1) f1 w1 pl1 Htight1)
        as (w' & pl' & g & Hrun & Htight' & Hcat' & Hg & _ & Hbound).
      exists w', pl', (s :: g). repeat split; try apply Htight'; try assumption.
      * rewrite Hcat', Hcat1, <- app_assoc. reflexivity.
      * constructor; [split; assumption|exact Hg].
      * intros _. now exists s, g.
      * intros Hhead. specialize (Hgrow Hhead).
        specialize (Hbound (or_intror Hgo)). lia.
Qed.

(** The [else] branch on a page that exists. *)
Lemma provisional_slice_tight (item : Partition) (l0 : list Page) (o : Page) :
  exists s,
    provisional_slice R item (mkWalk (map Some (l0 ++ [o])) (List.length l0))
    = Js.Normal
        (mkWalk (map Some (l0 ++ [o ++ [s]])) (S (List.length l0)))
    /\ startTime s = fst item /\ endTime s = snd item /\ from s = 0.
Proof.
  unfold provisional_slice. cbn [pages pageNumber].
  rewrite last_page_size_snoc. cbn [Js.bind].
  rewrite push_slice_open. cbn [Js.bind].
  eexists. split; [reflexivity|]. repeat split.
Qed.

(** The callback, whatever the total. *)
Lemma partition_callback_tight (item : Partition) (total : option Z)
  (w : walk) (pl : list Page) :
  tight w pl ->
  exists w' pl' g,
    partition_callback R cp item total w = Js.Normal w'
    /\ tight w' pl'
    /\ List.concat pl' = List.concat pl ++ g
    /\ group_of item g
    /\ Z.of_nat (List.length pl')
       <= Z.max (Z.of_nat (List.length pl) + 1) (cp + 11).
Proof.
  intros Htight.
  destruct (ensure_page_tight w pl Htight) as (l0 & o & He & Hl0 & Hcat & Hlen).
  assert (Hlen1 : (List.length (l0 ++ [o]) <= S (List.length pl))%nat).
  { rewrite Hlen. destruct (_ <? _)%nat; lia. }
  assert (Hprov : exists w' pl' g,
             provisional_slice R item
               (mkWalk (ensure_page (pages w) (pageNumber w)) (pageNumber w))
             = Js.Normal w'
             /\ tight w' pl'
             /\ List.concat pl' = List.concat pl ++ g
             /\ group_of item g
             /\ Z.of_nat (List.length pl')
                <= Z.max (Z.of_nat (List.length pl) + 1) (cp + 11)).
  { rewrite He, <- Hl0.
    destruct (provisional_slice_tight item l0 o) as (s & -> & Hs1 & Hs2 & Hs3).
    exists (mkWalk (map Some (l0 ++ [o ++ [s]])) (S (List.length l0))),
      (l0 ++ [o ++ [s]]), [s].
    split; [reflexivity|]. split; [|split; [|split]].
    - split; [reflexivity|]. cbn [pageNumber].
      rewrite length_app. cbn [List.length]. lia.
    - rewrite concat_snoc, <- Hcat, concat_snoc. now rewrite app_assoc.
    - split; [repeat constructor; assumption|now exists s, []].
    - rewrite length_app in Hlen1 |- *. cbn [List.length] in Hlen1 |- *. lia. }
  unfold partition_callback.
  destruct total as [t|]; [|exact Hprov].
  destruct (Z.gtb_spec (Js.ceil_div t R) 0) as [Hpos|_]; [|exact Hprov].
  assert (Htight1 : tight (mkWalk (ensure_page (pages w) (pageNumber w))
                             (pageNumber w)) (l0 ++ [o])).
  { split; [exact He|]. cbn [pageNumber].
    rewrite length_app. cbn [List.length]. lia. }
  destruct (slice_loop_tight item t (Js.ceil_div t R)
              (Z.to_nat (Js.ceil_div t R)) 0 0 _ _ Htight1)
    as (w' & pl' & g & Hrun & Htight' & Hcat' & Hg & Hhd & Hbound).
  exists w', pl', g. split; [exact Hrun|]. split; [exact Htight'|].
  split; [now rewrite Hcat', Hcat|]. split.
  - split; [exact Hg|]. apply Hhd. lia.
  - cbn [pageNumber] in Hbound.
    assert (Z.of_nat (List.length pl')
            <= Z.max (Z.of_nat (List.length (l0 ++ [o]))) (cp + 11)).
    { apply Hbound. left. rewrite length_app. cbn [List.length]. lia. }
    lia.
Qed.

(** The walk over all partitions. *)
Lemma forEach_partition_tight (totals : list Z) :
  forall (items : list Partition) (index : nat) (w : walk) (pl : list Page),
    tight w pl ->
    exists w' pl' groups,
      forEach_partition R cp totals index items w = Js.Normal w'
      /\ tight w' pl'
      /\ List.concat pl' = List.concat pl ++ List.concat groups
      /\ Forall2 group_of items groups
      /\ Z.of_nat (List.length pl')
         <= Z.max (Z.of_nat (List.length pl)) (cp + 11)
            + Z.of_nat (List.length items).
Proof.
  induction items as [|item items IH]; intros index w pl Htight.
  - exists w, pl, []. cbn [forEach_partition List.concat List.length].
    rewrite app_nil_r. repeat split; try apply Htight; try constructor; lia.
  - cbn [forEach_partition].
    destruct (partition_callback_tight item (nth_error totals index) w pl Htight)
      as (w1 & pl1 & g & -> & Htight1 & Hcat1 & Hg & Hlen1).
    cbn [Js.bind].
    destruct (IH (S index) w1 pl1 Htight1)
      as (w' & pl' & groups & Hrun & Htight' & Hcat' & Hgroups & Hlen').
    exists w', pl', (g :: groups).
    split; [exact Hrun|]. split; [exact Htight'|]. split; [|split].
    + cbn [List.concat]. now rewrite Hcat', Hcat1, <- app_assoc.
    + now constructor.
    + cbn [List.length]. lia.
Qed.

End TightFacts.

Section ZeroTotalWalk.
Import Planner PlanShape.

(** The [else] branch on a page that exists, slice and all. *)
Lemma provisional_slice_exact (R : Z) (item : Partition) (l0 : list Page)
  (o : Page) :
  provisional_slice R item (mkWalk (map Some (l0 ++ [o])) (List.length l0))
  = Js.Normal
      (mkWalk
         (map Some
            (l0 ++ [o ++ [mkSlice (fst item) (snd item) 0
                            (if page_size_sum o =? R
                             then R else R - page_size_sum o)]]))
         (S (List.length l0))).
Proof.
  unfold provisional_slice. cbn [pages pageNumber].
  rewrite last_page_size_snoc. cbn [Js.bind].
  rewrite push_slice_open. cbn [Js.bind].
  now destruct (page_size_sum o =? R).
Qed.

Lemma forEach_partition_app (R cp : Z) (totals : list Z)
  (items rest : list Partition) :
  forall (index : nat) (w : walk),
    forEach_partition R cp totals index (items ++ rest) w
    = (w' <- forEach_partition R cp totals index items w ;;
       forEach_partition R cp totals (index + List.length items) rest w').
Proof.
  induction items as [|item items IH]; intros index w;
    cbn [app forEach_partition List.length Js.bind].
  - now rewrite Nat.add_0_r.
  - destruct (partition_callback R cp item (nth_error totals index) w)
      as [w1|m]; cbn [Js.bind]; [|reflexivity].
    rewrite IH. now rewrite Nat.add_succ_r.
Qed.

Lemma firstn_snoc {A} (l : list A) (k : nat) (x : A) :
  nth_error l k = Some x ->
  firstn (S k) l = firstn k l ++ [x] /\ List.length (firstn k l) = k.
Proof.
  revert k. induction l as [|y l IH]; intros [|k] Hk; cbn in Hk;
    try discriminate.
  - inversion Hk; subst. now split.
  - destruct (IH k Hk) as [H1 H2]. split.
    + change (firstn (S (S k)) (y :: l)) with (y :: firstn (S k) l).
      now rewrite H1.
    + change (firstn (S k) (y :: l)) with (y :: firstn k l).
      cbn [List.length]. now rewrite H2.
Qed.

End ZeroTotalWalk.

(** C7, as amended. In a plan rebuild a partition whose known total is
    [0] is not skipped: it is planned exactly like a partition whose total
    is still unknown, so that the rebuilt plan is the plan built with
    every total [0] replaced by [-1]. When the walk reaches it, with the
    pages [closed] behind it and [current] the page it stands on (empty
    when that page had to be created), it adds to [current] one slice
    with the partition's span, [from = 0] and the records that
    [current] lacks for [rowsPerPage] (all [rowsPerPage] when [current]
    holds exactly that many), and moves on to the next page. *)
Theorem C7_zero_total_like_unknown :
  forall (R cp : Z) (parts : list Planner.Partition) (totals : list Z),
    0 < R ->
    Planner.rebuild R cp parts totals
    = Planner.rebuild R cp parts (map Planner.as_unknown totals)
    /\ forall (k : nat) (item : Planner.Partition),
        nth_error parts k = Some item ->
        nth_error totals k = Some 0 ->
        exists (w : Planner.walk) (closed : list Planner.Page)
               (current : Planner.Page),
          Planner.forEach_partition R cp totals O (firstn k parts)
            (Planner.mkWalk [] O)
          = Js.Normal w
          /\ Planner.ensure_page (Planner.pages w) (Planner.pageNumber w)
             = map Some (closed ++ [current])
          /\ Planner.pageNumber w = List.length closed
          /\ Planner.forEach_partition R cp totals O (firstn (S k) parts)
               (Planner.mkWalk [] O)
             = Js.Normal
                 (Planner.mkWalk
                    (map Some
                       (closed
                        ++ [current
                            ++ [Planner.mkSlice (fst item) (snd item) 0
                                  (if Planner.page_size_sum current =? R
                                   then R
                                   else R - Planner.page_size_sum current)]]))
                    (S (List.length closed))).
Proof.
  intros R cp parts totals HR. split.
  - unfold Planner.rebuild. now rewrite forEach_zero_as_unknown.
  - intros k item Hitem Htotal.
    destruct (forEach_partition_tight R cp totals (firstn k parts) O
                (Planner.mkWalk [] O) [])
      as (w & pl & groups & Hrun & Htight & _).
    { split; [reflexivity|]. cbn. lia. }
    destruct (ensure_page_tight w pl Htight)
      as (closed & current & Hens & Hlen & _).
    exists w, closed, current.
    split; [exact Hrun|]. split; [exact Hens|].
    split; [now symmetry|].
    destruct (firstn_snoc parts k item Hitem) as [-> Hk].
    rewrite forEach_partition_app, Hrun, Hk. cbn [Js.bind Nat.add].
    cbn [Planner.forEach_partition]. rewrite Htotal.
    rewrite callback_zero_total by exact HR.
    rewrite Hens, <- Hlen, provisional_slice_exact. reflexivity.
Qed.

Lemma C7_zero_total_like_unknown_witness :
  Planner.rebuild 250 1 [(0, 1000); (1000, 2000); (2000, 3000)] [100; 0; 300]
  = Planner.rebuild 250 1 [(0, 1000); (1000, 2000); (2000, 3000)]
      (map Planner.as_unknown [100; 0; 300])
  /\ exists (w : Planner.walk) (closed : list Planner.Page)
            (current : Planner.Page),
      Planner.forEach_partition 250 1 [100; 0; 300] O
        (firstn 1 [(0, 1000); (1000, 2000); (2000, 3000)])
        (Planner.mkWalk [] O)
      = Js.Normal w
      /\ Planner.ensure_page (Planner.pages w) (Planner.pageNumber w)
         = map Some (closed ++ [current])
      /\ Planner.pageNumber w = List.length closed
      /\ Planner.forEach_partition 250 1 [100; 0; 300] O
           (firstn 2 [(0, 1000); (1000, 2000); (2000, 3000)])
           (Planner.mkWalk [] O)
         = Js.Normal
             (Planner.mkWalk
                (map Some
                   (closed
                    ++ [current
                        ++ [Planner.mkSlice 1000 2000 0
                              (if Planner.page_size_sum current =? 250
                               then 250
                               else 250 - Planner.page_size_sum current)]]))
                (S (List.length closed))).
Proof.
  destruct (C7_zero_total_like_unknown 250 1
              [(0, 1000); (1000, 2000); (2000, 3000)] [100; 0; 300])
    as [Hsame Hslice]; [lia|].
  split; [exact Hsame|].
  exact (Hslice 1%nat (1000, 2000) eq_refl eq_refl).
Defined.


(** ** Partitions that keep their slices *)

Section RoomyFacts.
Import Planner Roomy.

Variables (R cp : Z) (Q : PageSlice -> Prop).
Hypothesis HR : 0 < R.

(** One turn of the loop on an open page, not the first, that holds
    exactly [rowsPerPage] records: nothing is topped off. *)
Lemma iteration_full (item : Partition) (T n i f : Z)
  (cl : list Page) (o : Page) :
  cl <> [] ->
  page_size_sum o = R ->
  let rs := if i =? n - 1 then (if T - f =? 0 then R else T - f) else R in
  slice_iteration R cp item T n i
    (mkWalk (map Some (cl ++ [o])) (List.length cl)) f
  = Js.Normal
      (mkWalk
         (map Some (cl ++ [o ++ [mkSlice (fst item) (snd item) f
                                   (Z.min rs R)]]))
         (if (rs =? R) || (R + rs =? R)
          then S (List.length cl) else List.length cl),
       f + rs,
       Z.of_nat (List.length cl + 1) >? cp + 10).
Proof.
  intros Hcl Ho rs. unfold slice_iteration.
  cbn [pages pageNumber].
  replace (0 <? List.length cl)%nat with true
    by (symmetry; apply Nat.ltb_lt; destruct cl; [contradiction|cbn; lia]).
  rewrite last_page_size_snoc, Ho. cbn [Js.bind fst snd].
  rewrite Z.eqb_refl. cbn [negb].
  rewrite ensure_page_open, push_slice_open. cbn [Js.bind].
  fold rs. rewrite length_map, !length_app. cbn [List.length].
  reflexivity.
Qed.

(** The fill once all turns but the first of [turns] are left. *)
Lemma rest_next (pages_so_far turns last : Z) :
  2 <= turns ->
  pages_so_far + 1 <= cp + 10 ->
  rest R cp pages_so_far turns last
  = rest R cp (pages_so_far + 1) (turns - 1) last.
Proof.
  intros Hturns Hroom. unfold rest.
  destruct (Z.min_spec turns (cp + 11 - pages_so_far)) as [[? ->]|[? ->]];
    destruct (Z.min_spec (turns - 1) (cp + 11 - (pages_so_far + 1)))
      as [[? ->]|[? ->]];
    repeat match goal with
           | |- context [?a <? ?b] => destruct (Z.ltb_spec a b)
           end; try lia; f_equal; lia.
Qed.

(** The turns of the loop that start on closed pages, the look-ahead
    included: each of them but the last fills a page of its own, the last
    one takes the rest, or a page of it. *)
Lemma loop_rest (item : Partition) (T n : Z) :
  (forall f z, 0 <= f -> 0 < z -> f + z <= T ->
               Q (mkSlice (fst item) (snd item) f z)) ->
  forall (k : nat) (i f : Z) (cl : list Page) (lp : Page),
    page_size_sum lp = R ->
    Forall (Forall Q) (cl ++ [lp]) ->
    0 <= f ->
    (1 <= k)%nat ->
    (Z.of_nat k - 1) * R < T - f ->
    i + Z.of_nat k = n ->
    Z.of_nat (List.length (cl ++ [lp])) <= cp + 10 ->
    exists w',
      slice_loop R cp item T n k i
        (mkWalk (map Some (cl ++ [lp])) (List.length (cl ++ [lp]))) f
      = Js.Normal w'
      /\ filled Q
           (rest R cp (Z.of_nat (List.length (cl ++ [lp]))) (Z.of_nat k)
              (T - f - (Z.of_nat k - 1) * R))
           w'.
Proof.
  intros HQ.
  induction k as [|k IH]; intros i f cl lp Hlp HQs Hf Hk Hm Hi Hla; [lia|].
  cbn [slice_loop].
  pose proof (iteration_closed R cp item T n i f cl lp Hlp) as Hit.
  cbv zeta in Hit. rewrite Hit. clear Hit.
  cbn [Js.bind].
  set (len := List.length (cl ++ [lp])) in *.
  destruct (Nat.eq_dec k 0) as [->|Hk0].
  - (* the last turn *)
    replace (i =? n - 1) with true by (symmetry; apply Z.eqb_eq; lia).
    replace (T - f =? 0) with false by (symmetry; apply Z.eqb_neq; lia).
    change (Z.of_nat 1) with 1 in *.
    replace (T - f - (1 - 1) * R) with (T - f) by lia.
    assert (Hrest : rest R cp (Z.of_nat len) 1 (T - f)
                    = mkFill false
                        (if T - f <? R then T - f
                         else if T - f =? R then 0 else R)
                        (Z.of_nat len + 1)).
    { unfold rest. rewrite Z.min_l by lia.
      now replace (1 <? 1) with false by reflexivity. }
    rewrite Hrest.
    eexists. split.
    { destruct (_ >? _); reflexivity. }
    assert (HQn : Q (mkSlice (fst item) (snd item) f (Z.min (T - f) R))).
    { apply HQ; lia. }
    exists ((cl ++ [lp])
            ++ [[mkSlice (fst item) (snd item) f (Z.min (T - f) R)]]).
    cbn [pages pageNumber first_page held page_count].
    split; [reflexivity|].
    split; [apply Forall_app; split; [exact HQs|repeat constructor; exact HQn]|].
    split; [rewrite length_app; cbn [List.length]; fold len; lia|].
    destruct (Z.ltb_spec (T - f) R) as [Hlt|Hge].
    + split; [lia|].
      replace (T - f =? R) with false by (symmetry; apply Z.eqb_neq; lia).
      replace (R + (T - f) =? R) with false
        by (symmetry; apply Z.eqb_neq; lia).
      cbn [orb]. split; [subst len; rewrite length_app; cbn; lia|].
      right. split; [lia|].
      eexists _, _. split; [reflexivity|]. split; [reflexivity|].
      unfold page_size_sum. cbn. lia.
    + destruct (Z.eqb_spec (T - f) R) as [Heq|Hne].
      * split; [lia|]. cbn [orb].
        split; [lia|]. left. split; [reflexivity|].
        rewrite length_app. cbn [List.length]. fold len. lia.
      * split; [lia|].
        replace (R + (T - f) =? R) with false
          by (symmetry; apply Z.eqb_neq; lia).
        cbn [orb]. split; [subst len; rewrite length_app; cbn; lia|].
        right. split; [lia|].
        eexists _, _. split; [reflexivity|]. split; [reflexivity|].
        unfold page_size_sum. cbn. lia.
  - (* a turn that fills a page *)
    replace (i =? n - 1) with false by (symmetry; apply Z.eqb_neq; lia).
    rewrite Z.eqb_refl, Z.min_id. cbn [orb].
    assert (Hkr : R <= Z.of_nat k * R) by nia.
    rewrite Nat2Z.inj_succ in Hm, Hi |- *. unfold Z.succ in Hm, Hi |- *.
    assert (HQn : Q (mkSlice (fst item) (snd item) f R)).
    { apply HQ; lia. }
    assert (HQs' : Forall (Forall Q)
                     ((cl ++ [lp]) ++ [[mkSlice (fst item) (snd item) f R]])).
    { apply Forall_app. split; [exact HQs|repeat constructor; exact HQn]. }
    assert (Hlen' : List.length
                      ((cl ++ [lp]) ++ [[mkSlice (fst item) (snd item) f R]])
                    = S len).
    { rewrite length_app. cbn [List.length]. fold len. lia. }
    destruct (Z.gtb_spec (Z.of_nat (len + 1)) (cp + 10)) as [Hstop|Hgo].
    + (* the look-ahead ends the loop *)
      eexists. split; [reflexivity|].
      assert (Hrest : rest R cp (Z.of_nat len) (Z.of_nat k + 1)
                        (T - f - (Z.of_nat k + 1 - 1) * R)
                      = mkFill false 0 (Z.of_nat len + 1)).
      { unfold rest. rewrite Z.min_r by lia.
        replace (cp + 11 - Z.of_nat len <? Z.of_nat k + 1) with true
          by (symmetry; apply Z.ltb_lt; lia).
        f_equal. lia. }
      rewrite Hrest.
      eexists. cbn [pages pageNumber first_page held page_count].
      split; [reflexivity|]. split; [exact HQs'|].
      split; [rewrite Hlen'; lia|]. split; [lia|].
      split; [lia|]. left. split; [reflexivity|exact Hlen'].
    + rewrite rest_next by lia.
      replace (Z.of_nat k + 1 - 1) with (Z.of_nat k) by lia.
      rewrite <- Hlen'.
      destruct (IH (i + 1) (f + R) (cl ++ [lp])
                  [mkSlice (fst item) (snd item) f R])
        as (w' & Hrun & Hfill); try lia.
      * unfold page_size_sum. cbn. lia.
      * exact HQs'.
      * unfold Page in *. rewrite Hlen'. lia.
      * exists w'. split; [exact Hrun|].
        unfold Page in *. rewrite Hlen' in Hfill.
        replace (Z.of_nat (S len)) with (Z.of_nat len + 1) in Hfill by lia.
        replace (T - (f + R) - (Z.of_nat k - 1) * R)
          with (T - f - Z.of_nat k * R) in Hfill by lia.
        exact Hfill.
Qed.


(** The walk once the callback has made sure of its page. *)
Lemma filled_ensure (f : fill) (w : walk) :
  filled Q f w ->
  exists cl o,
    ensure_page (pages w) (pageNumber w) = map Some (cl ++ [o])
    /\ pageNumber w = List.length cl
    /\ page_size_sum o = held f
    /\ Forall (Forall Q) (cl ++ [o])
    /\ Z.of_nat (List.length (cl ++ [o])) = entered f
    /\ (if first_page f then cl = [] else cl <> [])
    /\ 0 <= held f.
Proof.
  intros (pl & Hpages & HQs & Hcount & Hheld & Hshape).
  destruct w as [pgs pn]. cbn [pages pageNumber] in *. subst pgs.
  unfold entered. rewrite Hcount.
  destruct (first_page f).
  - destruct Hshape as [-> [[-> Hh]|(o & -> & Ho)]].
    + exists [], []. pose proof (ensure_page_closed []) as He.
      cbn [List.length app] in He |- *. rewrite He.
      repeat split; try reflexivity; try (symmetry; exact Hh);
        try exact Hheld.
      repeat constructor.
    + exists [], o. pose proof (ensure_page_open [] o) as He.
      cbn [List.length app] in He |- *. rewrite He.
      repeat split; try reflexivity; try exact Ho; try exact Hheld.
      exact HQs.
  - destruct Hshape as [Hpn [[Hh Hlen]|(Hh & cl & o & -> & Hlen & Ho)]].
    + exists pl, []. rewrite <- Hlen, ensure_page_closed.
      rewrite Hh. cbn [Z.ltb Z.compare].
      repeat split; try reflexivity; try lia.
      * apply Forall_app. split; [exact HQs|repeat constructor].
      * rewrite length_app. cbn [List.length]. lia.
      * intros ->. cbn in Hlen. lia.
    + exists cl, o. rewrite <- Hlen, ensure_page_open.
      replace (0 <? held f) with true by (symmetry; apply Z.ltb_lt; lia).
      repeat split; try reflexivity; try assumption.
      intros ->. cbn in Hlen. lia.
Qed.

(** The walk after a slice that closed its page. *)
Lemma filled_closed (cl : list Page) (lp : Page) :
  Forall (Forall Q) (cl ++ [lp]) ->
  filled Q (mkFill false 0 (Z.of_nat (List.length (cl ++ [lp]))))
    (mkWalk (map Some (cl ++ [lp])) (S (List.length cl))).
Proof.
  intros HQs. exists (cl ++ [lp]).
  cbn [pages pageNumber first_page held page_count].
  repeat split; try assumption; try lia.
  left. split; [reflexivity|]. rewrite length_app. cbn [List.length]. lia.
Qed.

Lemma Forall_snoc_page (cl : list Page) (o : Page) (s : PageSlice) :
  Forall (Forall Q) (cl ++ [o]) -> Q s ->
  Forall (Forall Q) (cl ++ [o ++ [s]]).
Proof.
  intros HQs Hs. apply Forall_app in HQs as [Hcl Ho].
  apply Forall_app. split; [exact Hcl|].
  inversion Ho as [|? ? Ho' _]; subst.
  repeat constructor. apply Forall_app. split; [exact Ho'|now constructor].
Qed.

(** What is left of the loop after a first slice that closed its page. *)
Lemma tail_closed (item : Partition) (T n f1 : Z) (cl : list Page)
  (lp : Page) :
  (forall f z, 0 <= f -> 0 < z -> f + z <= T ->
               Q (mkSlice (fst item) (snd item) f z)) ->
  Forall (Forall Q) (cl ++ [lp]) ->
  0 <= f1 ->
  1 <= n ->
  (n - 2) * R < T - f1 ->
  ((cp + 10 <? Z.of_nat (List.length cl + 1)) || (n =? 1) = false ->
   page_size_sum lp = R) ->
  exists w',
    (if Z.of_nat (List.length cl + 1) >? cp + 10
     then Js.Normal (mkWalk (map Some (cl ++ [lp])) (S (List.length cl)))
     else slice_loop R cp item T n (Z.to_nat (n - 1)) (0 + 1)
            (mkWalk (map Some (cl ++ [lp])) (S (List.length cl))) f1)
    = Js.Normal w'
    /\ filled Q
         (if (cp + 10 <? Z.of_nat (List.length cl + 1)) || (n =? 1)
          then mkFill false 0 (Z.of_nat (List.length cl + 1))
          else rest R cp (Z.of_nat (List.length cl + 1)) (n - 1)
                 (T - f1 - (n - 2) * R))
         w'.
Proof.
  intros HQ HQs Hf1 Hn Hm Hlp.
  assert (Hlen : List.length (cl ++ [lp]) = (List.length cl + 1)%nat)
    by (rewrite length_app; reflexivity).
  destruct (Z.gtb_spec (Z.of_nat (List.length cl + 1)) (cp + 10))
    as [Hstop|Hgo].
  - replace (cp + 10 <? Z.of_nat (List.length cl + 1)) with true
      by (symmetry; apply Z.ltb_lt; lia).
    cbn [orb]. eexists. split; [reflexivity|].
    rewrite <- Hlen. now apply filled_closed.
  - replace (cp + 10 <? Z.of_nat (List.length cl + 1)) with false in *
      by (symmetry; apply Z.ltb_ge; lia).
    cbn [orb] in *.
    destruct (Z.eqb_spec n 1) as [->|Hn1].
    + change (Z.to_nat (1 - 1)) with O. cbn [slice_loop].
      eexists. split; [reflexivity|].
      rewrite <- Hlen. now apply filled_closed.
    + specialize (Hlp eq_refl).
      replace (S (List.length cl)) with (List.length (cl ++ [lp])) by lia.
      destruct (loop_rest item T n HQ (Z.to_nat (n - 1)) (0 + 1) f1 cl lp)
        as (w' & Hrun & Hfill); try assumption; try lia.
      exists w'. split; [exact Hrun|].
      rewrite Hlen in Hfill. rewrite Z2Nat.id in Hfill by lia.
      replace (T - f1 - (n - 1 - 1) * R) with (T - f1 - (n - 2) * R)
        in Hfill by lia.
      exact Hfill.
Qed.

(** The callback on a partition that keeps its slices. *)
Lemma callback_roomy (item : Partition) (T : Z) (f f' : fill) (w : walk) :
  (0 <= T -> forall fr z, 0 <= fr -> 0 < z -> fr + z <= T ->
             Q (mkSlice (fst item) (snd item) fr z)) ->
  (T < 0 -> forall z, Q (mkSlice (fst item) (snd item) 0 z)) ->
  filled Q f w ->
  after R cp f T = Some f' ->
  exists w',
    partition_callback R cp item (Some T) w = Js.Normal w'
    /\ filled Q f' w'.
Proof.
  intros HQ HQu Hfill Hafter.
  destruct (filled_ensure f w Hfill)
    as (cl & o & Hens & Hpn & Ho & HQs & Hlen & Hcl & Hheld).
  unfold partition_callback. cbv zeta. rewrite Hens, Hpn.
  unfold after in Hafter. cbv zeta in Hafter. rewrite <- Hlen in Hafter.
  rewrite length_app in Hafter. cbn [List.length] in Hafter.
  clear Hlen Hens Hpn Hfill.
  pose proof (ceil_div_bounds T R HR) as Hb.
  destruct (Z.ltb_spec T 0) as [Hneg|Hpos].
  { (* unknown total *)
    inversion Hafter; subst f'.
    replace (Js.ceil_div T R >? 0) with false
      by (symmetry; rewrite Z.gtb_ltb; apply Z.ltb_ge; nia).
    rewrite provisional_slice_exact.
    eexists. split; [reflexivity|].
    pose proof (filled_closed cl
                  (o ++ [mkSlice (fst item) (snd item) 0
                           (if page_size_sum o =? R
                            then R else R - page_size_sum o)])) as Hc.
    rewrite !length_app in Hc. apply Hc.
    apply Forall_snoc_page; [exact HQs|]. now apply HQu. }
  destruct (Z.eqb_spec T 0) as [->|HT0]; [discriminate|].
  specialize (HQ Hpos). clear HQu.
  set (n := Js.ceil_div T R) in *.
  assert (Hn : 1 <= n) by nia.
  replace (n >? 0) with true
    by (symmetry; rewrite Z.gtb_ltb; apply Z.ltb_lt; lia).
  replace (Z.to_nat n) with (S (Z.to_nat (n - 1))) by lia.
  cbn [slice_loop].
  assert (Hnominal : (if 0 =? n - 1
                      then if T - 0 =? 0 then R else T - 0
                      else R)
                     = if T <? R then T else R).
  { replace (T - 0) with T by lia.
    replace (T =? 0) with false by (symmetry; apply Z.eqb_neq; lia).
    destruct (Z.eqb_spec 0 (n - 1)), (Z.ltb_spec T R); nia. }
  destruct (first_page f) eqn:Hfirst.
  - (* on the first page *)
    subst cl. cbn [app List.length Nat.add] in *.
    pose proof (iteration_first R cp item T n 0 0 o) as Hit.
    cbv zeta in Hit. rewrite Hit, Hnominal. clear Hit. cbn [Js.bind].
    destruct (Z.ltb_spec T R) as [Hlt|Hge].
    + (* less than a page: added to the first page *)
      inversion Hafter; subst f'.
      rewrite Z.min_l by lia.
      replace (T =? R) with false by (symmetry; apply Z.eqb_neq; lia).
      replace (0 + T =? R) with false by (symmetry; apply Z.eqb_neq; lia).
      cbn [orb].
      replace (Z.to_nat (n - 1)) with O by nia. cbn [slice_loop].
      eexists. split; [destruct (_ >? _); reflexivity|].
      eexists. cbn [pages pageNumber first_page held page_count].
      split; [reflexivity|].
      split; [apply (Forall_snoc_page [] o); [exact HQs|apply HQ; lia]|].
      split; [reflexivity|]. split; [lia|].
      split; [reflexivity|]. right. eexists. split; [reflexivity|].
      rewrite page_size_sum_snoc. cbn [size]. lia.
    + (* a page or more: the first slice closes the first page *)
      rewrite Z.eqb_refl, Z.min_id. cbn [orb].
      destruct (tail_closed item T n (0 + R) []
                  (o ++ [mkSlice (fst item) (snd item) 0 R]) HQ)
        as (w' & Hrun & Hfill'); try lia.
      { apply (Forall_snoc_page [] o); [exact HQs|apply HQ; lia]. }
      { cbn [List.length Nat.add]. intros Hone. rewrite Hone in Hafter.
        rewrite page_size_sum_snoc. cbn [size].
        destruct (Z.eqb_spec (held f) 0); [lia|discriminate]. }
      cbn [app List.length Nat.add] in Hrun, Hfill'.
      exists w'. split; [exact Hrun|].
      destruct ((cp + 10 <? Z.of_nat 1) || (n =? 1)).
      * now inversion Hafter; subst f'.
      * destruct (held f =? 0); [|discriminate].
        inversion Hafter; subst f'.
        now replace (T - (n - 1) * R) with (T - (0 + R) - (n - 2) * R)
          by lia.
  - (* after the first page *)
    destruct (Z.ltb_spec (held f) R) as [Hroom|Hfull].
    + (* the first slice takes what the page lacks *)
      destruct (Z.ltb_spec T (R - held f)) as [|Henough]; [discriminate|].
      pose proof (iteration_open R cp item T n 0 0 cl o Hcl) as Hit.
      cbv zeta in Hit. rewrite Hit by lia. clear Hit. cbn [Js.bind].
      rewrite Ho, Z.min_l by lia.
      assert (HQ1 : Forall (Forall Q)
                      (cl ++ [o ++ [mkSlice (fst item) (snd item) 0
                                      (R - held f)]])).
      { apply Forall_snoc_page; [exact HQs|apply HQ; lia]. }
      destruct (tail_closed item T n (0 + (R - held f)) cl
                  (o ++ [mkSlice (fst item) (snd item) 0 (R - held f)]) HQ)
        as (w' & Hrun & Hfill'); try assumption; try lia.
      { intros _. rewrite page_size_sum_snoc. cbn [size]. lia. }
      exists w'. split; [exact Hrun|].
      destruct ((cp + 10 <? Z.of_nat (List.length cl + 1)) || (n =? 1)).
      * now inversion Hafter; subst f'.
      * inversion Hafter; subst f'.
        now replace (T - (n - 1) * R + held f)
          with (T - (0 + (R - held f)) - (n - 2) * R) by lia.
    + destruct (Z.eqb_spec (held f) R) as [Hexact|]; [|discriminate].
      (* a page of exactly [R] records left open: no top-off *)
      pose proof (iteration_full item T n 0 0 cl o Hcl) as Hit.
      cbv zeta in Hit. rewrite Hit, Hnominal by lia. clear Hit.
      cbn [Js.bind].
      destruct (Z.ltb_spec T R) as [Hlt|Hge].
      * inversion Hafter; subst f'.
        rewrite Z.min_l by lia.
        replace (T =? R) with false by (symmetry; apply Z.eqb_neq; lia).
        replace (R + T =? R) with false by (symmetry; apply Z.eqb_neq; lia).
        cbn [orb].
        replace (Z.to_nat (n - 1)) with O by nia. cbn [slice_loop].
        eexists. split; [destruct (_ >? _); reflexivity|].
        eexists. cbn [pages pageNumber first_page held page_count].
        split; [reflexivity|].
        split; [apply Forall_snoc_page; [exact HQs|apply HQ; lia]|].
        split; [rewrite !length_app; cbn [List.length]; lia|].
        split; [lia|].
        split; [destruct cl; [contradiction|cbn; lia]|].
        right. split; [lia|].
        eexists _, _. split; [reflexivity|]. split; [reflexivity|].
        rewrite page_size_sum_snoc. cbn [size]. lia.
      * rewrite Z.eqb_refl, Z.min_id. cbn [orb].
        destruct (tail_closed item T n (0 + R) cl
                    (o ++ [mkSlice (fst item) (snd item) 0 R]) HQ)
          as (w' & Hrun & Hfill'); try lia.
        { apply Forall_snoc_page; [exact HQs|apply HQ; lia]. }
        { intros Hone. rewrite Hone in Hafter. discriminate. }
        exists w'. split; [exact Hrun|].
        destruct ((cp + 10 <? Z.of_nat (List.length cl + 1)) || (n =? 1));
          [|discriminate].
        now inversion Hafter; subst f'.
Qed.


(** The walk over a list of partitions that keep their slices. *)
Lemma forEach_roomy (totals : list Z) :
  forall (items : list Partition) (ts : list Z) (index : nat)
         (f : fill) (w : walk),
    skipn index totals = ts ->
    List.length items = List.length ts ->
    (forall j item T,
        nth_error items j = Some item -> nth_error ts j = Some T ->
        (0 <= T -> forall fr z, 0 <= fr -> 0 < z -> fr + z <= T ->
                   Q (mkSlice (fst item) (snd item) fr z))
        /\ (T < 0 -> forall z, Q (mkSlice (fst item) (snd item) 0 z))) ->
    roomy R cp f ts = true ->
    filled Q f w ->
    exists w' f',
      forEach_partition R cp totals index items w = Js.Normal w'
      /\ filled Q f' w'.
Proof.
  induction items as [|item items IH];
    intros ts index f w Hskip Hlen HQ Hroomy Hfill.
  - exists w, f. split; [reflexivity|exact Hfill].
  - destruct ts as [|T ts]; [discriminate|].
    apply nth_error_skipn_head in Hskip as [Hnth Hskip].
    cbn [roomy] in Hroomy.
    destruct (after R cp f T) as [f1|] eqn:Hafter; [|discriminate].
    destruct (HQ O item T eq_refl eq_refl) as [HQk HQu].
    destruct (callback_roomy item T f f1 w HQk HQu Hfill Hafter)
      as (w1 & Hcb & Hfill1).
    cbn [forEach_partition]. rewrite Hnth, Hcb. cbn [Js.bind].
    apply (IH ts (S index) f1 w1); try assumption.
    + cbn [List.length] in Hlen. lia.
    + intros j it T' Hj HT'. apply (HQ (S j) it T'); assumption.
Qed.

(** *** What a partition that is not roomy gets *)

(** One turn of the loop when every page so far is closed and the last
    one does not hold [rowsPerPage] records: the slice is what that page
    lacks, on a page of its own. *)
Lemma iteration_overfull (item : Partition) (T n i f : Z)
  (cl : list Page) (lp : Page) :
  page_size_sum lp <> R ->
  slice_iteration R cp item T n i
    (mkWalk (map Some (cl ++ [lp])) (List.length (cl ++ [lp]))) f
  = Js.Normal
      (mkWalk
         (map Some ((cl ++ [lp])
                    ++ [[mkSlice (fst item) (snd item) f
                           (Z.min (R - page_size_sum lp) R)]]))
         (S (List.length (cl ++ [lp]))),
       f + (R - page_size_sum lp),
       Z.of_nat (List.length (cl ++ [lp]) + 1) >? cp + 10).
Proof.
  intros Hlp. unfold slice_iteration.
  cbn [pages pageNumber].
  replace (0 <? List.length (cl ++ [lp]))%nat with true
    by (symmetry; apply Nat.ltb_lt; rewrite length_app; cbn; lia).
  rewrite last_page_size_snoc. cbn [Js.bind fst snd].
  replace (page_size_sum lp =? R) with false
    by (symmetry; now apply Z.eqb_neq).
  cbn [negb].
  rewrite ensure_page_closed, push_slice_open. cbn [Js.bind app].
  rewrite length_map, !length_app. cbn [List.length].
  replace (page_size_sum lp + (R - page_size_sum lp) =? R) with true
    by (symmetry; apply Z.eqb_eq; lia).
  now rewrite orb_true_r.
Qed.

(** A slice of the plan is still there after the rest of the loop. *)
Lemma after_turn_keeps (item : Partition) (T n : Z) (k : nat) (i f : Z)
  (w : walk) (pl : list Page) (s : PageSlice) (stop : bool) :
  PlanShape.tight w pl ->
  In s (List.concat pl) ->
  exists w' pl',
    (if stop then Js.Normal w else slice_loop R cp item T n k i w f)
    = Js.Normal w'
    /\ PlanShape.tight w' pl'
    /\ In s (List.concat pl').
Proof.
  intros Htight Hs. destruct stop.
  - now exists w, pl.
  - destruct (slice_loop_tight R cp item T n k i f w pl Htight)
      as (w' & pl' & g & Hrun & Htight' & Hcat & _).
    exists w', pl'. split; [exact Hrun|]. split; [exact Htight'|].
    rewrite Hcat. apply in_or_app. now left.
Qed.

Lemma in_last_page (cl : list Page) (o : Page) (s : PageSlice) :
  In s (List.concat (cl ++ [o ++ [s]])).
Proof.
  rewrite concat_snoc. apply in_or_app. right.
  apply in_or_app. right. now left.
Qed.

Lemma tight_closed (pl : list Page) :
  PlanShape.tight (mkWalk (map Some pl) (List.length pl)) pl.
Proof. split; [reflexivity|]. cbn [pageNumber]. lia. Qed.

Lemma tight_last_closed (cl : list Page) (lp : Page) :
  PlanShape.tight (mkWalk (map Some (cl ++ [lp])) (S (List.length cl)))
    (cl ++ [lp]).
Proof.
  split; [reflexivity|]. cbn [pageNumber].
  rewrite length_app. cbn [List.length]. lia.
Qed.

(** The second turn of a loop whose first slice closed a page of more
    than [rowsPerPage] records: its slice has a negative size. *)
Lemma second_turn_negative (item : Partition) (T n f : Z)
  (cl : list Page) (lp : Page) :
  R < page_size_sum lp ->
  2 <= n ->
  exists w' pl' s,
    slice_loop R cp item T n (Z.to_nat (n - 1)) (0 + 1)
      (mkWalk (map Some (cl ++ [lp])) (S (List.length cl))) f
    = Js.Normal w'
    /\ PlanShape.tight w' pl'
    /\ In s (List.concat pl')
    /\ startTime s = fst item /\ endTime s = snd item
    /\ size s < 0.
Proof.
  intros Hlp Hn.
  replace (Z.to_nat (n - 1)) with (S (Z.to_nat (n - 2))) by lia.
  cbn [slice_loop].
  replace (S (List.length cl)) with (List.length (cl ++ [lp]))
    by (rewrite length_app; cbn [List.length]; lia).
  rewrite iteration_overfull by lia. cbn [Js.bind].
  set (s := mkSlice (fst item) (snd item) f
              (Z.min (R - page_size_sum lp) R)).
  destruct (after_turn_keeps item T n (Z.to_nat (n - 2)) (0 + 1 + 1)
              (f + (R - page_size_sum lp))
              (mkWalk (map Some ((cl ++ [lp]) ++ [[s]]))
                 (S (List.length (cl ++ [lp]))))
              ((cl ++ [lp]) ++ [[s]]) s
              (Z.of_nat (List.length (cl ++ [lp]) + 1) >? cp + 10))
    as (w' & pl' & Hrun & Htight & Hin).
  - apply (tight_last_closed (cl ++ [lp]) [s]).
  - apply (in_last_page (cl ++ [lp]) [] s).
  - exists w', pl', s. split; [exact Hrun|]. split; [exact Htight|].
    split; [exact Hin|]. cbn [startTime endTime size s].
    split; [reflexivity|]. split; [reflexivity|]. lia.
Qed.

(** The callback on a partition of known total that is not roomy: one of
    its slices leaves it, or has no positive size. *)
Lemma callback_not_roomy (item : Partition) (T : Z) (f : fill) (w : walk) :
  filled Q f w ->
  after R cp f T = None ->
  0 <= T
  /\ exists w' pl' s,
      partition_callback R cp item (Some T) w = Js.Normal w'
      /\ PlanShape.tight w' pl'
      /\ In s (List.concat pl')
      /\ startTime s = fst item /\ endTime s = snd item
      /\ ~ inside T s.
Proof.
  intros Hfill Hafter.
  destruct (filled_ensure f w Hfill)
    as (cl & o & Hens & Hpn & Ho & HQs & Hlen & Hcl & Hheld).
  unfold partition_callback. cbv zeta. rewrite Hens, Hpn.
  unfold after in Hafter. cbv zeta in Hafter. rewrite <- Hlen in Hafter.
  rewrite length_app in Hafter. cbn [List.length] in Hafter.
  clear Hlen Hens Hpn Hfill HQs.
  pose proof (ceil_div_bounds T R HR) as Hb.
  destruct (Z.ltb_spec T 0) as [Hneg|Hpos]; [discriminate|].
  split; [exact Hpos|].
  destruct (Z.eqb_spec T 0) as [->|HT0].
  { (* a total of [0] *)
    replace (Js.ceil_div 0 R >? 0) with false
      by (symmetry; rewrite Z.gtb_ltb; apply Z.ltb_ge; nia).
    rewrite provisional_slice_exact.
    eexists _, _, _. split; [reflexivity|].
    split; [apply tight_last_closed|].
    split; [apply in_last_page|].
    cbn [startTime endTime]. split; [reflexivity|]. split; [reflexivity|].
    unfold inside. lia. }
  set (n := Js.ceil_div T R) in *.
  assert (Hn : 1 <= n) by nia.
  replace (n >? 0) with true
    by (symmetry; rewrite Z.gtb_ltb; apply Z.ltb_lt; lia).
  replace (Z.to_nat n) with (S (Z.to_nat (n - 1))) by lia.
  cbn [slice_loop].
  destruct (first_page f) eqn:Hfirst.
  - (* on the first page, a partition of a page or more after others *)
    subst cl. cbn [app List.length Nat.add] in *.
    destruct (Z.ltb_spec T R) as [|Hge]; [discriminate|].
    destruct (Z.ltb_spec (cp + 10) (Z.of_nat 1)) as [|Hroom];
      [discriminate|].
    destruct (Z.eqb_spec n 1) as [|Hn1]; [discriminate|].
    destruct (Z.eqb_spec (held f) 0) as [|Hh]; [discriminate|].
    pose proof (iteration_first R cp item T n 0 0 o) as Hit.
    cbv zeta in Hit. rewrite Hit. clear Hit. cbn [Js.bind].
    replace (0 =? n - 1) with false by (symmetry; apply Z.eqb_neq; lia).
    rewrite Z.eqb_refl. cbn [orb].
    replace (1 >? cp + 10) with false
      by (symmetry; rewrite Z.gtb_ltb; apply Z.ltb_ge; lia).
    destruct (second_turn_negative item T n (0 + R) []
                (o ++ [mkSlice (fst item) (snd item) 0 (Z.min R R)]))
      as (w' & pl' & s & Hrun & Htight & Hin & Hs1 & Hs2 & Hneg);
      [rewrite page_size_sum_snoc, Z.min_id; cbn [size]; lia|lia|].
    exists w', pl', s. split; [exact Hrun|].
    split; [exact Htight|]. split; [exact Hin|].
    split; [exact Hs1|]. split; [exact Hs2|]. unfold inside. lia.
  - destruct (Z.eqb_spec (page_size_sum o) R) as [Hfull|Hnot].
    + (* an open page of exactly [R] records, a partition of more *)
      rewrite <- Ho, Hfull in Hafter.
      rewrite Z.ltb_irrefl, Z.eqb_refl in Hafter.
      destruct (Z.ltb_spec T R) as [|Hge]; [discriminate|].
      destruct (Z.ltb_spec (cp + 10) (Z.of_nat (List.length cl + 1)))
        as [|Hroom]; [discriminate|].
      destruct (Z.eqb_spec n 1) as [|Hn1]; [discriminate|].
      pose proof (iteration_full item T n 0 0 cl o Hcl Hfull) as Hit.
      cbv zeta in Hit. rewrite Hit. clear Hit. cbn [Js.bind].
      replace (0 =? n - 1) with false by (symmetry; apply Z.eqb_neq; lia).
      rewrite Z.eqb_refl. cbn [orb].
      replace (Z.of_nat (List.length cl + 1) >? cp + 10) with false
        by (symmetry; rewrite Z.gtb_ltb; apply Z.ltb_ge; lia).
      destruct (second_turn_negative item T n (0 + R) cl
                  (o ++ [mkSlice (fst item) (snd item) 0 (Z.min R R)]))
        as (w' & pl' & s & Hrun & Htight & Hin & Hs1 & Hs2 & Hneg);
        [rewrite page_size_sum_snoc, Z.min_id; cbn [size]; lia|lia|].
      exists w', pl', s. split; [exact Hrun|].
      split; [exact Htight|]. split; [exact Hin|].
      split; [exact Hs1|]. split; [exact Hs2|]. unfold inside. lia.
    + (* the first slice takes what the page lacks *)
      pose proof (iteration_open R cp item T n 0 0 cl o Hcl Hnot) as Hit.
      cbv zeta in Hit. rewrite Hit. clear Hit. cbn [Js.bind].
      rewrite Z.min_l by lia.
      set (s := mkSlice (fst item) (snd item) 0 (R - page_size_sum o)).
      destruct (after_turn_keeps item T n (Z.to_nat (n - 1)) (0 + 1)
                  (0 + (R - page_size_sum o))
                  (mkWalk (map Some (cl ++ [o ++ [s]])) (S (List.length cl)))
                  (cl ++ [o ++ [s]]) s
                  (Z.of_nat (List.length cl + 1) >? cp + 10))
        as (w' & pl' & Hrun & Htight & Hin).
      * apply tight_last_closed.
      * apply in_last_page.
      * exists w', pl', s. split; [exact Hrun|].
        split; [exact Htight|]. split; [exact Hin|].
        cbn [startTime endTime s].
        split; [reflexivity|]. split; [reflexivity|].
        subst s. unfold inside. cbn [from size]. rewrite Ho.
        destruct (Z.ltb_spec (held f) R).
        -- destruct (Z.ltb_spec T (R - held f)); [lia|].
           destruct (_ || _); discriminate.
        -- lia.
Qed.

(** A list of partitions that is not roomy: a slice of the plan leaves
    its partition, of known total, or has no positive size. *)
Lemma forEach_not_roomy (totals : list Z) :
  forall (items : list Partition) (ts : list Z) (index : nat)
         (f : fill) (w : walk),
    skipn index totals = ts ->
    List.length items = List.length ts ->
    (forall j item T,
        nth_error items j = Some item -> nth_error ts j = Some T ->
        (0 <= T -> forall fr z, 0 <= fr -> 0 < z -> fr + z <= T ->
                   Q (mkSlice (fst item) (snd item) fr z))
        /\ (T < 0 -> forall z, Q (mkSlice (fst item) (snd item) 0 z))) ->
    roomy R cp f ts = false ->
    filled Q f w ->
    exists w' pl' s j item T,
      forEach_partition R cp totals index items w = Js.Normal w'
      /\ pages w' = map Some pl'
      /\ In s (List.concat pl')
      /\ nth_error items j = Some item
      /\ nth_error ts j = Some T
      /\ 0 <= T
      /\ startTime s = fst item /\ endTime s = snd item
      /\ ~ inside T s.
Proof.
  induction items as [|item items IH];
    intros ts index f w Hskip Hlen HQ Hroomy Hfill.
  - destruct ts; [discriminate Hroomy|discriminate].
  - destruct ts as [|T ts]; [discriminate|].
    apply nth_error_skipn_head in Hskip as [Hnth Hskip].
    cbn [roomy] in Hroomy. cbn [forEach_partition]. rewrite Hnth.
    destruct (after R cp f T) as [f1|] eqn:Hafter.
    + destruct (HQ O item T eq_refl eq_refl) as [HQk HQu].
      destruct (callback_roomy item T f f1 w HQk HQu Hfill Hafter)
        as (w1 & Hcb & Hfill1).
      rewrite Hcb. cbn [Js.bind].
      destruct (IH ts (S index) f1 w1)
        as (w' & pl' & s & j & it & T' & Hrun & Hpages & Hin & Hj & HT'
            & Hrest); try assumption.
      { cbn [List.length] in Hlen. lia. }
      { intros j it T' Hj HT'. apply (HQ (S j) it T'); assumption. }
      exists w', pl', s, (S j), it, T'. repeat split; try assumption;
        apply Hrest.
    + destruct (callback_not_roomy item T f w Hfill Hafter)
        as (Hpos & w1 & pl1 & s & Hcb & Htight1 & Hin & Hs1 & Hs2 & Hout).
      rewrite Hcb. cbn [Js.bind].
      destruct (forEach_partition_tight R cp totals items (S index) w1 pl1
                  Htight1)
        as (w' & pl' & groups & Hrun & [Hpages _] & Hcat & _).
      exists w', pl', s, O, item, T.
      split; [exact Hrun|]. split; [exact Hpages|].
      split; [rewrite Hcat; apply in_or_app; now left|].
      repeat split; assumption.
Qed.

End RoomyFacts.

Lemma start_filled (Q : Planner.PageSlice -> Prop) :
  Roomy.filled Q Roomy.start (Planner.mkWalk [] O).
Proof.
  exists []. cbn [Roomy.start Planner.pages Planner.pageNumber map
                    Roomy.first_page Roomy.held Roomy.page_count List.length].
  split; [reflexivity|]. split; [constructor|]. split; [reflexivity|].
  split; [lia|]. split; [reflexivity|]. left. now split.
Qed.

(** C2, as amended. Let the partitions not overlap and come in ascending
    order, with one total each, let the rebuild be due and the totals be
    roomy ([Roomy.roomy]), that is, walking the partitions in order:
    - no total is [0], while unknown totals, below [0], may occur
      anywhere;
    - a partition met while the walk is on the first page holds less than
      [rowsPerPage] records, or finds that page empty, or gets one slice
      only (its total is [rowsPerPage], or the look-ahead ends its loop
      after the first slice);
    - a partition met after the first page on a page of [h < rowsPerPage]
      records holds at least [rowsPerPage - h] records;
    - a partition met on an open page of exactly [rowsPerPage] records
      holds less than [rowsPerPage] records or gets one slice only;
    - no partition of known total is met on a page of more than
      [rowsPerPage] records.
    Then every slice of the rebuilt plan that belongs to a partition of
    known total [T >= 0] lies inside it and is not empty: [from >= 0],
    [size > 0] and [from + size <= T]. Neither the number of pages nor
    the look-ahead is bounded. *)
Theorem C2_slices_within_partition :
  forall (R cp : Z) (pd : Planner.PartitionDetail),
    0 < R ->
    Z.of_nat (List.length (Planner.paginations pd)) <= cp + 3 ->
    List.length (Planner.partitions pd)
    = List.length (Planner.partitionTotal pd) ->
    Planner.disjoint_ascending (Planner.partitions pd) ->
    Roomy.roomy R cp Roomy.start (Planner.partitionTotal pd) = true ->
    exists plan : list Planner.Page,
      Planner.refreshPartitionPagination R cp pd
      = Js.Normal
          (Planner.mkDetail (Planner.partitions pd)
             (Planner.partitionTotal pd) (map Some plan))
      /\ forall page s k item T,
          In page plan -> In s page ->
          nth_error (Planner.partitions pd) k = Some item ->
          Planner.startTime s = fst item ->
          Planner.endTime s = snd item ->
          nth_error (Planner.partitionTotal pd) k = Some T ->
          0 <= T ->
          0 <= Planner.from s
          /\ 0 < Planner.size s
          /\ Planner.from s + Planner.size s <= T.
Proof.
  intros R cp pd HR Hdue Hlen Hdisj Hroomy.
  rewrite refresh_rebuilds by exact Hdue. unfold Planner.rebuild.
  set (Q := fun s : Planner.PageSlice =>
              exists k item T,
                nth_error (Planner.partitions pd) k = Some item
                /\ nth_error (Planner.partitionTotal pd) k = Some T
                /\ Planner.startTime s = fst item
                /\ (0 <= T -> Roomy.inside T s)).
  destruct (forEach_roomy R cp Q HR (Planner.partitionTotal pd)
              (Planner.partitions pd) (Planner.partitionTotal pd) O
              Roomy.start (Planner.mkWalk [] O))
    as (w' & f' & Hrun & plan & Hpages & HQs & _);
    try assumption; try reflexivity; [|apply start_filled|].
  { intros j item T Hj HT. split.
    - intros _ fr z Hfr Hz Hfz. exists j, item, T.
      split; [exact Hj|]. split; [exact HT|]. split; [reflexivity|].
      intros _. unfold Roomy.inside. cbn [Planner.from Planner.size]. lia.
    - intros Hneg z. exists j, item, T.
      split; [exact Hj|]. split; [exact HT|]. split; [reflexivity|].
      intros Hpos. lia. }
  rewrite Hrun. cbn [Js.bind]. rewrite Hpages.
  exists plan. split; [reflexivity|].
  intros page s k item T Hpage Hs Hk Hstart _ HT Hpos.
  rewrite Forall_forall in HQs. specialize (HQs _ Hpage).
  rewrite Forall_forall in HQs. specialize (HQs _ Hs).
  destruct HQs as (k' & item' & T' & Hk' & HT' & Hstart' & Hin).
  assert (k' = k).
  { eapply disjoint_ascending_starts; try eassumption. congruence. }
  subst k'. rewrite HT in HT'. inversion HT'; subst T'.
  exact (Hin Hpos).
Qed.

Lemma C2_slices_within_partition_witness :
  let pd := Planner.mkDetail [(0, 1000); (1000, 2000)] [300; 300] [] in
  exists plan : list Planner.Page,
    Planner.refreshPartitionPagination 250 1 pd
    = Js.Normal
        (Planner.mkDetail [(0, 1000); (1000, 2000)] [300; 300]
           (map Some plan))
    /\ forall page s k item T,
        In page plan -> In s page ->
        nth_error [(0, 1000); (1000, 2000)] k = Some item ->
        Planner.startTime s = fst item ->
        Planner.endTime s = snd item ->
        nth_error [300; 300] k = Some T ->
        0 <= T ->
        0 <= Planner.from s
        /\ 0 < Planner.size s
        /\ Planner.from s + Planner.size s <= T.
Proof.
  apply (C2_slices_within_partition 250 1
           (Planner.mkDetail [(0, 1000); (1000, 2000)] [300; 300] []));
    [lia | cbn; lia | reflexivity | | reflexivity].
  split; repeat constructor; cbn; lia.
Defined.

(** X26. The roomy totals are exactly those whose partitions keep their
    slices: whenever the totals, one for each partition, are not roomy
    ([Roomy.roomy]), a due rebuild plans a slice that belongs to a
    partition of known total [T >= 0] and leaves it or holds nothing:
    [from < 0], [size <= 0] or [from + size > T]. *)
Theorem not_roomy_leaves_partition :
  forall (R cp : Z) (pd : Planner.PartitionDetail),
    0 < R ->
    Z.of_nat (List.length (Planner.paginations pd)) <= cp + 3 ->
    List.length (Planner.partitions pd)
    = List.length (Planner.partitionTotal pd) ->
    Roomy.roomy R cp Roomy.start (Planner.partitionTotal pd) = false ->
    exists (plan : list Planner.Page) (page : Planner.Page)
           (s : Planner.PageSlice) (k : nat) (item : Planner.Partition)
           (T : Z),
      Planner.refreshPartitionPagination R cp pd
      = Js.Normal
          (Planner.mkDetail (Planner.partitions pd)
             (Planner.partitionTotal pd) (map Some plan))
      /\ In page plan /\ In s page
      /\ nth_error (Planner.partitions pd) k = Some item
      /\ Planner.startTime s = fst item
      /\ Planner.endTime s = snd item
      /\ nth_error (Planner.partitionTotal pd) k = Some T
      /\ 0 <= T
      /\ (Planner.from s < 0
          \/ Planner.size s <= 0
          \/ T < Planner.from s + Planner.size s).
Proof.
  intros R cp pd HR Hdue Hlen Hroomy.
  rewrite refresh_rebuilds by exact Hdue. unfold Planner.rebuild.
  destruct (forEach_not_roomy R cp (fun _ => True) HR
              (Planner.partitionTotal pd)
              (Planner.partitions pd) (Planner.partitionTotal pd) O
              Roomy.start (Planner.mkWalk [] O))
    as (w' & plan & s & j & item & T & Hrun & Hpages & Hin & Hj & HT
        & Hpos & Hs1 & Hs2 & Hout);
    try assumption; try reflexivity; [now split|apply start_filled|].
  rewrite Hrun. cbn [Js.bind]. rewrite Hpages.
  apply in_concat in Hin as (page & Hpage & Hs).
  exists plan, page, s, j, item, T.
  repeat (split; [first [reflexivity|assumption]|]).
  unfold Roomy.inside in Hout. lia.
Qed.

Lemma not_roomy_leaves_partition_witness :
  let pd := Planner.mkDetail [(0, 1000); (1000, 2000)] [250; 100] [] in
  exists (plan : list Planner.Page) (page : Planner.Page)
         (s : Planner.PageSlice) (k : nat) (item : Planner.Partition)
         (T : Z),
    Planner.refreshPartitionPagination 250 1 pd
    = Js.Normal
        (Planner.mkDetail [(0, 1000); (1000, 2000)] [250; 100]
           (map Some plan))
    /\ In page plan /\ In s page
    /\ nth_error [(0, 1000); (1000, 2000)] k = Some item
    /\ Planner.startTime s = fst item
    /\ Planner.endTime s = snd item
    /\ nth_error [250; 100] k = Some T
    /\ 0 <= T
    /\ (Planner.from s < 0
        \/ Planner.size s <= 0
        \/ T < Planner.from s + Planner.size s).
Proof.
  apply (not_roomy_leaves_partition 250 1
           (Planner.mkDetail [(0, 1000); (1000, 2000)] [250; 100] []));
    [lia | cbn; lia | reflexivity | reflexivity].
Defined.

(** Totals that are roomy: the scenario of two partitions of 300 records,
    a first page shared by two partitions, a partition beyond the
    look-ahead, an unknown total in between. Totals that are not: a
    top-off that asks for more than the partition holds, beyond the
    look-ahead or within it, a first page closed with more than
    [rowsPerPage] records, a total of [0]. *)
Example roomy_totals :
  map (Roomy.roomy 250 1 Roomy.start)
    [[300; 300]; [100; 200]; [3300; 300]; [300; -1; 400]; [3300; 200];
     [250; 100]; [100; 300]; [300; 0]]
  = [true; true; true; true; false; false; false; false].
Proof. reflexivity. Qed.

(** A top-off of a negative number of records: the slice ends within
    its partition all the same. *)
Example top_off_of_negative_size :
  Planner.rebuild 5 1 [(0, 1000); (1000, 2000)] [3; 7]
  = Js.Normal
      [Some [Planner.mkSlice 0 1000 0 3; Planner.mkSlice 1000 2000 0 5];
       Some [Planner.mkSlice 1000 2000 5 (-3)]]
  /\ Roomy.roomy 5 1 Roomy.start [3; 7] = false.
Proof. split; reflexivity. Qed.


(** X1. For a page size other than [0], [refreshPartitionPagination]
    returns on every input: it never throws, it leaves the partitions and
    their totals as they are, a rebuilt plan has no hole, and a plan of
    more than [currentPage + 3] pages is left untouched. *)
Theorem refresh_always_returns :
  forall (R cp : Z) (pd : Planner.PartitionDetail),
    R <> 0 ->
    exists pd',
      Planner.refreshPartitionPagination R cp pd = Js.Normal pd'
      /\ Planner.partitions pd' = Planner.partitions pd
      /\ Planner.partitionTotal pd' = Planner.partitionTotal pd
      /\ (if Z.of_nat (List.length (Planner.paginations pd)) <=? cp + 3
          then exists plan : list Planner.Page,
                 Planner.paginations pd' = map Some plan
          else pd' = pd).
Proof.
  intros R cp pd _. unfold Planner.refreshPartitionPagination.
  destruct (_ <=? _).
  - destruct (rebuild_returns R cp (Planner.partitions pd)
                (Planner.partitionTotal pd)) as (plan & ->).
    cbn [Js.bind]. eexists. split; [reflexivity|].
    cbn [Planner.partitions Planner.partitionTotal Planner.paginations].
    repeat split. now exists plan.
  - exists pd. repeat split.
Qed.

Lemma refresh_always_returns_witness :
  exists pd',
    Planner.refreshPartitionPagination 250 1
      (Planner.mkDetail [(0, 1000); (1000, 2000)] [100; -1]
         [Some [Planner.mkSlice 0 1000 0 250];
          Some [Planner.mkSlice 1000 2000 0 250]])
    = Js.Normal pd'
    /\ Planner.partitions pd' = [(0, 1000); (1000, 2000)]
    /\ Planner.partitionTotal pd' = [100; -1]
    /\ exists plan : list Planner.Page,
         Planner.paginations pd' = map Some plan.
Proof.
  apply (refresh_always_returns 250 1
           (Planner.mkDetail [(0, 1000); (1000, 2000)] [100; -1]
              [Some [Planner.mkSlice 0 1000 0 250];
               Some [Planner.mkSlice 1000 2000 0 250]])).
  lia.
Defined.

(** X2. For a page size other than [0], a rebuilt plan, read page by
    page, lists its slices in partition order: every partition of the
    list, whatever its total, contributes at least one slice, its slices
    stand together, carry its span, and the first of them starts at
    [from = 0]. No partition is skipped and no slice has a span of its
    own. *)
Theorem rebuild_in_partition_order :
  forall (R cp : Z) (parts : list Planner.Partition) (totals : list Z),
    R <> 0 ->
    exists (plan : list Planner.Page) (groups : list (list Planner.PageSlice)),
      Planner.rebuild R cp parts totals = Js.Normal (map Some plan)
      /\ List.concat plan = List.concat groups
      /\ Forall2 PlanShape.group_of parts groups.
Proof.
  intros R cp parts totals _. unfold Planner.rebuild.
  destruct (forEach_partition_tight R cp totals parts O
              (Planner.mkWalk [] O) [])
    as (w & plan & groups & -> & [Hpages _] & Hcat & Hgroups & _).
  { split; [reflexivity|]. cbn. lia. }
  cbn [Js.bind]. exists plan, groups. rewrite Hpages.
  repeat split; assumption.
Qed.

Lemma rebuild_in_partition_order_witness :
  exists (plan : list Planner.Page) (groups : list (list Planner.PageSlice)),
    Planner.rebuild 250 1 [(0, 1000); (1000, 2000); (2000, 3000)]
      [300; 0; -1]
    = Js.Normal (map Some plan)
    /\ List.concat plan = List.concat groups
    /\ Forall2 PlanShape.group_of [(0, 1000); (1000, 2000); (2000, 3000)]
         groups.
Proof.
  apply (rebuild_in_partition_order 250 1
           [(0, 1000); (1000, 2000); (2000, 3000)] [300; 0; -1]).
  lia.
Defined.

(** X3. For a page size other than [0], the look-ahead bounds the plan:
    since the early [return] leaves one partition's loop but not the
    [forEach], a rebuilt plan has at most [currentPage + 11] pages and one
    more for each partition. *)
Theorem rebuild_look_ahead_bound :
  forall (R cp : Z) (parts : list Planner.Partition) (totals : list Z),
    R <> 0 ->
    exists plan : list Planner.Page,
      Planner.rebuild R cp parts totals = Js.Normal (map Some plan)
      /\ Z.of_nat (List.length plan)
         <= Z.max 0 (cp + 11) + Z.of_nat (List.length parts).
Proof.
  intros R cp parts totals _. unfold Planner.rebuild.
  destruct (forEach_partition_tight R cp totals parts O
              (Planner.mkWalk [] O) [])
    as (w & plan & groups & -> & [Hpages _] & _ & _ & Hlen).
  { split; [reflexivity|]. cbn. lia. }
  cbn [Js.bind]. exists plan. rewrite Hpages.
  split; [reflexivity|]. cbn [List.length] in Hlen. lia.
Qed.

Lemma rebuild_look_ahead_bound_witness :
  exists plan : list Planner.Page,
    Planner.rebuild 250 1 [(0, 1000); (1000, 2000)] [3250; 600]
    = Js.Normal (map Some plan)
    /\ Z.of_nat (List.length plan) <= Z.max 0 (1 + 11) + 2.
Proof.
  apply (rebuild_look_ahead_bound 250 1 [(0, 1000); (1000, 2000)]
           [3250; 600]).
  lia.
Defined.

Section InitialPlanFacts.
Import Planner.

Lemma forEach_all_unknown (R cp : Z) :
  0 < R ->
  forall (items done : list Partition) (P : list Page),
    List.length P = List.length done ->
    forEach_partition R cp (map (fun _ => -1) (done ++ items))
      (List.length done) items (mkWalk (map Some P) (List.length P))
    = Js.Normal
        (mkWalk
           (map Some
              (P ++ map (fun item => [mkSlice (fst item) (snd item) 0 R])
                      items))
           (List.length P + List.length items)).
Proof.
  intros HR. induction items as [|item items IH]; intros done P Hlen.
  - cbn [forEach_partition map List.length].
    now rewrite app_nil_r, Nat.add_0_r.
  - cbn [forEach_partition].
    rewrite nth_error_map, nth_error_app2, Nat.sub_diag by lia.
    cbn [nth_error option_map].
    rewrite callback_unknown_total by exact HR.
    cbn [pages pageNumber].
    rewrite ensure_page_closed.
    unfold provisional_slice. cbn [pages pageNumber].
    rewrite last_page_size_snoc. cbn [Js.bind].
    unfold page_size_sum. cbn [fold_left].
    replace (negb (0 =? R)) with true
      by (symmetry; apply negb_true_iff, Z.eqb_neq; lia).
    rewrite Z.sub_0_r, push_slice_open. cbn [Js.bind app].
    specialize (IH (done ++ [item])
                  (P ++ [[mkSlice (fst item) (snd item) 0 R]])).
    rewrite <- app_assoc in IH. cbn [app] in IH.
    rewrite !length_app in IH. cbn [List.length] in IH.
    replace (List.length done + 1)%nat with (S (List.length done)) in IH by lia.
    replace (List.length P + 1)%nat with (S (List.length P)) in IH by lia.
    rewrite IH by lia.
    cbn [map List.length]. rewrite <- app_assoc. cbn [app].
    now replace (S (List.length P) + List.length items)%nat
      with (List.length P + S (List.length items))%nat by lia.
Qed.

End InitialPlanFacts.

(** X4. Refreshing the plan that [getQueryPartitions] has just stored
    changes nothing: while every total is unknown the rebuild reproduces
    the initial plan, one page per partition with the slice
    [{from: 0, size: rowsPerPage}]. *)
Theorem refresh_keeps_initial_plan :
  forall (R cp : Z) (parts : list Planner.Partition),
    0 < R ->
    Planner.refreshPartitionPagination R cp (Planner.initial_detail R parts)
    = Js.Normal (Planner.initial_detail R parts).
Proof.
  intros R cp parts HR. unfold Planner.refreshPartitionPagination.
  destruct (_ <=? _); [|reflexivity].
  unfold Planner.rebuild, Planner.initial_detail.
  cbn [Planner.partitions Planner.partitionTotal].
  pose proof (forEach_all_unknown R cp HR parts [] [] eq_refl) as Hrun.
  cbn [app List.length map] in Hrun. rewrite Hrun.
  cbn [Js.bind Planner.pages]. now rewrite map_map.
Qed.

Lemma refresh_keeps_initial_plan_witness :
  Planner.refreshPartitionPagination 250 1
    (Planner.initial_detail 250 [(0, 1000); (1000, 2000)])
  = Js.Normal (Planner.initial_detail 250 [(0, 1000); (1000, 2000)]).
Proof.
  apply (refresh_keeps_initial_plan 250 1 [(0, 1000); (1000, 2000)]). lia.
Defined.

Section CoversFacts.
Import Planner PlanShape.

Lemma covers_spec (parts : list Partition) (pgs : Js.array Page) :
  covers parts pgs = true <->
  forall page s,
    In (Some page) pgs -> In s page -> In (startTime s, endTime s) parts.
Proof.
  unfold covers. rewrite forallb_forall. split.
  - intros H page s Hpage Hs. specialize (H _ Hpage). cbn beta iota in H.
    rewrite forallb_forall in H. specialize (H _ Hs).
    apply existsb_exists in H. destruct H as ([a b] & Hin & Hab).
    cbn [fst snd] in Hab. apply andb_true_iff in Hab.
    destruct Hab as [Ha Hb]. apply Z.eqb_eq in Ha, Hb. now subst.
  - intros H [page|] Hpage; [|reflexivity].
    apply forallb_forall. intros s Hs. apply existsb_exists.
    exists (startTime s, endTime s). split; [now apply (H page)|].
    cbn [fst snd]. now rewrite !Z.eqb_refl.
Qed.

Lemma group_of_in (parts : list Partition)
  (groups : list (list PageSlice)) :
  Forall2 group_of parts groups ->
  forall s, In s (List.concat groups) -> In (startTime s, endTime s) parts.
Proof.
  induction 1 as [|item g parts groups [Hg _] _ IH]; intros s Hs;
    cbn [List.concat] in Hs; [contradiction|].
  apply in_app_or in Hs. destruct Hs as [Hs|Hs].
  - left. rewrite Forall_forall in Hg. destruct (Hg s Hs) as [-> ->].
    now destruct item.
  - right. now apply IH.
Qed.

(** A rebuilt plan has no hole and every slice of it spans a partition
    of the list. *)
Lemma rebuild_covers (R cp : Z) (parts : list Partition) (totals : list Z) :
  exists plan : list Page,
    rebuild R cp parts totals = Js.Normal (map Some plan)
    /\ covers parts (map Some plan) = true.
Proof.
  unfold rebuild.
  destruct (forEach_partition_tight R cp totals parts O (mkWalk [] O) [])
    as (w & plan & groups & -> & [Hpages _] & Hcat & Hgroups & _).
  { split; [reflexivity|]. cbn. lia. }
  cbn [Js.bind]. exists plan. rewrite Hpages. split; [reflexivity|].
  apply covers_spec. intros page s Hpage Hs.
  apply (group_of_in parts groups Hgroups).
  cbn [List.concat app] in Hcat. rewrite <- Hcat.
  apply in_concat. exists page. split; [|exact Hs].
  apply in_map_iff in Hpage. destruct Hpage as (page' & Heq & Hin).
  now inversion Heq; subst.
Qed.

End CoversFacts.

(** ** What the executor keeps *)

Section UpdateTotalsFacts.
Import Executor ExecutorShape.

Lemma refreshPartitionPagination_returns (R cp : Z)
  (pd : Planner.PartitionDetail) :
  exists pgs,
    Planner.refreshPartitionPagination R cp pd
    = Js.Normal
        (Planner.mkDetail (Planner.partitions pd) (Planner.partitionTotal pd)
           pgs)
    /\ (PlanShape.covers (Planner.partitions pd) (Planner.paginations pd)
        = true ->
        PlanShape.covers (Planner.partitions pd) pgs = true).
Proof.
  unfold Planner.refreshPartitionPagination.
  destruct (_ <=? _).
  - destruct (rebuild_covers R cp (Planner.partitions pd)
                (Planner.partitionTotal pd)) as (plan & -> & Hc).
    cbn [Js.bind]. eauto.
  - exists (Planner.paginations pd). split; [now destruct pd|auto].
Qed.

Lemma stored_totals_length (start rt : Z) (items : list Planner.Partition) :
  forall totals,
    List.length (stored_totals start rt items totals) = List.length totals.
Proof.
  induction items as [|item items IH]; intros [|total totals];
    cbn [stored_totals List.length]; try reflexivity.
  now rewrite IH.
Qed.

Lemma stored_totals_known (start rt : Z) (items : list Planner.Partition) :
  forall totals i total,
    nth_error totals i = Some total -> total <> -1 ->
    nth_error (stored_totals start rt items totals) i = Some total.
Proof.
  induction items as [|item items IH]; intros [|t totals] i total Hi Hne;
    cbn [stored_totals]; try assumption.
  destruct i as [|i]; cbn [nth_error] in *.
  - inversion Hi; subst t.
    now replace (total =? -1) with false by (symmetry; now apply Z.eqb_neq).
  - now apply IH.
Qed.

(** The [forEach] from index [i] on. *)
Lemma update_totals_from (R cp start rt : Z) :
  forall (items : list Planner.Partition) (i : nat)
         (pd : Planner.PartitionDetail),
    exists pgs,
      update_totals R cp start rt i items pd
      = Js.Normal
          (Planner.mkDetail (Planner.partitions pd)
             (firstn i (Planner.partitionTotal pd)
              ++ stored_totals start rt items
                   (skipn i (Planner.partitionTotal pd)))
             pgs)
      /\ (PlanShape.covers (Planner.partitions pd) (Planner.paginations pd)
          = true ->
          PlanShape.covers (Planner.partitions pd) pgs = true).
Proof.
  induction items as [|item items IH]; intros i pd.
  - exists (Planner.paginations pd). cbn [update_totals stored_totals].
    rewrite firstn_skipn. split; [now destruct pd|auto].
  - cbn [update_totals].
    destruct (nth_error (Planner.partitionTotal pd) i) as [total|] eqn:Hnth.
    + assert (Hlt : (i < List.length (Planner.partitionTotal pd))%nat)
        by (apply nth_error_Some; congruence).
      assert (Hskip : skipn i (Planner.partitionTotal pd)
                      = total :: skipn (S i) (Planner.partitionTotal pd)).
      { clear -Hnth. revert i Hnth.
        induction (Planner.partitionTotal pd) as [|x l IHl];
          intros [|i] Hnth; cbn in *; try discriminate.
        - now inversion Hnth.
        - now apply IHl. }
      rewrite Hskip. cbn [stored_totals].
      destruct ((total =? -1) && (start =? fst item)).
      * set (totals' := firstn i (Planner.partitionTotal pd)
                        ++ rt :: skipn (S i) (Planner.partitionTotal pd)).
        destruct (refreshPartitionPagination_returns R cp
                    (Planner.mkDetail (Planner.partitions pd) totals'
                       (Planner.paginations pd))) as (pgs & -> & Hc).
        cbn [Js.bind Planner.partitions Planner.partitionTotal
             Planner.paginations] in Hc |- *.
        destruct (IH (S i)
                    (Planner.mkDetail (Planner.partitions pd) totals' pgs))
          as (pgs' & -> & Hc').
        cbn [Planner.partitions Planner.partitionTotal
             Planner.paginations] in Hc' |- *.
        exists pgs'. split; [|auto]. do 2 f_equal. subst totals'.
        assert (Hfirst : List.length (firstn i (Planner.partitionTotal pd)) = i)
          by (rewrite length_firstn; lia).
        rewrite firstn_app, Hfirst.
        replace (S i - i)%nat with 1%nat by lia.
        rewrite firstn_all2 by lia. cbn [firstn].
        rewrite skipn_app, Hfirst.
        replace (S i - i)%nat with 1%nat by lia.
        rewrite skipn_all2 by lia. cbn [skipn app].
        now rewrite <- app_assoc.
      * destruct (IH (S i) pd) as (pgs' & -> & Hc').
        exists pgs'. split; [|exact Hc']. do 2 f_equal.
        rewrite <- (firstn_skipn i (firstn (S i) (Planner.partitionTotal pd))).
        rewrite firstn_firstn, Nat.min_l by lia.
        rewrite <- app_assoc. f_equal.
        rewrite skipn_firstn_comm.
        replace (S i - i)%nat with 1%nat by lia.
        rewrite Hskip. reflexivity.
    + assert (Hge : (List.length (Planner.partitionTotal pd) <= i)%nat)
        by (now apply nth_error_None).
      destruct (IH (S i) pd) as (pgs' & -> & Hc').
      exists pgs'. split; [|exact Hc']. do 2 f_equal.
      rewrite !skipn_all2, !firstn_all2 by lia.
      now destruct items.
Qed.

End UpdateTotalsFacts.

(** X5. The [forEach] at the head of the [then] handler of
    [getPaginatedData] returns on every input, leaves the partition list
    alone, and stores the response's total exactly in the entries that
    are still [-1] and whose partition starts at the request's
    [start_time]: the plan refreshes in between do not disturb it. *)
Theorem update_totals_stores :
  forall (R cp start res_total : Z) (pd : Planner.PartitionDetail),
    exists pd',
      Executor.update_totals R cp start res_total O
        (Planner.partitions pd) pd
      = Js.Normal pd'
      /\ Planner.partitions pd' = Planner.partitions pd
      /\ Planner.partitionTotal pd'
         = ExecutorShape.stored_totals start res_total
             (Planner.partitions pd) (Planner.partitionTotal pd).
Proof.
  intros R cp start rt pd.
  destruct (update_totals_from R cp start rt (Planner.partitions pd) O pd)
    as (pgs & -> & _).
  eexists. split; [reflexivity|]. split; reflexivity.
Qed.

Section KeepsFacts.
Import Executor ExecutorShape.

Variable t : string -> string.
Variable logsErrorMessage : option Z -> string.

Lemma keeps_refl (st : SearchObj) : keeps st st.
Proof. repeat split; auto. Qed.

Lemma keeps_trans (a b c : SearchObj) : keeps a b -> keeps b c -> keeps a c.
Proof.
  intros (H1 & H2 & H3 & H4 & H5) (K1 & K2 & K3 & K4 & K5).
  repeat split; try congruence.
  intros i total Hi Hne. apply K5; [now apply H5|exact Hne].
Qed.

(** A step that touches neither the page, the page size nor the
    partition detail keeps everything. *)
Lemma keeps_same_detail (st st' : SearchObj) :
  currentPage st' = currentPage st ->
  rowsPerPage st' = rowsPerPage st ->
  partitionDetail (queryResults st') = partitionDetail (queryResults st) ->
  keeps st st'.
Proof.
  intros H1 H2 H3. unfold keeps. rewrite H1, H2, H3. repeat split; auto.
Qed.

Lemma prepare_query_sql (st : SearchObj) (q : Query) :
  sql (prepare_query st q) = sql q.
Proof.
  unfold prepare_query.
  destruct (index _ _) as [total|]; [|reflexivity].
  destruct (total =? -1); [reflexivity|].
  destruct (track_total_hits q); [|reflexivity].
  now destruct (total >? -1).
Qed.

Lemma accumulate_keeps (st : SearchObj) (q : Query) (appendResult : bool)
  (res : SearchData) :
  keeps st (fst (accumulate st q appendResult res)).
Proof.
  unfold accumulate.
  destruct (d_from res >? 0); [destruct appendResult;
                               [destruct (hits (queryResults st))|]|
                               destruct (live_refresh st)];
    now apply keeps_same_detail.
Qed.

Lemma next_slice_keeps (st : SearchObj) (q : Query) :
  keeps st (fst (next_slice st q))
  /\ forall q', snd (next_slice st q) = Js.Normal (Some q') -> sql q' = sql q.
Proof.
  unfold next_slice.
  destruct (if currentPage st - 1 <? 0 then None else _) as [page|].
  - destruct (nth_error page (subpage (queryResults st))) as [s|];
      cbn [fst snd]; split; try (now apply keeps_same_detail).
    + intros q' Hq'. now inversion Hq'.
    + intros q' Hq'. discriminate.
  - cbn [fst snd]. split; [apply keeps_refl|]. intros q' Hq'. discriminate.
Qed.

Lemma getPaginatedData_then_keeps (st : SearchObj) (q : Query)
  (appendResult : bool) (res : SearchData) :
  keeps st (fst (getPaginatedData_then st q appendResult res))
  /\ forall q',
      snd (getPaginatedData_then st q appendResult res)
      = Js.Normal (Some q') ->
      sql q' = sql q.
Proof.
  unfold getPaginatedData_then.
  destruct (update_totals_from (rowsPerPage st) (currentPage st)
              (start_time q) (d_total res)
              (Planner.partitions (partitionDetail (queryResults st))) O
              (partitionDetail (queryResults st))) as (pgs & -> & _).
  cbn [firstn app skipn].
  set (st1 := with_results st _).
  assert (H1 : keeps st st1).
  { subst st1. unfold keeps, with_results, with_detail.
    cbn [currentPage rowsPerPage queryResults partitionDetail
         Planner.partitions Planner.partitionTotal].
    repeat split.
    - apply stored_totals_length.
    - intros i total. apply stored_totals_known. }
  pose proof (accumulate_keeps st1 q appendResult res) as H2.
  destruct (accumulate st1 q appendResult res) as [st2 [[]|m]];
    cbn [fst snd] in H2 |- *.
  - pose proof (next_slice_keeps st2 q) as [H3 H4].
    split; [|exact H4].
    eapply keeps_trans; [exact H1|]. eapply keeps_trans; eassumption.
  - split; [eapply keeps_trans; eassumption|]. intros q' Hq'. discriminate.
Qed.

Lemma finish_keeps (st : SearchObj) (res : SearchData) :
  keeps st (finish t logsErrorMessage st res).
Proof.
  unfold finish. destruct (total (queryResults st));
    now apply keeps_same_detail.
Qed.

Lemma finish_results (st : SearchObj) (res : SearchData) :
  queryResults (finish t logsErrorMessage st res) = queryResults st.
Proof. unfold finish. now destruct (total (queryResults st)). Qed.

Lemma finish_loading (st : SearchObj) (res : SearchData) :
  loading (finish t logsErrorMessage st res) = false.
Proof. unfold finish. now destruct (total (queryResults st)). Qed.

Lemma catch_keeps (st : SearchObj) (err : FetchError) :
  keeps st (getPaginatedData_catch t logsErrorMessage st err).
Proof. now apply keeps_same_detail. Qed.

End KeepsFacts.

(** X6. Whatever the service answers, [getPaginatedData] never changes
    the current page, the page size or the partition list, never
    overwrites a total that is already known (different from [-1]),
    keeps one total per entry, and sends every request of the page with
    the SQL text it was given. *)
Theorem getPaginatedData_keeps :
  forall (t : string -> string) (logsErrorMessage : option Z -> string)
         (answers : list Executor.outcome) (st : Executor.SearchObj)
         (q : Executor.Query) (appendResult : bool),
    let run :=
      Executor.getPaginatedData t logsErrorMessage answers st q
        appendResult in
    ExecutorShape.keeps st (fst run)
    /\ Forall (fun sent => Executor.sql sent = Executor.sql q) (snd run).
Proof.
  intros t lem answers. cbv zeta.
  induction answers as [|a answers IH]; intros st q appendResult;
    cbn [Executor.getPaginatedData].
  - cbn [fst snd]. split; [apply keeps_refl|].
    repeat constructor. apply prepare_query_sql.
  - destruct a as [res|err].
    + pose proof (getPaginatedData_then_keeps st
                    (Executor.prepare_query st q) appendResult res)
        as [Hk Hsql].
      destruct (Executor.getPaginatedData_then st
                  (Executor.prepare_query st q) appendResult res)
        as [st' [[q'|]|m]]; cbn [fst snd] in Hk, Hsql.
      * specialize (IH (Executor.finish t lem st' res) q' true).
        destruct (Executor.getPaginatedData t lem answers
                    (Executor.finish t lem st' res) q' true) as [st'' sent].
        cbn [fst snd] in IH |- *. destruct IH as [IH1 IH2].
        split.
        -- eapply keeps_trans; [exact Hk|].
           eapply keeps_trans; [apply finish_keeps|exact IH1].
        -- constructor; [apply prepare_query_sql|].
           eapply Forall_impl; [|exact IH2].
           intros sent0 Hs. cbn beta in Hs. rewrite Hs.
           rewrite (Hsql q' eq_refl). apply prepare_query_sql.
      * cbn [fst snd]. split.
        -- eapply keeps_trans; [exact Hk|apply finish_keeps].
        -- repeat constructor. apply prepare_query_sql.
      * cbn [fst snd]. split.
        -- eapply keeps_trans; [exact Hk|apply catch_keeps].
        -- repeat constructor. apply prepare_query_sql.
    + cbn [fst snd]. split; [apply catch_keeps|].
      repeat constructor. apply prepare_query_sql.
Qed.

(** X7. As soon as one answer has arrived, be it a response, a
    rejection or a response whose handling throws, [getPaginatedData]
    leaves the loading flag cleared. *)
Theorem getPaginatedData_clears_loading :
  forall (t : string -> string) (logsErrorMessage : option Z -> string)
         (answers : list Executor.outcome) (st : Executor.SearchObj)
         (q : Executor.Query) (appendResult : bool),
    answers <> [] ->
    Executor.loading
      (fst (Executor.getPaginatedData t logsErrorMessage answers st q
              appendResult))
    = false.
Proof.
  intros t lem answers.
  induction answers as [|a answers IH]; intros st q appendResult Hne;
    [contradiction|].
  cbn [Executor.getPaginatedData].
  destruct a as [res|err]; [|reflexivity].
  destruct (Executor.getPaginatedData_then st (Executor.prepare_query st q)
              appendResult res) as [st' [[q'|]|m]];
    [|apply finish_loading|reflexivity].
  destruct answers as [|a' answers'].
  - apply finish_loading.
  - specialize (IH (Executor.finish t lem st' res) q' true
                  ltac:(discriminate)).
    destruct (Executor.getPaginatedData t lem (a' :: answers')
                (Executor.finish t lem st' res) q' true) as [st'' sent].
    exact IH.
Qed.

Lemma getPaginatedData_clears_loading_witness :
  Executor.loading
    (fst (Executor.getPaginatedData Executor.sample_t
            Executor.sample_logsErrorMessage
            [Executor.Rejected (Executor.mkError None "Network Error")]
            Executor.fresh
            (Executor.mkQuery "select * from logs" 0 1000 0 250 None)
            false))
  = false.
Proof.
  apply (getPaginatedData_clears_loading Executor.sample_t
           Executor.sample_logsErrorMessage
           [Executor.Rejected (Executor.mkError None "Network Error")]).
  discriminate.
Defined.

Section TargetFacts.
Import Executor ExecutorShape.

Variable t : string -> string.
Variable logsErrorMessage : option Z -> string.

Lemma prepare_query_span (st : SearchObj) (q : Query) :
  start_time (prepare_query st q) = start_time q
  /\ end_time (prepare_query st q) = end_time q.
Proof.
  unfold prepare_query.
  destruct (index _ _) as [total|]; [|now split].
  destruct (total =? -1); [now split|].
  destruct (track_total_hits q); [|now split].
  now destruct (total >? -1).
Qed.

Lemma accumulate_detail (st : SearchObj) (q : Query) (appendResult : bool)
  (res : SearchData) :
  partitionDetail (queryResults (fst (accumulate st q appendResult res)))
  = partitionDetail (queryResults st)
  /\ currentPage (fst (accumulate st q appendResult res)) = currentPage st.
Proof.
  unfold accumulate.
  destruct (d_from res >? 0); [destruct appendResult;
                               [destruct (hits (queryResults st))|]|
                               destruct (live_refresh st)];
    now split.
Qed.

Lemma get_in {A} (a : Js.array A) (n : nat) (x : A) :
  Js.get a n = Some x -> In (Some x) a.
Proof.
  unfold Js.get. destruct (nth_error a n) as [[y|]|] eqn:Hn; try discriminate.
  intros Hx. inversion Hx; subst. eapply nth_error_In; eassumption.
Qed.

Lemma next_slice_covers (st : SearchObj) (q : Query) :
  let pd := partitionDetail (queryResults st) in
  PlanShape.covers (Planner.partitions pd) (Planner.paginations pd) = true ->
  partitionDetail (queryResults (fst (next_slice st q))) = pd
  /\ forall q',
      snd (next_slice st q) = Js.Normal (Some q') ->
      In (start_time q', end_time q') (Planner.partitions pd).
Proof.
  intros pd Hc. unfold next_slice. fold pd.
  destruct (if currentPage st - 1 <? 0 then None else _) as [page|] eqn:Hpage.
  - destruct (nth_error page (subpage (queryResults st))) as [s|] eqn:Hs;
      cbn [fst snd]; (split; [reflexivity|]); intros q' Hq'; [|discriminate].
    inversion Hq'; subst q'. cbn [start_time end_time].
    destruct (currentPage st - 1 <? 0); [discriminate|].
    apply (proj1 (covers_spec _ _) Hc page s).
    + eapply get_in; eassumption.
    + eapply nth_error_In; eassumption.
  - cbn [fst snd]. split; [reflexivity|]. intros q' Hq'. discriminate.
Qed.

Lemma getPaginatedData_then_covers (st : SearchObj) (q : Query)
  (appendResult : bool) (res : SearchData) :
  let pd := partitionDetail (queryResults st) in
  let r := getPaginatedData_then st q appendResult res in
  let pd' := partitionDetail (queryResults (fst r)) in
  PlanShape.covers (Planner.partitions pd) (Planner.paginations pd) = true ->
  Planner.partitions pd' = Planner.partitions pd
  /\ PlanShape.covers (Planner.partitions pd) (Planner.paginations pd') = true
  /\ forall q',
      snd r = Js.Normal (Some q') ->
      In (start_time q', end_time q') (Planner.partitions pd).
Proof.
  intros pd r pd' Hc. subst r pd'. unfold getPaginatedData_then. fold pd.
  destruct (update_totals_from (rowsPerPage st) (currentPage st)
              (start_time q) (d_total res) (Planner.partitions pd) O pd)
    as (pgs & -> & Hpgs).
  specialize (Hpgs Hc).
  set (pd1 := Planner.mkDetail _ _ pgs).
  set (st1 := with_results st _).
  destruct (accumulate_detail st1 q appendResult res) as [Hd _].
  destruct (accumulate st1 q appendResult res) as [st2 [[]|m]];
    cbn [fst snd] in Hd |- *.
  - destruct (next_slice_covers st2 q) as [Hd' Hq'].
    { rewrite Hd. exact Hpgs. }
    rewrite Hd', Hd. cbn [Planner.partitions Planner.paginations].
    repeat split; [exact Hpgs|].
    intros q' Hq. specialize (Hq' q' Hq). now rewrite Hd in Hq'.
  - rewrite Hd. repeat split; [exact Hpgs|]. intros q' Hq'. discriminate.
Qed.

Lemma getPaginatedData_targets (answers : list outcome) :
  forall st q appendResult,
    let pd := partitionDetail (queryResults st) in
    PlanShape.covers (Planner.partitions pd) (Planner.paginations pd) = true ->
    In (start_time q, end_time q) (Planner.partitions pd) ->
    Forall (fun sent =>
              In (start_time sent, end_time sent) (Planner.partitions pd))
      (snd (getPaginatedData t logsErrorMessage answers st q appendResult)).
Proof.
  induction answers as [|a answers IH]; intros st q appendResult pd Hc Hq;
    cbn [getPaginatedData];
    destruct (prepare_query_span st q) as [Hs He].
  - cbn [snd]. repeat constructor. now rewrite Hs, He.
  - destruct a as [res|err];
      [|cbn [snd]; repeat constructor; now rewrite Hs, He].
    destruct (getPaginatedData_then_covers st (prepare_query st q)
                appendResult res Hc) as (Hparts & Hc' & Hq').
    fold pd in Hparts, Hc', Hq'.
    destruct (getPaginatedData_then st (prepare_query st q) appendResult res)
      as [st' [[q'|]|m]]; cbn [fst snd] in Hparts, Hc', Hq' |- *;
      try (repeat constructor; now rewrite Hs, He).
    specialize (IH (finish t logsErrorMessage st' res) q' true).
    cbv zeta in IH. rewrite finish_results, Hparts in IH.
    specialize (IH Hc' (Hq' q' eq_refl)).
    destruct (getPaginatedData t logsErrorMessage answers _ q' true)
      as [st'' sent].
    cbn [snd] in IH |- *. constructor; [now rewrite Hs, He|exact IH].
Qed.

Lemma getPaginatedData_first (answers : list outcome) (st : SearchObj)
  (q : Query) (appendResult : bool) :
  hd_error
    (snd (getPaginatedData t logsErrorMessage answers st q appendResult))
  = Some (prepare_query st q).
Proof.
  destruct answers as [|[res|err] answers]; cbn [getPaginatedData];
    try reflexivity.
  destruct (getPaginatedData_then st (prepare_query st q) appendResult res)
    as [st' [[q'|]|m]]; try reflexivity.
  now destruct (getPaginatedData t logsErrorMessage answers _ q' true).
Qed.

End TargetFacts.

(** X8. Every request that [getQueryData] and [getPaginatedData] send
    for a page spans exactly one partition of the stored list, whatever
    the service answers and however often the plan is refreshed in
    between, provided the plan they start from does; the plan that
    [getQueryPartitions] stores does, and so does every rebuilt one. *)
Theorem requests_target_partitions :
  forall (t : string -> string) (logsErrorMessage : option Z -> string)
         (answers : list Executor.outcome) (st : Executor.SearchObj)
         (q : Executor.Query),
    let pd := Executor.partitionDetail (Executor.queryResults st) in
    PlanShape.covers (Planner.partitions pd) (Planner.paginations pd) = true ->
    Forall (fun sent =>
              In (Executor.start_time sent, Executor.end_time sent)
                (Planner.partitions pd))
      (snd (Executor.getQueryData_page t logsErrorMessage answers st q)).
Proof.
  intros t lem answers st q pd Hc. unfold Executor.getQueryData_page.
  fold pd.
  destruct (if Executor.currentPage st - 1 <? 0 then None else _)
    as [[|s page]|] eqn:Hpage; try (cbn [snd]; constructor).
  destruct (Executor.currentPage st - 1 <? 0); [discriminate|].
  match goal with
  | |- Forall _ (snd (Executor.getPaginatedData _ _ _ ?st1 ?q1 _)) =>
      pose proof (getPaginatedData_targets t lem answers st1 q1 false) as Hrun
  end.
  cbn [Executor.queryResults Executor.with_subpage Executor.partitionDetail
       Executor.start_time Executor.end_time] in Hrun.
  apply Hrun; [exact Hc|].
  apply (proj1 (covers_spec _ _) Hc (s :: page) s); [|now left].
  eapply get_in; eassumption.
Qed.

Lemma requests_target_partitions_witness :
  Forall (fun sent =>
            In (Executor.start_time sent, Executor.end_time sent)
              [(0, 1000); (1000, 2000)])
    (snd (Executor.getQueryData_page Executor.sample_t
            Executor.sample_logsErrorMessage
            [Executor.Resolved
               (Executor.mkData [] 100 0 250 1 1 None None);
             Executor.Resolved
               (Executor.mkData [] 300 0 150 1 1 None None)]
            (Executor.getQueryPartitions_then Executor.fresh
               (Executor.mkPartitionData 400 [(1000, 2000); (0, 1000)]))
            (Executor.mkQuery "select * from logs" 0 2000 0 250 None))).
Proof.
  apply (requests_target_partitions Executor.sample_t
           Executor.sample_logsErrorMessage
           [Executor.Resolved
              (Executor.mkData [] 100 0 250 1 1 None None);
            Executor.Resolved
              (Executor.mkData [] 300 0 150 1 1 None None)]
           (Executor.getQueryPartitions_then Executor.fresh
              (Executor.mkPartitionData 400 [(1000, 2000); (0, 1000)]))).
  reflexivity.
Defined.

(** X9. [getQueryPartitions] followed by the tail of [getQueryData]:
    when the current page is within the partition list, the first
    request goes to the partition at that position in ascending order of
    start, from [0], for [rowsPerPage] records and with
    [track_total_hits] set, since every total is still unknown; when it
    is not, nothing is sent and the spinner is cleared. *)
Theorem first_request_after_partitions :
  forall (t : string -> string) (logsErrorMessage : option Z -> string)
         (answers : list Executor.outcome) (st : Executor.SearchObj)
         (res : Executor.PartitionData) (q : Executor.Query),
    let run :=
      Executor.getQueryData_page t logsErrorMessage answers
        (Executor.getQueryPartitions_then st res) q in
    match Executor.index (Js.sort_by_start (Executor.res_partitions res))
            (Executor.currentPage st - 1) with
    | Some item =>
        hd_error (snd run)
        = Some (Executor.mkQuery (Executor.sql q) (fst item) (snd item) 0
                  (Executor.rowsPerPage st) (Some true))
    | None => snd run = [] /\ Executor.loading (fst run) = false
    end.
Proof.
  intros t lem answers st res q.
  unfold Executor.getQueryData_page, Executor.getQueryPartitions_then,
    Executor.index, Planner.initial_detail.
  cbn [Executor.currentPage Executor.with_results Executor.queryResults
       Executor.partitionDetail Planner.paginations].
  destruct (Executor.currentPage st - 1 <? 0) eqn:Hneg;
    [now split|].
  unfold Js.get. rewrite nth_error_map.
  destruct (nth_error (Js.sort_by_start (Executor.res_partitions res))
              (Z.to_nat (Executor.currentPage st - 1))) as [item|] eqn:Hitem;
    cbn [option_map]; [|now split].
  cbv zeta. rewrite getPaginatedData_first. f_equal.
  unfold Executor.prepare_query, Executor.index.
  cbn [Executor.currentPage Executor.queryResults Executor.partitionDetail
       Executor.with_subpage Planner.partitionTotal].
  unfold Planner.Partition in *.
  rewrite Hneg, nth_error_map, Hitem. cbn [option_map].
  reflexivity.
Qed.

(** ** Streams *)

Section StreamFacts.
Import Streams.

Lemma select_fold_lists (stream : option string) (l : list Stream) :
  forall acc,
    let r := fold_left (select_step stream) l acc in
    streamLists r = streamLists acc ++ map option_of l
    /\ (selectedStream r = selectedStream acc
        \/ In (selectedStream r) (map option_of l)).
Proof.
  induction l as [|item l IH]; intros acc; cbn [fold_left map].
  - rewrite app_nil_r. now split; [|left].
  - destruct (IH (select_step stream acc item)) as [Hl Hs].
    cbv zeta. rewrite Hl. split.
    + unfold select_step.
      destruct (falsy stream && _); cbn [streamLists];
        now rewrite <- app_assoc.
    + destruct Hs as [Hs|Hs]; [|right; now right].
      rewrite Hs. unfold select_step.
      destruct (falsy stream && _); cbn [selectedStream];
        [right; now left|].
      destruct (loose_eq stream (name item)); [right; now left|now left].
Qed.

(** Without a stream parameter the running maximum never passes a bound
    that holds of every stream and of the start. *)
Lemma select_fold_bound (M : Z) (l : list Stream) :
  Forall (fun x => doc_time_max x <= M) l ->
  forall acc,
    lastUpdatedStreamTime acc <= M ->
    lastUpdatedStreamTime (fold_left (select_step None) l acc) <= M.
Proof.
  induction 1 as [|item l Hitem _ IH]; intros acc Hacc; cbn [fold_left];
    [exact Hacc|].
  apply IH. unfold select_step. cbn [falsy loose_eq andb].
  now destruct (_ >=? _).
Qed.

Lemma select_fold_later (l : list Stream) :
  forall acc,
    Forall (fun x => doc_time_max x < lastUpdatedStreamTime acc) l ->
    fold_left (select_step None) l acc
    = mkSelection (streamLists acc ++ map option_of l)
        (lastUpdatedStreamTime acc) (selectedStream acc).
Proof.
  induction l as [|item l IH]; intros acc Hl; cbn [fold_left map].
  - rewrite app_nil_r. now destruct acc.
  - inversion Hl as [|? ? Hitem Hrest]; subst.
    unfold select_step at 2. cbn [falsy loose_eq andb].
    replace (doc_time_max item >=? lastUpdatedStreamTime acc) with false
      by (symmetry; rewrite Z.geb_leb; apply Z.leb_gt; lia).
    rewrite IH by exact Hrest. cbn [streamLists lastUpdatedStreamTime
      selectedStream]. now rewrite <- app_assoc.
Qed.

Lemma select_fold_url (c : ascii) (s : string) (l : list Stream) :
  forall acc,
    selectedStream (fold_left (select_step (Some (String c s))) l acc)
    = if JsArray.includes (map name l) (String c s)
      then mkOption (String c s) (String c s)
      else selectedStream acc.
Proof.
  induction l as [|item l IH]; intros acc; cbn [fold_left map];
    [reflexivity|].
  rewrite IH. unfold JsArray.includes. cbn [existsb].
  destruct (existsb _ (map name l)); [now rewrite orb_true_r|].
  rewrite orb_false_r. unfold select_step.
  change (falsy (Some (String c s))) with false.
  cbn [loose_eq andb selectedStream].
  destruct (String.eqb_spec (String c s) (name item)) as [Heq|Hne];
    [|reflexivity].
  unfold option_of. now rewrite <- Heq.
Qed.

End StreamFacts.

(** X10. [loadStreamLists] on a non-empty result list: the selector
    lists every stream, in order and under its name, whatever the URL
    says, the error message is left alone, and the stream selected is
    one of those listed or the empty option. *)
Theorem loadStreamLists_lists_all :
  forall (stream : option string) (x : Streams.Stream)
         (l : list Streams.Stream) (st : Streams.StreamState),
    let r := Streams.loadStreamLists stream (x :: l) st in
    Streams.s_streamLists r = map Streams.option_of (x :: l)
    /\ Streams.s_errorMsg r = Streams.s_errorMsg st
    /\ (Streams.s_selectedStream r = Streams.no_option
        \/ In (Streams.s_selectedStream r) (Streams.s_streamLists r)).
Proof.
  intros stream x l st. unfold Streams.loadStreamLists.
  destruct (select_fold_lists stream (x :: l)
              (Streams.mkSelection [] 0 Streams.no_option)) as [Hl Hs].
  cbn [Streams.streamLists Streams.selectedStream app] in Hl, Hs.
  cbv zeta. cbn [Streams.s_streamLists Streams.s_errorMsg
                 Streams.s_selectedStream].
  rewrite Hl. repeat split. exact Hs.
Qed.

(** X11. Without a stream parameter in the URL, [loadStreamLists]
    selects the stream that was written to last: the one whose
    [doc_time_max] is not negative, not below that of any stream before
    it and above that of every stream after it, so that among equals the
    last one wins. *)
Theorem loadStreamLists_selects_latest :
  forall (l1 : list Streams.Stream) (item : Streams.Stream)
         (l2 : list Streams.Stream) (st : Streams.StreamState),
    0 <= Streams.doc_time_max item ->
    Forall (fun x => Streams.doc_time_max x <= Streams.doc_time_max item) l1 ->
    Forall (fun x => Streams.doc_time_max x < Streams.doc_time_max item) l2 ->
    Streams.s_selectedStream
      (Streams.loadStreamLists None (l1 ++ item :: l2) st)
    = Streams.option_of item.
Proof.
  intros l1 item l2 st H0 H1 H2.
  assert (Hrun : Streams.selectedStream
                   (fold_left (Streams.select_step None) (l1 ++ item :: l2)
                      (Streams.mkSelection [] 0 Streams.no_option))
                 = Streams.option_of item).
  { rewrite fold_left_app. cbn [fold_left].
    pose proof (select_fold_bound (Streams.doc_time_max item) l1 H1
                  (Streams.mkSelection [] 0 Streams.no_option) H0) as Hb.
    set (acc := fold_left _ l1 _) in *.
    unfold Streams.select_step at 2.
    cbn [Streams.falsy Streams.loose_eq andb].
    replace (Streams.doc_time_max item
             >=? Streams.lastUpdatedStreamTime acc) with true
      by (symmetry; rewrite Z.geb_leb; apply Z.leb_le; lia).
    rewrite select_fold_later by exact H2. reflexivity. }
  unfold Streams.loadStreamLists.
  destruct (l1 ++ item :: l2) as [|y l] eqn:Hl.
  - now destruct l1.
  - cbv zeta. cbn [Streams.s_selectedStream]. exact Hrun.
Qed.

Lemma loadStreamLists_selects_latest_witness :
  Streams.s_selectedStream
    (Streams.loadStreamLists None
       ([Streams.mkStream "a" 7 [] []; Streams.mkStream "b" 9 [] []]
        ++ Streams.mkStream "c" 9 [] [] :: [Streams.mkStream "d" 3 [] []])
       (Streams.mkStreamState [] Streams.no_option EmptyString))
  = Streams.option_of (Streams.mkStream "c" 9 [] []).
Proof.
  apply (loadStreamLists_selects_latest
           [Streams.mkStream "a" 7 [] []; Streams.mkStream "b" 9 [] []]
           (Streams.mkStream "c" 9 [] [])
           [Streams.mkStream "d" 3 [] []]).
  - simpl. lia.
  - repeat constructor; simpl; lia.
  - repeat constructor; simpl; lia.
Defined.

(** X12. With a non-empty stream parameter in the URL,
    [loadStreamLists] selects the stream of that name when the list has
    one, and the empty option when it has none: the time stamps play no
    part. *)
Theorem loadStreamLists_follows_url :
  forall (c : ascii) (s : string) (x : Streams.Stream)
         (l : list Streams.Stream) (st : Streams.StreamState),
    Streams.s_selectedStream
      (Streams.loadStreamLists (Some (String c s)) (x :: l) st)
    = if JsArray.includes (map Streams.name (x :: l)) (String c s)
      then Streams.mkOption (String c s) (String c s)
      else Streams.no_option.
Proof.
  intros c s x l st. unfold Streams.loadStreamLists. cbv zeta.
  cbn [Streams.s_selectedStream]. now rewrite select_fold_url.
Qed.

(** ** Fields *)

Section FieldFacts.
Import Streams Fields.

Lemma includes_In (l : list string) (k : string) :
  JsArray.includes l k = true <-> In k l.
Proof.
  unfold JsArray.includes. rewrite existsb_exists. split.
  - intros (x & Hx & Heq). apply String.eqb_eq in Heq. now subst.
  - intros Hk. exists k. split; [exact Hk|apply String.eqb_refl].
Qed.

Lemma includes_not_In (l : list string) (k : string) :
  JsArray.includes l k = false <-> ~ In k l.
Proof.
  rewrite <- includes_In. now destruct (JsArray.includes l k).
Qed.

(** *** The fullest record *)

Lemma reduce_max_inv (array : list Record_keys) :
  forall (rest pre : list Record_keys) (m : nat),
    array = pre ++ rest ->
    (m < List.length array)%nat ->
    (m <= List.length pre)%nat ->
    (forall j, (j < List.length pre)%nat ->
       (List.length (nth j array []) <= List.length (nth m array []))%nat
       /\ ((j < m)%nat ->
           (List.length (nth j array []) < List.length (nth m array []))%nat)) ->
    let r := reduce_max array rest m (List.length pre) in
    (r < List.length array)%nat
    /\ forall j, (j < List.length array)%nat ->
       (List.length (nth j array []) <= List.length (nth r array []))%nat
       /\ ((j < r)%nat ->
           (List.length (nth j array []) < List.length (nth r array []))%nat).
Proof.
  induction rest as [|obj rest IH]; intros pre m Harr Hm Hle Hinv;
    cbn [reduce_max].
  - split; [exact Hm|]. intros j Hj. apply Hinv.
    rewrite Harr, app_nil_r in Hj. exact Hj.
  - assert (Hobj : nth (List.length pre) array [] = obj).
    { rewrite Harr, app_nth2, Nat.sub_diag by lia. reflexivity. }
    assert (Hlen : (List.length pre < List.length array)%nat).
    { rewrite Harr, length_app. cbn [List.length]. lia. }
    specialize (IH (pre ++ [obj])).
    rewrite length_app in IH. cbn [List.length] in IH.
    replace (List.length pre + 1)%nat with (S (List.length pre)) in IH by lia.
    destruct (Nat.ltb_spec (List.length (nth m array []))
                (List.length obj)) as [Hlt|Hge].
    + apply IH; [now rewrite <- app_assoc|exact Hlen|lia|].
      intros j Hj. rewrite Hobj.
      destruct (Nat.eq_dec j (List.length pre)) as [->|Hne].
      * rewrite Hobj. split; lia.
      * destruct (Hinv j ltac:(lia)) as [H1 _]. split; lia.
    + apply IH; [now rewrite <- app_assoc|exact Hm|lia|].
      intros j Hj.
      destruct (Nat.eq_dec j (List.length pre)) as [->|Hne].
      * rewrite Hobj. split; lia.
      * apply Hinv. lia.
Qed.

(** *** The scan of the stream list *)

Lemma scan_no_match (selected : string) (l : list Stream) :
  JsArray.includes (map name l) selected = false ->
  forall acc, fold_left (scan_step selected) l acc = acc.
Proof.
  induction l as [|stream l IH]; intros Hno acc; cbn [fold_left];
    [reflexivity|].
  unfold JsArray.includes in Hno. cbn [map existsb] in Hno.
  apply orb_false_iff in Hno. destruct Hno as [Hhead Hrest].
  unfold scan_step at 2. rewrite Hhead. now apply IH.
Qed.

Lemma scan_rows (selected : string) (l : list Stream) :
  forall acc n,
    In n (map fst (queryResult (fold_left (scan_step selected) l acc))) ->
    In n (map fst (queryResult acc))
    \/ exists stream,
         In stream l /\ name stream = selected
         /\ In n (map fst (schema stream)).
Proof.
  induction l as [|stream l IH]; intros acc n Hn; cbn [fold_left] in Hn;
    [now left|].
  destruct (IH _ _ Hn) as [Hacc|(s & Hs & Hname & Hin)].
  - unfold scan_step in Hacc.
    destruct (String.eqb_spec selected (name stream)) as [Heq|Hne];
      [|now left].
    cbn [queryResult] in Hacc. rewrite map_app in Hacc.
    apply in_app_or in Hacc. destruct Hacc as [Hacc|Hacc]; [now left|].
    right. exists stream. repeat split; [now left|now symmetry|exact Hacc].
  - right. exists s. repeat split; [now right|exact Hname|exact Hin].
Qed.

(** *** The last loop *)

Variable inherited : string -> bool.
Variable timestamp_column : string.

Lemma collect_unmatched (rows : list (string * string)) :
  forall fields,
    collect inherited timestamp_column None rows fields [] = [].
Proof.
  induction rows as [|row rows IH]; intros fields; cbn [collect];
    [reflexivity|].
  now destruct (inherited (fst row) || JsArray.includes fields (fst row)).
Qed.

Lemma collect_sound (P : string -> Prop)
  (sets : option (list string * list string)) (rows : list (string * string)) :
  forall fields out,
    Forall P (map fst rows) ->
    NoDup (map f_name out) ->
    (forall n, In n (map f_name out) -> In n fields) ->
    Forall (fun f => inherited (f_name f) = false /\ P (f_name f)) out ->
    let r := collect inherited timestamp_column sets rows fields out in
    NoDup (map f_name r)
    /\ Forall (fun f => inherited (f_name f) = false /\ P (f_name f)) r.
Proof.
  induction rows as [|row rows IH]; intros fields out Hrows Hnd Hin Hout;
    cbn [collect]; [now split|].
  cbn [map] in Hrows. inversion Hrows as [|? ? Hrow Hrest]; subst.
  destruct (inherited (fst row)) eqn:Hinh; cbn [orb];
    [now apply IH|].
  destruct (JsArray.includes fields (fst row)) eqn:Hseen;
    [now apply IH|].
  destruct sets as [[ftsKeys schemaFields]|]; [|now split].
  apply includes_not_In in Hseen.
  apply IH; [exact Hrest| | |].
  - rewrite map_app. cbn [map f_name].
    apply NoDup_app; [exact Hnd|repeat constructor; intros []|].
    intros n Hn [Heq|[]]. subst n. auto.
  - intros n Hn. rewrite map_app in Hn. apply in_app_or in Hn.
    destruct Hn as [Hn|[Hn|[]]]; [right; auto|now left].
  - apply Forall_app. split; [exact Hout|].
    repeat constructor; assumption.
Qed.

Lemma collect_fresh (ftsKeys schemaFields : list string)
  (rows : list (string * string)) :
  forall fields out,
    NoDup (map fst rows) ->
    (forall n, In n (map fst rows) -> ~ In n fields) ->
    collect inherited timestamp_column (Some (ftsKeys, schemaFields)) rows
      fields out
    = out
      ++ map (fun row =>
                mkField (fst row) (JsArray.includes ftsKeys (fst row))
                  (JsArray.includes schemaFields (fst row))
                  (negb (String.eqb (fst row) timestamp_column)))
           (filter (fun row => negb (inherited (fst row))) rows).
Proof.
  induction rows as [|row rows IH]; intros fields out Hnd Hnew;
    cbn [collect filter map]; [now rewrite app_nil_r|].
  cbn [map] in Hnd. inversion Hnd as [|? ? Hrow Hrest]; subst.
  destruct (inherited (fst row)) eqn:Hinh; cbn [orb negb].
  - apply IH; [exact Hrest|]. intros n Hn. apply Hnew. now right.
  - replace (JsArray.includes fields (fst row)) with false
      by (symmetry; apply includes_not_In, Hnew; now left).
    rewrite IH; [|exact Hrest|].
    + cbn [map]. now rewrite <- app_assoc.
    + intros n Hn [Heq|Hf]; [now subst n|].
      revert Hf. apply Hnew. now right.
Qed.

End FieldFacts.

(** X13. [maxAttributesIndex] is the position of the first of the
    fullest records: it lies within the hits, no hit has more keys than
    the one it points to, and every hit before it has fewer. *)
Theorem maxAttributesIndex_first_fullest :
  forall (h : Fields.Record_keys) (hs : list Fields.Record_keys),
    let hits := h :: hs in
    let m := Fields.maxAttributesIndex hits in
    (m < List.length hits)%nat
    /\ forall j, (j < List.length hits)%nat ->
         (List.length (nth j hits []) <= List.length (nth m hits []))%nat
         /\ ((j < m)%nat ->
             (List.length (nth j hits [])
              < List.length (nth m hits []))%nat).
Proof.
  intros h hs hits m. subst m. unfold Fields.maxAttributesIndex.
  apply (reduce_max_inv hits hits [] O); [reflexivity|cbn; lia|cbn; lia|].
  cbn [List.length]. intros j Hj. lia.
Qed.

(** X14. What [extractFields] lists: no name twice, no name that an
    empty object already answers, and every name either a schema field
    of a stream that carries the selected name or a key of the fullest
    hit. *)
Theorem extractFields_sound :
  forall (inherited : string -> bool) (timestamp_column : string)
         (streams : list Streams.Stream) (selected : string)
         (hits : option (list Fields.Record_keys)),
    let fields :=
      Fields.extractFields inherited timestamp_column streams selected hits in
    NoDup (map Fields.f_name fields)
    /\ Forall
         (fun f =>
            inherited (Fields.f_name f) = false
            /\ ((exists stream,
                    In stream streams
                    /\ Streams.name stream = selected
                    /\ In (Fields.f_name f)
                         (map fst (Streams.schema stream)))
                \/ (exists hs,
                       hits = Some hs
                       /\ In (Fields.f_name f)
                            (nth (Fields.maxAttributesIndex hs) hs []))))
         fields.
Proof.
  intros inherited ts streams selected hits. cbv zeta.
  unfold Fields.extractFields.
  destruct streams as [|s0 streams0] eqn:Hstreams;
    [split; constructor|].
  rewrite <- Hstreams. clear Hstreams s0 streams0.
  destruct hits as [hs|]; [|split; constructor].
  apply (collect_sound inherited ts
           (fun n =>
              (exists stream,
                  In stream streams
                  /\ Streams.name stream = selected
                  /\ In n (map fst (Streams.schema stream)))
              \/ (exists hs0,
                     Some hs = Some hs0
                     /\ In n (nth (Fields.maxAttributesIndex hs0) hs0 []))));
    [|constructor|intros n []|constructor].
  rewrite map_app. apply Forall_app. split.
  - apply Forall_forall. intros n Hn. left.
    destruct (scan_rows selected streams _ n Hn) as [[]|Hs]. exact Hs.
  - apply Forall_forall. intros n Hn. right. exists hs.
    split; [reflexivity|].
    unfold Fields.record_rows in Hn. destruct hs as [|h hs']; [destruct Hn|].
    rewrite map_map in Hn. cbn [fst] in Hn. rewrite map_id in Hn.
    apply filter_In in Hn. apply Hn.
Qed.

(** X15. When no stream of the list carries the selected name,
    [extractFields] lists nothing, hits or no hits: the sets of the
    matching stream are never built, and the first field that would be
    listed ends the function. *)
Theorem extractFields_without_match :
  forall (inherited : string -> bool) (timestamp_column : string)
         (streams : list Streams.Stream) (selected : string)
         (hits : option (list Fields.Record_keys)),
    JsArray.includes (map Streams.name streams) selected = false ->
    Fields.extractFields inherited timestamp_column streams selected hits
    = [].
Proof.
  intros inherited ts streams selected hits Hno.
  unfold Fields.extractFields.
  destruct streams as [|s0 streams0] eqn:Hstreams; [reflexivity|].
  rewrite <- Hstreams in *. clear Hstreams s0 streams0.
  destruct hits as [hs|]; [|reflexivity].
  rewrite scan_no_match by exact Hno. cbn [Fields.sets].
  apply collect_unmatched.
Qed.

Lemma extractFields_without_match_witness :
  Fields.extractFields (fun _ => false) "_timestamp"
    [Streams.mkStream "nginx" 5 [("status", "Int64")] ["log"]]
    "k8s" (Some [["status"; "log"]])
  = [].
Proof.
  apply (extractFields_without_match (fun _ => false) "_timestamp"
           [Streams.mkStream "nginx" 5 [("status", "Int64")] ["log"]]
           "k8s" (Some [["status"; "log"]])).
  reflexivity.
Defined.

(** X16. When exactly one stream carries the selected name, its schema
    names are distinct and so are the keys of the fullest hit,
    [extractFields] lists the schema fields in schema order and after
    them the keys of the fullest hit that the schema lacks, less the
    names an empty object already answers; each entry is flagged from
    that stream's full-text keys and schema, and only the time stamp
    column hides its values. *)
Theorem extractFields_of_stream :
  forall (inherited : string -> bool) (timestamp_column : string)
         (l1 : list Streams.Stream) (s : Streams.Stream)
         (l2 : list Streams.Stream) (hs : list Fields.Record_keys),
    let names := map fst (Streams.schema s) in
    let fullest :=
      match hs with
      | [] => []
      | _ :: _ => nth (Fields.maxAttributesIndex hs) hs []
      end in
    let fields :=
      Fields.extractFields inherited timestamp_column (l1 ++ s :: l2)
        (Streams.name s) (Some hs) in
    JsArray.includes (map Streams.name (l1 ++ l2)) (Streams.name s) = false ->
    NoDup names ->
    NoDup fullest ->
    map Fields.f_name fields
    = filter (fun k => negb (inherited k))
        (names
         ++ filter (fun k => negb (JsArray.includes names k)) fullest)
    /\ Forall
         (fun f =>
            Fields.ftsKey f
            = JsArray.includes (Streams.full_text_search_keys s)
                (Fields.f_name f)
            /\ Fields.isSchemaField f
               = JsArray.includes names (Fields.f_name f)
            /\ Fields.showValues f
               = negb (String.eqb (Fields.f_name f) timestamp_column))
         fields.
Proof.
  intros inherited ts l1 s l2 hs names fullest fields Hno Hnames Hfull.
  assert (Hno1 : JsArray.includes (map Streams.name l1) (Streams.name s)
                 = false
                 /\ JsArray.includes (map Streams.name l2) (Streams.name s)
                    = false).
  { unfold JsArray.includes in *. rewrite map_app, existsb_app in Hno.
    now apply orb_false_iff in Hno. }
  destruct Hno1 as [Hl1 Hl2].
  assert (Hscan : fold_left (Fields.scan_step (Streams.name s))
                    (l1 ++ s :: l2) (Fields.mkScan [] None)
                  = Fields.mkScan (Streams.schema s)
                      (Some (Streams.full_text_search_keys s, names))).
  { rewrite fold_left_app, (scan_no_match _ l1 Hl1).
    cbn [fold_left]. unfold Fields.scan_step at 2.
    rewrite String.eqb_refl. cbn [Fields.queryResult app].
    now rewrite (scan_no_match _ l2 Hl2). }
  assert (Hrows : Fields.record_rows names hs
                  = map (fun key => (key, "Utf8"))
                      (filter (fun k => negb (JsArray.includes names k))
                         fullest)).
  { subst fullest. unfold Fields.record_rows. now destruct hs. }
  assert (Hfields : fields
                    = map (fun row =>
                             Fields.mkField (fst row)
                               (JsArray.includes
                                  (Streams.full_text_search_keys s) (fst row))
                               (JsArray.includes names (fst row))
                               (negb (String.eqb (fst row) ts)))
                        (filter (fun row => negb (inherited (fst row)))
                           (Streams.schema s
                            ++ map (fun key => (key, "Utf8"))
                                 (filter
                                    (fun k =>
                                       negb (JsArray.includes names k))
                                    fullest)))).
  { subst fields. unfold Fields.extractFields.
    destruct (l1 ++ s :: l2) as [|y l] eqn:Hl; [now destruct l1|].
    rewrite Hscan.
    cbn [Fields.queryResult Fields.sets]. fold names. rewrite Hrows.
    rewrite collect_fresh; [reflexivity| |intros n _ []].
    rewrite map_app, map_map. cbn [fst]. rewrite map_id.
    apply NoDup_app; [exact Hnames|now apply NoDup_filter|].
    intros n Hn Hn'. apply filter_In in Hn'. destruct Hn' as [_ Hn'].
    apply negb_true_iff, includes_not_In in Hn'. now apply Hn'. }
  rewrite Hfields. split.
  - rewrite map_map. cbn [Fields.f_name].
    rewrite <- (map_id
                  (filter (fun k => negb (JsArray.includes names k)) fullest))
      at 2.
    rewrite <- (map_map (fun key => (key, "Utf8")) fst).
    unfold names at 2. rewrite <- map_app.
    generalize (Streams.schema s
                ++ map (fun key => (key, "Utf8"))
                     (filter (fun k => negb (JsArray.includes names k))
                        fullest)).
    intros rows. induction rows as [|row rows IH]; [reflexivity|].
    cbn [map filter]. destruct (inherited (fst row)); cbn [negb map];
      now rewrite IH.
  - apply Forall_forall. intros f Hf. apply in_map_iff in Hf.
    destruct Hf as (row & <- & _). cbn [Fields.ftsKey Fields.f_name
      Fields.isSchemaField Fields.showValues]. repeat split.
Qed.

Lemma extractFields_of_stream_witness :
  map Fields.f_name
    (Fields.extractFields (fun k => String.eqb k "constructor") "_timestamp"
       ([Streams.mkStream "k8s" 1 [("pod", "Utf8")] []]
        ++ Streams.mkStream "nginx" 5
             [("_timestamp", "Int64"); ("status", "Int64")] ["log"]
           :: [])
       "nginx"
       (Some [["status"; "log"];
              ["log"; "constructor"; "status"];
              ["a"; "b"; "c"]]))
  = ["_timestamp"; "status"; "log"].
Proof.
  apply (extractFields_of_stream (fun k => String.eqb k "constructor")
           "_timestamp"
           [Streams.mkStream "k8s" 1 [("pod", "Utf8")] []]
           (Streams.mkStream "nginx" 5
              [("_timestamp", "Int64"); ("status", "Int64")] ["log"])
           []
           [["status"; "log"];
            ["log"; "constructor"; "status"];
            ["a"; "b"; "c"]]).
  - reflexivity.
  - repeat constructor; simpl; intuition discriminate.
  - repeat constructor; simpl; intuition discriminate.
Defined.

(** ** Grid columns *)

(** X17. [updateGridColumns] leaves the grid without columns exactly
    when nothing was selected and the local store has a selection to
    restore: it then stores that selection and returns early. Calling it
    once more always builds the columns, the time stamp first, then the
    stored fields or, for want of any, the whole record as [source]. *)
Theorem updateGridColumns_second_call :
  forall (toLowerCase : string -> string) (default_fts_keys : list string)
         (saved : option (list string)) (st : Grid.GridState),
    let once := Grid.updateGridColumns toLowerCase default_fts_keys saved st in
    let twice :=
      Grid.updateGridColumns toLowerCase default_fts_keys saved once in
    (Grid.columns once = []
     <-> Grid.selectedFields st = []
         /\ exists f l, saved = Some (f :: l))
    /\ Grid.columns twice
       = "@timestamp"
         :: match saved with
            | Some (f :: l) => f :: l
            | _ => ["source"]
            end.
Proof.
  intros lower defaults saved st. cbv zeta. unfold Grid.updateGridColumns.
  destruct saved as [[|f l]|], (Grid.selectedFields st) as [|g fs];
    cbn [Grid.columns Grid.selectedFields]; split; try reflexivity;
    split; try discriminate;
    try (intros [Hsel (f' & l' & Hsaved)]; discriminate);
    try (intros _; split; [reflexivity|now exists f, l]);
    try (intros _; reflexivity).
Qed.

(** ** The request *)

(** X18. The tail of [buildSearch] fails in exactly one configuration:
    base64 encoding of SQL is on, SQL mode is off, the first page is
    asked for and the histogram is hidden. The histogram text has then
    been removed from the request and is read again to be encoded. *)
Theorem buildSearch_tail_throws_iff :
  forall (b64EncodeUnicode : string -> string)
         (sql_base64_enabled sqlMode showHistogram : bool)
         (currentPage : Z) (sql histogram : string),
    (exists m,
        Request.buildSearch_tail b64EncodeUnicode sql_base64_enabled sqlMode
          showHistogram currentPage sql histogram
        = Js.Throw m)
    <-> sql_base64_enabled = true /\ sqlMode = false
        /\ showHistogram = false /\ currentPage = 1.
Proof.
  intros b64 base64 sqlMode show cp sql histogram.
  unfold Request.buildSearch_tail.
  destruct (Z.eqb_spec cp 1) as [->|Hcp];
    [change (1 >? 1) with false|];
    destruct base64, sqlMode, show; cbn [negb orb andb];
    try destruct (cp >? 1);
    (split; [intros [m Hm]; try discriminate Hm;
             repeat split; reflexivity
            |intros (H1 & H2 & H3 & H4);
             try discriminate; try contradiction; eauto]).
Qed.

(** X19. A request that [buildSearch] returns for a page from the first
    on asks for the total in one way only: [track_total_hits] is set
    exactly on the first page of a request without histogram text; a
    histogram text is present only on the first page, outside SQL mode and
    with the histogram shown, and it is encoded whenever the SQL text
    is. *)
Theorem buildSearch_tail_total_source :
  forall (b64EncodeUnicode : string -> string)
         (sql_base64_enabled sqlMode showHistogram : bool)
         (currentPage : Z) (sql histogram : string) (req : Request.Req),
    1 <= currentPage ->
    Request.buildSearch_tail b64EncodeUnicode sql_base64_enabled sqlMode
      showHistogram currentPage sql histogram
    = Js.Normal req ->
    (Request.q_track_total_hits req = Some true
     <-> currentPage = 1 /\ Request.aggs_histogram req = None)
    /\ (Request.aggs_histogram req <> None ->
        currentPage = 1 /\ sqlMode = false /\ showHistogram = true)
    /\ (Request.aggs_histogram req = None
        \/ Request.aggs_histogram req
           = Some (if sql_base64_enabled
                   then b64EncodeUnicode histogram else histogram))
    /\ Request.q_sql req
       = (if sql_base64_enabled then b64EncodeUnicode sql else sql).
Proof.
  intros b64 base64 sqlMode show cp sql histogram req Hcp.
  unfold Request.buildSearch_tail.
  destruct (Z.eqb_spec cp 1) as [->|Hne].
  - change (1 >? 1) with false.
    destruct base64, sqlMode, show; cbn [negb orb andb];
      intros Hreq; inversion Hreq; subst req;
      cbn [Request.q_track_total_hits Request.aggs_histogram Request.q_sql];
      repeat split; try tauto; try discriminate;
      try (intros [_ H]; discriminate H); try (now left); try (now right);
      try (intros H; now contradiction H).
  - replace (cp >? 1) with true
      by (symmetry; rewrite Z.gtb_ltb; apply Z.ltb_lt; lia).
    destruct base64, sqlMode, show; cbn [negb orb andb];
      intros Hreq; inversion Hreq; subst req;
      cbn [Request.q_track_total_hits Request.aggs_histogram Request.q_sql];
      repeat split; try discriminate; try (now left);
      try (intros [H _]; contradiction);
      try (intros H; now contradiction H); congruence.
Qed.

Lemma buildSearch_tail_total_source_witness :
  Request.q_track_total_hits
    (Request.mkReq "select * from logs" (Some true) None None)
  = Some true
  <-> 1 = 1
      /\ Request.aggs_histogram
           (Request.mkReq "select * from logs" (Some true) None None)
         = None.
Proof.
  apply (buildSearch_tail_total_source (fun s => s) false false false 1
           "select * from logs" "select histogram"
           (Request.mkReq "select * from logs" (Some true) None None)).
  - lia.
  - reflexivity.
Defined.

(** ** Requests and sub-pages *)

Section SubpageFacts.
Import Executor.

Lemma accumulate_subpage (st : SearchObj) (q : Query) (appendResult : bool)
  (res : SearchData) :
  subpage (queryResults (fst (accumulate st q appendResult res)))
  = subpage (queryResults st).
Proof.
  unfold accumulate.
  destruct (d_from res >? 0); [destruct appendResult;
                               [destruct (hits (queryResults st))|]|
                               destruct (live_refresh st)];
    reflexivity.
Qed.

Lemma getPaginatedData_then_subpage (st : SearchObj) (q : Query)
  (appendResult : bool) (res : SearchData) :
  let r := getPaginatedData_then st q appendResult res in
  subpage (queryResults (fst r))
  = match snd r with
    | Js.Normal (Some _) => S (subpage (queryResults st))
    | _ => subpage (queryResults st)
    end.
Proof.
  cbv zeta. unfold getPaginatedData_then.
  destruct (update_totals_from (rowsPerPage st) (currentPage st)
              (start_time q) (d_total res)
              (Planner.partitions (partitionDetail (queryResults st))) O
              (partitionDetail (queryResults st))) as (pgs & -> & _).
  set (st1 := with_results st _).
  pose proof (accumulate_subpage st1 q appendResult res) as Hacc.
  destruct (accumulate st1 q appendResult res) as [st2 [[]|m]];
    cbn [fst snd] in Hacc |- *; [|exact Hacc].
  unfold next_slice.
  destruct (if currentPage st2 - 1 <? 0 then None else _) as [page|];
    [|exact Hacc].
  destruct (nth_error page (subpage (queryResults st2))) as [s|];
    cbn [fst snd]; [|exact Hacc].
  cbn [queryResults with_results with_subpage subpage]. now rewrite Hacc.
Qed.

End SubpageFacts.

(** X20. [subpage] counts the requests of the page: each request that
    [getPaginatedData] sends after the first raises it by one and nothing
    else changes it, whatever the answers are; and no more requests are
    sent than answers have arrived, plus the one left pending. *)
Theorem subpage_counts_requests :
  forall (t : string -> string) (logsErrorMessage : option Z -> string)
         (answers : list Executor.outcome) (st : Executor.SearchObj)
         (q : Executor.Query) (appendResult : bool),
    let run :=
      Executor.getPaginatedData t logsErrorMessage answers st q
        appendResult in
    S (Executor.subpage (Executor.queryResults (fst run)))
    = (Executor.subpage (Executor.queryResults st)
       + List.length (snd run))%nat
    /\ (1 <= List.length (snd run) <= S (List.length answers))%nat.
Proof.
  intros t lem answers. cbv zeta.
  induction answers as [|a answers IH]; intros st q appendResult;
    cbn [Executor.getPaginatedData].
  - cbn [fst snd List.length]. lia.
  - destruct a as [res|err];
      [|cbn [fst snd List.length Executor.getPaginatedData_catch
             Executor.queryResults]; lia].
    pose proof (getPaginatedData_then_subpage st
                  (Executor.prepare_query st q) appendResult res) as Hsub.
    cbv zeta in Hsub.
    destruct (Executor.getPaginatedData_then st
                (Executor.prepare_query st q) appendResult res)
      as [st' [[q'|]|m]]; cbn [fst snd] in Hsub;
      try (cbn [fst snd List.length Executor.getPaginatedData_catch
                Executor.queryResults]; rewrite ?finish_results; lia).
    specialize (IH (Executor.finish t lem st' res) q' true).
    rewrite finish_results in IH.
    destruct (Executor.getPaginatedData t lem answers
                (Executor.finish t lem st' res) q' true) as [st'' sent].
    cbn [fst snd List.length] in IH |- *. lia.
Qed.

(** ** Field values *)

Section FieldValueFacts.
Import FieldValues.

Variable inherited : string -> bool.
Variable timestamp_column : string.

Lemma add_spec (s : list Value) (v x : Value) :
  In x (add s v) <-> In x s \/ x = v.
Proof.
  unfold add. destruct (JsArray.includes s v) eqn:Hv.
  - apply includes_In in Hv. split; [now left|].
    intros [Hx| ->]; assumption.
  - rewrite in_app_iff. cbn [In]. intuition.
Qed.

Lemma add_NoDup (s : list Value) (v : Value) :
  NoDup s -> NoDup (add s v).
Proof.
  intros Hs. unfold add. destruct (JsArray.includes s v) eqn:Hv;
    [exact Hs|].
  apply includes_not_In in Hv.
  apply NoDup_app; [exact Hs|repeat constructor; intros []|].
  intros x Hx [<-|[]]. now apply Hv.
Qed.

Lemma recorded_assign (m : Store) (key : string) (s : list Value)
  (k : string) (v : Value) :
  recorded (assign m key s) k v
  <-> (k = key /\ In v s) \/ (k <> key /\ recorded m k v).
Proof.
  unfold recorded, assign.
  destruct (String.eqb_spec k key) as [->|Hne].
  - split.
    + intros (s' & Hs' & Hv). inversion Hs'; subst. now left.
    + intros [[_ Hv]|[Hne _]]; [now exists s|contradiction].
  - split.
    + intros H. now right.
    + intros [[Heq _]|[_ H]]; [contradiction|exact H].
Qed.

(** One key: what was recorded stays, and what is recorded now was
    recorded before or is the entry, under a key that is not excluded. *)
Lemma key_step_spec (m m' : Store) (entry : string * Value)
  (k : string) (v : Value) :
  key_step inherited timestamp_column m entry = Js.Normal m' ->
  recorded m' k v
  <-> recorded m k v
      \/ (JsArray.includes (excludedFields timestamp_column) k = false
          /\ (k, v) = entry).
Proof.
  unfold key_step. destruct entry as [key val]. cbn [fst snd].
  destruct (JsArray.includes (excludedFields timestamp_column) key) eqn:Hex.
  - intros Hm. inversion Hm; subst m'. split; [now left|].
    intros [H|[Hk Heq]]; [exact H|]. inversion Heq; subst. congruence.
  - destruct (m key) as [s|] eqn:Hkey.
    + intros Hm. inversion Hm; subst m'. rewrite recorded_assign, add_spec.
      split.
      * intros [[-> [Hv| ->]]|[_ H]]; [left; now exists s|now right|now left].
      * intros [(s' & Hs' & Hv)|[_ Heq]].
        -- destruct (String.eqb_spec k key) as [->|Hne].
           ++ left. split; [reflexivity|]. left. congruence.
           ++ right. split; [exact Hne|now exists s'].
        -- inversion Heq; subst. left. split; [reflexivity|now right].
    + destruct (inherited key); [discriminate|].
      intros Hm. inversion Hm; subst m'. rewrite recorded_assign, add_spec.
      split.
      * intros [[-> [[]| ->]]|[_ H]]; [now right|now left].
      * intros [(s' & Hs' & Hv)|[_ Heq]].
        -- destruct (String.eqb_spec k key) as [->|Hne]; [congruence|].
           right. split; [exact Hne|now exists s'].
        -- inversion Heq; subst. left. split; [reflexivity|now right].
Qed.

Lemma key_step_NoDup (m m' : Store) (entry : string * Value) :
  key_step inherited timestamp_column m entry = Js.Normal m' ->
  (forall k s, m k = Some s -> NoDup s) ->
  forall k s, m' k = Some s -> NoDup s.
Proof.
  unfold key_step.
  destruct (JsArray.includes _ (fst entry));
    [intros Hm; inversion Hm; now subst|].
  destruct (m (fst entry)) as [s0|] eqn:Hkey.
  - intros Hm Hnd k s. inversion Hm; subst m'. unfold assign.
    destruct (String.eqb k (fst entry)); [|apply Hnd].
    intros Hs. inversion Hs; subst. apply add_NoDup. now apply (Hnd (fst entry)).
  - destruct (inherited (fst entry)); [discriminate|].
    intros Hm Hnd k s. inversion Hm; subst m'. unfold assign.
    destruct (String.eqb k (fst entry)); [|apply Hnd].
    intros Hs. inversion Hs; subst. apply add_NoDup. constructor.
Qed.

Lemma key_step_returns (m : Store) (entry : string * Value) :
  inherited (fst entry) = false ->
  exists m', key_step inherited timestamp_column m entry = Js.Normal m'.
Proof.
  intros Hinh. unfold key_step. rewrite Hinh.
  destruct (JsArray.includes _ (fst entry)); [eauto|].
  destruct (m (fst entry)); eauto.
Qed.

Lemma item_loop_sound (item : Hit) (k : string) (v : Value) :
  forall m,
    let m' := fst (item_loop inherited timestamp_column m item) in
    (recorded m k v -> recorded m' k v)
    /\ (recorded m' k v ->
        recorded m k v
        \/ (JsArray.includes (excludedFields timestamp_column) k = false
            /\ In (k, v) item)).
Proof.
  induction item as [|entry item IH]; intros m; cbn [item_loop fst];
    [now split; [|left]|].
  destruct (key_step inherited timestamp_column m entry) as [m1|msg] eqn:Hstep;
    [|cbn [fst]; now split; [|left]].
  destruct (IH m1) as [Hmono Hsound]. cbv zeta in *.
  pose proof (key_step_spec m m1 entry k v Hstep) as Hspec.
  split.
  - intros H. apply Hmono, Hspec. now left.
  - intros H. destruct (Hsound H) as [H1|[Hex Hin]].
    + apply Hspec in H1. destruct H1 as [H1|[Hex Heq]]; [now left|].
      right. split; [exact Hex|now left].
    + right. split; [exact Hex|now right].
Qed.

Lemma item_loop_complete (item : Hit) :
  forallb (fun entry => negb (inherited (fst entry))) item = true ->
  forall m,
    snd (item_loop inherited timestamp_column m item) = true
    /\ forall k v,
        In (k, v) item ->
        JsArray.includes (excludedFields timestamp_column) k = false ->
        recorded (fst (item_loop inherited timestamp_column m item)) k v.
Proof.
  induction item as [|entry item IH]; intros Hinh m; cbn [item_loop];
    [split; [reflexivity|intros k v []]|].
  cbn [forallb] in Hinh. apply andb_true_iff in Hinh.
  destruct Hinh as [Hentry Hrest]. apply negb_true_iff in Hentry.
  destruct (key_step_returns m entry Hentry) as (m1 & Hstep).
  rewrite Hstep. destruct (IH Hrest m1) as [Hend Hrec].
  split; [exact Hend|]. intros k v [Heq|Hin] Hex.
  - apply (item_loop_sound item k v m1).
    apply (key_step_spec m m1 entry k v Hstep). right. now split.
  - now apply Hrec.
Qed.

Lemma item_loop_NoDup (item : Hit) :
  forall m,
    (forall k s, m k = Some s -> NoDup s) ->
    forall k s,
      fst (item_loop inherited timestamp_column m item) k = Some s ->
      NoDup s.
Proof.
  induction item as [|entry item IH]; intros m Hnd; cbn [item_loop fst];
    [exact Hnd|].
  destruct (key_step inherited timestamp_column m entry) as [m1|msg] eqn:Hstep;
    [|exact Hnd].
  apply IH. now apply (key_step_NoDup m m1 entry).
Qed.

Lemma hits_loop_sound (hits : list Hit) (k : string) (v : Value) :
  forall m,
    let m' := fst (hits_loop inherited timestamp_column m hits) in
    (recorded m k v -> recorded m' k v)
    /\ (recorded m' k v ->
        recorded m k v
        \/ (JsArray.includes (excludedFields timestamp_column) k = false
            /\ exists item, In item hits /\ In (k, v) item)).
Proof.
  induction hits as [|item hits IH]; intros m; cbn [hits_loop fst];
    [now split; [|left]|].
  destruct (item_loop_sound item k v m) as [Hmono Hsound]. cbv zeta in *.
  destruct (item_loop inherited timestamp_column m item) as [m1 [|]];
    cbn [fst] in *.
  - destruct (IH m1) as [Hmono' Hsound']. split; [auto|].
    intros H. destruct (Hsound' H) as [H1|(Hex & it & Hit & Hin)].
    + destruct (Hsound H1) as [H2|[Hex Hin]]; [now left|].
      right. split; [exact Hex|]. exists item. split; [now left|exact Hin].
    + right. split; [exact Hex|]. exists it. split; [now right|exact Hin].
  - split; [exact Hmono|]. intros H.
    destruct (Hsound H) as [H2|[Hex Hin]]; [now left|].
    right. split; [exact Hex|]. exists item. split; [now left|exact Hin].
Qed.

Lemma hits_loop_complete (hits : list Hit) :
  forallb (forallb (fun entry => negb (inherited (fst entry)))) hits = true ->
  forall m k v item,
    In item hits -> In (k, v) item ->
    JsArray.includes (excludedFields timestamp_column) k = false ->
    recorded (fst (hits_loop inherited timestamp_column m hits)) k v.
Proof.
  induction hits as [|item0 hits IH]; intros Hinh m k v item Hitem Hin Hex;
    [destruct Hitem|].
  cbn [forallb] in Hinh. apply andb_true_iff in Hinh.
  destruct Hinh as [Hhead Hrest]. cbn [hits_loop].
  destruct (item_loop_complete item0 Hhead m) as [Hend Hrec].
  destruct (item_loop inherited timestamp_column m item0) as [m1 b].
  cbn [fst snd] in Hend, Hrec. subst b.
  destruct Hitem as [->|Hitem].
  - apply (hits_loop_sound hits k v m1). now apply Hrec.
  - now apply (IH Hrest m1 k v item).
Qed.

Lemma hits_loop_NoDup (hits : list Hit) :
  forall m,
    (forall k s, m k = Some s -> NoDup s) ->
    forall k s,
      fst (hits_loop inherited timestamp_column m hits) k = Some s ->
      NoDup s.
Proof.
  induction hits as [|item hits IH]; intros m Hnd; cbn [hits_loop fst];
    [exact Hnd|].
  pose proof (item_loop_NoDup item m Hnd) as Hnd1.
  destruct (item_loop inherited timestamp_column m item) as [m1 [|]];
    cbn [fst] in *; [now apply IH|exact Hnd1].
Qed.

End FieldValueFacts.

(** X22. [updateFieldValues] only adds, and only what the hits hold:
    every value recorded before is still recorded, and a value recorded
    afterwards under a key was recorded before or is the value some hit
    has under that key, which is then none of the excluded keys (the
    time stamp column, [log], [msg]). This holds also when the loop ends
    early on a throw. *)
Theorem updateFieldValues_sound :
  forall (inherited : string -> bool) (timestamp_column : string)
         (m : FieldValues.Store) (hits : list FieldValues.Hit)
         (k : string) (v : FieldValues.Value),
    exists m',
      FieldValues.updateFieldValues inherited timestamp_column (Some m) hits
      = Some m'
      /\ (FieldValues.recorded m k v -> FieldValues.recorded m' k v)
      /\ (FieldValues.recorded m' k v ->
          FieldValues.recorded m k v
          \/ (JsArray.includes
                (FieldValues.excludedFields timestamp_column) k = false
              /\ exists item, In item hits /\ In (k, v) item)).
Proof.
  intros inherited ts m hits k v.
  exists (fst (FieldValues.hits_loop inherited ts m hits)).
  split; [reflexivity|]. apply hits_loop_sound.
Qed.

(** X23. When no key of the hits is a name that an empty object already
    answers and the sets recorded so far hold no value twice,
    [updateFieldValues] records every value of every hit under its key,
    the excluded keys apart, and the sets still hold no value twice. *)
Theorem updateFieldValues_complete :
  forall (inherited : string -> bool) (timestamp_column : string)
         (m : FieldValues.Store) (hits : list FieldValues.Hit),
    forallb (forallb (fun entry => negb (inherited (fst entry)))) hits
    = true ->
    (forall k s, m k = Some s -> NoDup s) ->
    exists m',
      FieldValues.updateFieldValues inherited timestamp_column (Some m) hits
      = Some m'
      /\ (forall k v item,
             In item hits -> In (k, v) item ->
             JsArray.includes
               (FieldValues.excludedFields timestamp_column) k = false ->
             FieldValues.recorded m' k v)
      /\ (forall k s, m' k = Some s -> NoDup s).
Proof.
  intros inherited ts m hits Hinh Hnd.
  exists (fst (FieldValues.hits_loop inherited ts m hits)).
  split; [reflexivity|]. split.
  - now apply hits_loop_complete.
  - now apply hits_loop_NoDup.
Qed.

Lemma updateFieldValues_complete_witness :
  exists m',
    FieldValues.updateFieldValues (fun k => String.eqb k "constructor")
      "_timestamp" (Some (fun _ => None))
      [[("_timestamp", "17"); ("status", "200"); ("log", "GET /")];
       [("status", "404"); ("pod", "web-1")];
       [("status", "200")]]
    = Some m'
    /\ (forall k v item,
           In item
             [[("_timestamp", "17"); ("status", "200"); ("log", "GET /")];
              [("status", "404"); ("pod", "web-1")];
              [("status", "200")]] ->
           In (k, v) item ->
           JsArray.includes (FieldValues.excludedFields "_timestamp") k
           = false ->
           FieldValues.recorded m' k v)
    /\ (forall k s, m' k = Some s -> NoDup s).
Proof.
  apply (updateFieldValues_complete (fun k => String.eqb k "constructor")
           "_timestamp" (fun _ => None)).
  - reflexivity.
  - intros k s Hs. discriminate Hs.
Defined.

(** ** The two [catch] handlers *)

(** X24. The [catch] handlers of [searchAroundData] and of
    [getPaginatedData] compared on the same error: both clear the
    spinner; on an error with a response they store the same code, and
    the same message unless [logsErrorMessage] has a key for the code,
    which the first stores as it is and the second translates; on an
    error without response they store the same message, but the first
    leaves the error code as it was, since it stops at the read of
    [err.response.data]. *)
Theorem catch_handlers_compared :
  forall (t : string -> string) (logsErrorMessage : option Z -> string)
         (st : Executor.SearchObj) (err : Executor.FetchError),
    let around := SearchAround.searchAroundData_catch logsErrorMessage st err in
    let paged := Executor.getPaginatedData_catch t logsErrorMessage st err in
    Executor.loading around = false
    /\ Executor.loading paged = false
    /\ match Executor.response err with
       | Some data =>
           Executor.errorCode around = Executor.errorCode paged
           /\ Executor.errorMsg paged
              = (if String.eqb (logsErrorMessage (Executor.code data))
                      EmptyString
                 then Executor.errorMsg around
                 else t (Executor.errorMsg around))
       | None =>
           Executor.errorCode around = Executor.errorCode st
           /\ Executor.errorCode paged = None
           /\ (String.eqb (logsErrorMessage None) EmptyString = true ->
               Executor.errorMsg around = Executor.errorMsg paged)
       end.
Proof.
  intros t lem st err. cbv zeta.
  unfold SearchAround.searchAroundData_catch, Executor.getPaginatedData_catch,
    Executor.error_message, Executor.error_code.
  destruct (Executor.response err) as [data|];
    cbn [Executor.loading Executor.errorCode Executor.errorMsg].
  - repeat split. now destruct (String.eqb _ _).
  - repeat split. intros ->. reflexivity.
Qed.

(** ** Quoted field names *)

Section QuoteFacts.
Import WhereClause.

Lemma strip_cons (a : ascii) (s : string) :
  strip (String a s)
  = if Ascii.eqb dquote a then strip s else String a (strip s).
Proof.
  unfold strip, Js.replaceAll.
  cbn [Js.replaceAll_from String.prefix String.length Nat.sub String.append].
  destruct (ascii_dec dquote a) as [->|Hne].
  - rewrite Ascii.eqb_refl. now destruct s.
  - apply Ascii.eqb_neq in Hne. now rewrite Hne.
Qed.

Lemma strip_app (s1 s2 : string) :
  strip (String.append s1 s2) = String.append (strip s1) (strip s2).
Proof.
  induction s1 as [|a s1 IH]; [reflexivity|].
  cbn [String.append]. rewrite !strip_cons, IH.
  now destruct (Ascii.eqb dquote a).
Qed.

Lemma strip_strip (s : string) : strip (strip s) = strip s.
Proof.
  induction s as [|a s IH]; [reflexivity|].
  rewrite strip_cons. destruct (Ascii.eqb dquote a) eqn:Ha; [exact IH|].
  now rewrite strip_cons, Ha, IH.
Qed.

Lemma append_empty (s : string) : String.append s EmptyString = s.
Proof.
  induction s as [|a s IH]; [reflexivity|]. cbn [String.append].
  now rewrite IH.
Qed.

(** Quoting what is quoted changes nothing. *)
Lemma quoted_quoted (node : string) : quoted (quoted node) = quoted node.
Proof.
  unfold quoted.
  rewrite strip_cons, Ascii.eqb_refl, strip_app, strip_strip.
  rewrite (strip_cons dquote EmptyString), Ascii.eqb_refl.
  change (strip EmptyString) with EmptyString.
  now rewrite append_empty.
Qed.

End QuoteFacts.

(** X25. The nested loops of [buildSearch] that quote field names in the
    [where] clause amount to one pass over its words: a word that is the
    name of a selected stream field is replaced by that name, stripped of
    double quotes, between double quotes, and every other word stays;
    neither the order of the fields, nor a field listed twice, nor a
    field whose name is the quoted form of another changes the result. *)
Theorem quote_fields_one_pass :
  forall (selectedStreamFields : list Fields.Field)
         (parsedSQL : list string),
    WhereClause.quote_fields selectedStreamFields parsedSQL
    = map (fun node =>
             if JsArray.includes
                  (map Fields.f_name selectedStreamFields) node
             then WhereClause.quoted node
             else node)
        parsedSQL.
Proof.
  unfold WhereClause.quote_fields.
  induction selectedStreamFields as [|field fields IH]; intros parsedSQL;
    cbn [fold_left map].
  - unfold JsArray.includes. cbn [existsb]. now rewrite map_id.
  - rewrite IH. unfold WhereClause.quote_field. rewrite map_map.
    apply map_ext. intros node. unfold JsArray.includes. cbn [existsb].
    destruct (String.eqb_spec node (Fields.f_name field)) as [Heq|Hne];
      cbn [orb]; [|reflexivity].
    rewrite quoted_quoted.
    now destruct (existsb _ (map Fields.f_name fields)).
Qed.
